(** * moiR: the single-chain MCMC kernel of [src/chain.cpp]

    A shallow embedding of [Chain] (the importance-sampled likelihood kernel,
    the four adaptive Metropolis-Hastings blocks, construction and the
    accessors) together with the properties its specification states.

    ** Numbers

    The C++ code computes on [double] (and one [long double] accumulator).
    Every function below is written once, over an abstract carrier [D] with
    the operations of the interface [Double]; it is then read at two
    instances:

    - [R_Double]: exact real arithmetic, the idealisation in which the
      algebraic statements of the specification (sums, simplex, log-pmf
      formulas) are meant;
    - [F64_Double]: IEEE-754 binary64 (Rocq's primitive floats), where NaN,
      underflow and infinities exist.

    [int] is modelled as [Z]: signed overflow is undefined behaviour in C++,
    so no wrap-around is written out; the theorems on the counts of
    [initialize_p] state the bound that keeps its [int] counters in range.
    [size_t] indices are [nat].

    ** Vectors

    A [std::vector<T>] is a [list T]; [v[i]] is [nth i v d] and [v[i] = x] is
    stdpp's [<[i:=x]> v].  An out-of-range [operator[]] is undefined behaviour
    in the source; in the model a read yields the default [d] and a write does
    nothing.  A theorem whose conclusion depends on the cells of a vector
    states the shape that keeps the accesses in range.

    ** The sampler

    [sampler.cpp] is not part of the sources at hand: only [sampler.h] is.
    The sampler is therefore a parameter, an arbitrary state type with one
    transition per method of the header that [chain.cpp] calls.  Console
    output ([UtilFunctions::print]) is left out.

    ** Layout

    The program comes first (loops, numbers, the kernel, the chain, the two
    readings of [double]); then the notions the statements use; then the
    concrete inputs; then the lemmas and the theorems of the specification;
    then further properties of the code, with the notions and inputs they
    need placed with the others. *)

From Stdlib Require Import ZArith List Lia Reals Lra.
From Stdlib Require Floats.
From stdpp Require Import base list.

Set Default Proof Using "Type".

(** * The program *)

(** ** Counted loops *)

(** [for (size_t i = 0; i < n; i++) body], as a state transformer. *)
Definition for_loop {St : Type} (n : nat) (body : nat -> St -> St) (s : St) : St :=
  fold_left (fun acc i => body i acc) (seq 0 n) s.

(** ** The numeric interface *)

(** What [chain.cpp] uses of [double]: the four operations, the two
    comparisons, the conversion from [int], the three [<cmath>] functions, and
    the literals that are not integers. *)
Class Double (D : Type) := {
  d_add : D -> D -> D;
  d_sub : D -> D -> D;
  d_mul : D -> D -> D;
  d_div : D -> D -> D;
  d_ltb : D -> D -> bool;
  d_leb : D -> D -> bool;
  d_of_int : Z -> D;
  d_exp : D -> D;
  d_log : D -> D;
  d_sqrt : D -> D;
  lit_1e_6 : D;      (* 1e-6  *)
  lit_1e_12 : D;     (* 1e-12 *)
  lit_0_23 : D;      (* 0.23  *)
  lit_0_05 : D;      (* .05   *)
  UNDERFLO : D       (* #define UNDERFLO 1e-100, mcmc_utils.h *)
}.

Declare Scope dbl_scope.
Delimit Scope dbl_scope with dbl.
Infix "+" := d_add : dbl_scope.
Infix "-" := d_sub : dbl_scope.
Infix "*" := d_mul : dbl_scope.
Infix "/" := d_div : dbl_scope.
Infix "<?" := d_ltb : dbl_scope.
Infix "<=?" := d_leb : dbl_scope.
Notation "# z" := (d_of_int z%Z) (at level 1, format "# z") : dbl_scope.

(** Read and write of a vector cell. *)
Abbreviation vget d v i := (nth i v d) (only parsing).

(** [v[j][i]] and [v[j][i] = x] on a vector of vectors. *)
Definition mget {A} (d : A) (v : list (list A)) (j i : nat) : A :=
  nth i (nth j v []) d.
Definition mset {A} (v : list (list A)) (j i : nat) (x : A) : list (list A) :=
  <[j := <[i := x]> (nth j v [])]> v.

(** [v.resize(n, x)] *)
Definition resize {A} (n : nat) (x : A) (v : list A) : list A :=
  take n v ++ replicate (n - length v) x.

(** ** Collaborators of [Chain] *)

(** [GenotypingData], as [chain.cpp] reads it. *)
Record GenotypingData := {
  num_loci : nat;
  num_samples : nat;
  num_alleles : list Z;
  observed_alleles : list (list (list Z));   (* [locus][sample][allele] *)
  observed_coi : list Z
}.

(** [Lookup]: the two tables, built elsewhere. *)
Record Lookup (D : Type) := {
  lookup_lgamma : list D;
  lookup_sampling_depth : list (list Z)
}.
Arguments lookup_lgamma {D} _.
Arguments lookup_sampling_depth {D} _.

(** [Parameters], the fields [chain.cpp] reads. *)
Record Parameters (D : Type) := {
  importance_sampling_depth : Z;
  max_coi : Z;
  max_eps_pos : D;
  max_eps_neg : D;
  eps_pos_0 : D;
  eps_neg_0 : D
}.
Arguments importance_sampling_depth {D} _.
Arguments max_coi {D} _.
Arguments max_eps_pos {D} _.
Arguments max_eps_neg {D} _.
Arguments eps_pos_0 {D} _.
Arguments eps_neg_0 {D} _.

(** [Sampler] (sampler.h): a state [rng] (the engine and the per-COI genotype
    buffers) and the methods [Chain] calls, each a transition of that state.
    [sample_genotype] returns a reference to a buffer owned by the sampler;
    [Chain] reads it before the next call, so its contents at the time of the
    call are what the model returns. *)
Class Sampler (D : Type) := {
  rng : Type;
  sampler_new : Z -> list Z -> rng;
  sample_coi_delta : D -> rng -> Z * rng;
  sample_allele_frequencies : list D -> D -> rng -> list D * rng;
  sample_epsilon_pos : D -> D -> rng -> D * rng;
  sample_epsilon_neg : D -> D -> rng -> D * rng;
  sample_genotype : Z -> list D -> Z -> rng -> list (list Z) * rng;
  sample_log_mh_acceptance : rng -> D * rng
}.

(** ** The likelihood kernel *)

Section Kernel.
Context {D : Type} `{Double D}.
Local Open Scope dbl_scope.

(** [Chain::reweight_allele_frequencies] *)
Definition reweight_allele_frequencies
    (allele_frequencies : list D) (observed_genotype : list Z)
    (epsilon_neg epsilon_pos : D) : list D :=
  let n := length allele_frequencies in
  let '(res, res_sum) :=
    for_loop n (fun i '(res, res_sum) =>
      let o := vget 0%Z observed_genotype i in
      let x := vget #0 allele_frequencies i
               * ((#o * (#1 - epsilon_neg)) + (#(1 - o) * epsilon_neg))
               + epsilon_pos + lit_1e_6 in
      (<[i := x]> res, res_sum + x))
      (replicate n #0, #0) in
  let res_sum_inv := #1 / res_sum in
  for_loop (length res) (fun i res =>
    <[i := vget #0 res i * res_sum_inv]> res) res.

(** [Chain::calc_genotype_log_pmf]: the outer loop runs over alleles, the
    inner one over the sampled genotypes. *)
Definition calc_genotype_log_pmf (lookup : Lookup D)
    (genotypes : list (list Z)) (coi : Z)
    (allele_frequencies : list D) (num_genotypes : Z) : list D :=
  let lg k := vget #0 (lookup_lgamma lookup) (Z.to_nat k) in
  let res := replicate (Z.to_nat num_genotypes) (lg (coi + 1)%Z) in
  for_loop (length allele_frequencies) (fun i res =>
    let log_prob := d_log (vget #0 allele_frequencies i + lit_1e_12) in
    for_loop (Z.to_nat num_genotypes) (fun j res =>
      let g := mget 0%Z genotypes j i in
      if (g >? 0)%Z
      then <[j := vget #0 res j + ((#g * log_prob) - lg (g + 1)%Z)]> res
      else res) res) res.

(** [Chain::calc_obs_genotype_lliks] *)
Definition calc_obs_genotype_lliks
    (obs_genotype : list Z) (true_genotypes : list (list Z))
    (epsilon_neg epsilon_pos : D) (num_genotypes : Z) : list D :=
  let lliks := replicate (length true_genotypes) #0 in
  let tp := d_log (#1 - epsilon_neg) in
  let tn := d_log (#1 - epsilon_pos) in
  let fp := d_log epsilon_pos in
  let fn := d_log epsilon_neg in
  for_loop (Z.to_nat num_genotypes) (fun i lliks =>
    for_loop (length (nth i true_genotypes [])) (fun j lliks =>
      let g := mget 0%Z true_genotypes i j in
      let add x := <[i := vget #0 lliks i + x]> lliks in
      if negb (vget 0%Z obs_genotype j =? 0)%Z then
        if negb (g =? 0)%Z then add (#g * tp) else add fp
      else
        if negb (g =? 0)%Z then add (#g * fn) else add tn) lliks) lliks.

Context `{Sampler D}.

(** [Chain::calc_genotype_marginal_llik].  The [long double] accumulator
    [res] is carried in [D]; the sampler state is threaded through. *)
Definition calc_genotype_marginal_llik
    (params : Parameters D) (lookup : Lookup D)
    (obs_genotype : list Z) (coi : Z) (allele_frequencies : list D)
    (epsilon_neg epsilon_pos : D) (sampler : rng) : D * rng :=
  let importance_sampling_depth :=
    Z.min (importance_sampling_depth params)
          (mget 0%Z (lookup_sampling_depth lookup)
                (Z.to_nat coi) (length allele_frequencies)) in
  let importance_reweighted_frequencies :=
    reweight_allele_frequencies allele_frequencies obs_genotype
                                epsilon_neg epsilon_pos in
  let '(sample_true_genotypes, sampler) :=
    sample_genotype coi importance_reweighted_frequencies
                    importance_sampling_depth sampler in
  let importance_probabilities :=
    calc_genotype_log_pmf lookup sample_true_genotypes coi
      importance_reweighted_frequencies importance_sampling_depth in
  let g_star_probabilities :=
    calc_genotype_log_pmf lookup sample_true_genotypes coi
      allele_frequencies importance_sampling_depth in
  let g_given_g_star_probabilities :=
    calc_obs_genotype_lliks obs_genotype sample_true_genotypes
      epsilon_neg epsilon_pos importance_sampling_depth in
  let res :=
    for_loop (Z.to_nat importance_sampling_depth) (fun i res =>
      res + d_exp (vget #0 g_given_g_star_probabilities i
                   + vget #0 g_star_probabilities i
                   - vget #0 importance_probabilities i)) #0 in
  let res := res / #importance_sampling_depth in
  (d_log res, sampler).

End Kernel.

(** ** The chain *)

Section ChainState.
Context {D : Type} `{Double D} `{Sampler D}.
Local Open Scope dbl_scope.

(** The members of [Chain] that [chain.cpp] reads and writes ([chain.h] is
    not part of the sources at hand; the types are those of the uses). *)
Record Chain := {
  genotyping_data : GenotypingData;
  lookup : Lookup D;
  params : Parameters D;
  sampler : rng;
  llik : D;
  llik_old : list (list D);
  llik_new : list (list D);
  m : list Z;
  p : list (list D);
  eps_pos : D;
  eps_neg : D;
  prop_p : list D;
  m_accept : list Z;
  p_accept : list Z;
  eps_pos_accept : Z;
  eps_neg_accept : Z;
  m_prop_mean : list D;
  p_prop_var : list D;
  eps_pos_var : D;
  eps_neg_var : D
}.

(** Assignment to one member. *)
Definition set_sampler (v : rng) (c : Chain) : Chain :=
  {| genotyping_data := genotyping_data c; lookup := lookup c; params :=
     params c; sampler := v; llik := llik c; llik_old := llik_old c; llik_new
     := llik_new c; m := m c; p := p c; eps_pos := eps_pos c; eps_neg :=
     eps_neg c; prop_p := prop_p c; m_accept := m_accept c; p_accept :=
     p_accept c; eps_pos_accept := eps_pos_accept c; eps_neg_accept :=
     eps_neg_accept c; m_prop_mean := m_prop_mean c; p_prop_var := p_prop_var
     c; eps_pos_var := eps_pos_var c; eps_neg_var := eps_neg_var c |}.
Definition set_llik (v : D) (c : Chain) : Chain :=
  {| genotyping_data := genotyping_data c; lookup := lookup c; params :=
     params c; sampler := sampler c; llik := v; llik_old := llik_old c;
     llik_new := llik_new c; m := m c; p := p c; eps_pos := eps_pos c; eps_neg
     := eps_neg c; prop_p := prop_p c; m_accept := m_accept c; p_accept :=
     p_accept c; eps_pos_accept := eps_pos_accept c; eps_neg_accept :=
     eps_neg_accept c; m_prop_mean := m_prop_mean c; p_prop_var := p_prop_var
     c; eps_pos_var := eps_pos_var c; eps_neg_var := eps_neg_var c |}.
Definition set_llik_old (v : list (list D)) (c : Chain) : Chain :=
  {| genotyping_data := genotyping_data c; lookup := lookup c; params :=
     params c; sampler := sampler c; llik := llik c; llik_old := v; llik_new
     := llik_new c; m := m c; p := p c; eps_pos := eps_pos c; eps_neg :=
     eps_neg c; prop_p := prop_p c; m_accept := m_accept c; p_accept :=
     p_accept c; eps_pos_accept := eps_pos_accept c; eps_neg_accept :=
     eps_neg_accept c; m_prop_mean := m_prop_mean c; p_prop_var := p_prop_var
     c; eps_pos_var := eps_pos_var c; eps_neg_var := eps_neg_var c |}.
Definition set_llik_new (v : list (list D)) (c : Chain) : Chain :=
  {| genotyping_data := genotyping_data c; lookup := lookup c; params :=
     params c; sampler := sampler c; llik := llik c; llik_old := llik_old c;
     llik_new := v; m := m c; p := p c; eps_pos := eps_pos c; eps_neg :=
     eps_neg c; prop_p := prop_p c; m_accept := m_accept c; p_accept :=
     p_accept c; eps_pos_accept := eps_pos_accept c; eps_neg_accept :=
     eps_neg_accept c; m_prop_mean := m_prop_mean c; p_prop_var := p_prop_var
     c; eps_pos_var := eps_pos_var c; eps_neg_var := eps_neg_var c |}.
Definition set_m (v : list Z) (c : Chain) : Chain :=
  {| genotyping_data := genotyping_data c; lookup := lookup c; params :=
     params c; sampler := sampler c; llik := llik c; llik_old := llik_old c;
     llik_new := llik_new c; m := v; p := p c; eps_pos := eps_pos c; eps_neg
     := eps_neg c; prop_p := prop_p c; m_accept := m_accept c; p_accept :=
     p_accept c; eps_pos_accept := eps_pos_accept c; eps_neg_accept :=
     eps_neg_accept c; m_prop_mean := m_prop_mean c; p_prop_var := p_prop_var
     c; eps_pos_var := eps_pos_var c; eps_neg_var := eps_neg_var c |}.
Definition set_p (v : list (list D)) (c : Chain) : Chain :=
  {| genotyping_data := genotyping_data c; lookup := lookup c; params :=
     params c; sampler := sampler c; llik := llik c; llik_old := llik_old c;
     llik_new := llik_new c; m := m c; p := v; eps_pos := eps_pos c; eps_neg
     := eps_neg c; prop_p := prop_p c; m_accept := m_accept c; p_accept :=
     p_accept c; eps_pos_accept := eps_pos_accept c; eps_neg_accept :=
     eps_neg_accept c; m_prop_mean := m_prop_mean c; p_prop_var := p_prop_var
     c; eps_pos_var := eps_pos_var c; eps_neg_var := eps_neg_var c |}.
Definition set_eps_pos (v : D) (c : Chain) : Chain :=
  {| genotyping_data := genotyping_data c; lookup := lookup c; params :=
     params c; sampler := sampler c; llik := llik c; llik_old := llik_old c;
     llik_new := llik_new c; m := m c; p := p c; eps_pos := v; eps_neg :=
     eps_neg c; prop_p := prop_p c; m_accept := m_accept c; p_accept :=
     p_accept c; eps_pos_accept := eps_pos_accept c; eps_neg_accept :=
     eps_neg_accept c; m_prop_mean := m_prop_mean c; p_prop_var := p_prop_var
     c; eps_pos_var := eps_pos_var c; eps_neg_var := eps_neg_var c |}.
Definition set_eps_neg (v : D) (c : Chain) : Chain :=
  {| genotyping_data := genotyping_data c; lookup := lookup c; params :=
     params c; sampler := sampler c; llik := llik c; llik_old := llik_old c;
     llik_new := llik_new c; m := m c; p := p c; eps_pos := eps_pos c; eps_neg
     := v; prop_p := prop_p c; m_accept := m_accept c; p_accept := p_accept c;
     eps_pos_accept := eps_pos_accept c; eps_neg_accept := eps_neg_accept c;
     m_prop_mean := m_prop_mean c; p_prop_var := p_prop_var c; eps_pos_var :=
     eps_pos_var c; eps_neg_var := eps_neg_var c |}.
Definition set_prop_p (v : list D) (c : Chain) : Chain :=
  {| genotyping_data := genotyping_data c; lookup := lookup c; params :=
     params c; sampler := sampler c; llik := llik c; llik_old := llik_old c;
     llik_new := llik_new c; m := m c; p := p c; eps_pos := eps_pos c; eps_neg
     := eps_neg c; prop_p := v; m_accept := m_accept c; p_accept := p_accept
     c; eps_pos_accept := eps_pos_accept c; eps_neg_accept := eps_neg_accept
     c; m_prop_mean := m_prop_mean c; p_prop_var := p_prop_var c; eps_pos_var
     := eps_pos_var c; eps_neg_var := eps_neg_var c |}.
Definition set_m_accept (v : list Z) (c : Chain) : Chain :=
  {| genotyping_data := genotyping_data c; lookup := lookup c; params :=
     params c; sampler := sampler c; llik := llik c; llik_old := llik_old c;
     llik_new := llik_new c; m := m c; p := p c; eps_pos := eps_pos c; eps_neg
     := eps_neg c; prop_p := prop_p c; m_accept := v; p_accept := p_accept c;
     eps_pos_accept := eps_pos_accept c; eps_neg_accept := eps_neg_accept c;
     m_prop_mean := m_prop_mean c; p_prop_var := p_prop_var c; eps_pos_var :=
     eps_pos_var c; eps_neg_var := eps_neg_var c |}.
Definition set_p_accept (v : list Z) (c : Chain) : Chain :=
  {| genotyping_data := genotyping_data c; lookup := lookup c; params :=
     params c; sampler := sampler c; llik := llik c; llik_old := llik_old c;
     llik_new := llik_new c; m := m c; p := p c; eps_pos := eps_pos c; eps_neg
     := eps_neg c; prop_p := prop_p c; m_accept := m_accept c; p_accept := v;
     eps_pos_accept := eps_pos_accept c; eps_neg_accept := eps_neg_accept c;
     m_prop_mean := m_prop_mean c; p_prop_var := p_prop_var c; eps_pos_var :=
     eps_pos_var c; eps_neg_var := eps_neg_var c |}.
Definition set_eps_pos_accept (v : Z) (c : Chain) : Chain :=
  {| genotyping_data := genotyping_data c; lookup := lookup c; params :=
     params c; sampler := sampler c; llik := llik c; llik_old := llik_old c;
     llik_new := llik_new c; m := m c; p := p c; eps_pos := eps_pos c; eps_neg
     := eps_neg c; prop_p := prop_p c; m_accept := m_accept c; p_accept :=
     p_accept c; eps_pos_accept := v; eps_neg_accept := eps_neg_accept c;
     m_prop_mean := m_prop_mean c; p_prop_var := p_prop_var c; eps_pos_var :=
     eps_pos_var c; eps_neg_var := eps_neg_var c |}.
Definition set_eps_neg_accept (v : Z) (c : Chain) : Chain :=
  {| genotyping_data := genotyping_data c; lookup := lookup c; params :=
     params c; sampler := sampler c; llik := llik c; llik_old := llik_old c;
     llik_new := llik_new c; m := m c; p := p c; eps_pos := eps_pos c; eps_neg
     := eps_neg c; prop_p := prop_p c; m_accept := m_accept c; p_accept :=
     p_accept c; eps_pos_accept := eps_pos_accept c; eps_neg_accept := v;
     m_prop_mean := m_prop_mean c; p_prop_var := p_prop_var c; eps_pos_var :=
     eps_pos_var c; eps_neg_var := eps_neg_var c |}.
Definition set_m_prop_mean (v : list D) (c : Chain) : Chain :=
  {| genotyping_data := genotyping_data c; lookup := lookup c; params :=
     params c; sampler := sampler c; llik := llik c; llik_old := llik_old c;
     llik_new := llik_new c; m := m c; p := p c; eps_pos := eps_pos c; eps_neg
     := eps_neg c; prop_p := prop_p c; m_accept := m_accept c; p_accept :=
     p_accept c; eps_pos_accept := eps_pos_accept c; eps_neg_accept :=
     eps_neg_accept c; m_prop_mean := v; p_prop_var := p_prop_var c;
     eps_pos_var := eps_pos_var c; eps_neg_var := eps_neg_var c |}.
Definition set_p_prop_var (v : list D) (c : Chain) : Chain :=
  {| genotyping_data := genotyping_data c; lookup := lookup c; params :=
     params c; sampler := sampler c; llik := llik c; llik_old := llik_old c;
     llik_new := llik_new c; m := m c; p := p c; eps_pos := eps_pos c; eps_neg
     := eps_neg c; prop_p := prop_p c; m_accept := m_accept c; p_accept :=
     p_accept c; eps_pos_accept := eps_pos_accept c; eps_neg_accept :=
     eps_neg_accept c; m_prop_mean := m_prop_mean c; p_prop_var := v;
     eps_pos_var := eps_pos_var c; eps_neg_var := eps_neg_var c |}.
Definition set_eps_pos_var (v : D) (c : Chain) : Chain :=
  {| genotyping_data := genotyping_data c; lookup := lookup c; params :=
     params c; sampler := sampler c; llik := llik c; llik_old := llik_old c;
     llik_new := llik_new c; m := m c; p := p c; eps_pos := eps_pos c; eps_neg
     := eps_neg c; prop_p := prop_p c; m_accept := m_accept c; p_accept :=
     p_accept c; eps_pos_accept := eps_pos_accept c; eps_neg_accept :=
     eps_neg_accept c; m_prop_mean := m_prop_mean c; p_prop_var := p_prop_var
     c; eps_pos_var := v; eps_neg_var := eps_neg_var c |}.
Definition set_eps_neg_var (v : D) (c : Chain) : Chain :=
  {| genotyping_data := genotyping_data c; lookup := lookup c; params :=
     params c; sampler := sampler c; llik := llik c; llik_old := llik_old c;
     llik_new := llik_new c; m := m c; p := p c; eps_pos := eps_pos c; eps_neg
     := eps_neg c; prop_p := prop_p c; m_accept := m_accept c; p_accept :=
     p_accept c; eps_pos_accept := eps_pos_accept c; eps_neg_accept :=
     eps_neg_accept c; m_prop_mean := m_prop_mean c; p_prop_var := p_prop_var
     c; eps_pos_var := eps_pos_var c; eps_neg_var := v |}.

(** *** Construction *)

(** [Chain::initialize_p].  [total_locus_alleles] and [total_alleles] are
    constructed with [num_loci] entries (empty vectors, zeros) and are then
    also pushed to; the cells the loops use are those at index [i]. *)
Definition initialize_p (c : Chain) : Chain :=
  let gd := genotyping_data c in
  let c := set_p_accept (resize (num_loci gd) 0%Z (p_accept c)) c in
  let total_locus_alleles : list (list Z) := replicate (num_loci gd) [] in
  let total_alleles : list Z := replicate (num_loci gd) 0%Z in
  let '(_, _, c) :=
    for_loop (num_loci gd) (fun i '(total_locus_alleles, total_alleles, c) =>
      let n_i := Z.to_nat (nth i (num_alleles gd) 0%Z) in
      let total_locus_alleles := total_locus_alleles ++ [replicate n_i 0%Z] in
      let total_alleles := total_alleles ++ [0%Z] in
      let c := set_p (p c ++ [replicate n_i #0]) c in
      let obs_locus_genotypes := nth i (observed_alleles gd) [] in
      let '(total_locus_alleles, total_alleles) :=
        for_loop (length obs_locus_genotypes) (fun j acc =>
          let sample_genotype := nth j obs_locus_genotypes [] in
          for_loop (length sample_genotype) (fun k '(tla, ta) =>
            let tla := if (j =? 0)%nat
                       then <[i := nth i tla [] ++ [0%Z]]> tla else tla in
            let tla := mset tla i k (mget 0%Z tla i k + nth k sample_genotype 0)%Z in
            let ta := <[i := (nth i ta 0 + nth k sample_genotype 0)%Z]> ta in
            (tla, ta)) acc)
          (total_locus_alleles, total_alleles) in
      let c :=
        for_loop n_i (fun j c =>
          set_p (mset (p c) i j (#(mget 0%Z total_locus_alleles i j)
                                 / #(nth i total_alleles 0%Z))) c) c in
      (total_locus_alleles, total_alleles, c))
      (total_locus_alleles, total_alleles, c) in
  c.

(** [Chain::initialize_m] *)
Definition initialize_m (c : Chain) : Chain :=
  let gd := genotyping_data c in
  let c := set_m (observed_coi gd) c in
  set_m_accept (resize (num_samples gd) 0%Z (m_accept c)) c.

(** [Chain::initialize_eps_neg] *)
Definition initialize_eps_neg (c : Chain) : Chain :=
  set_eps_neg_accept 0 (set_eps_neg (eps_neg_0 (params c)) c).

(** [Chain::initialize_eps_pos] *)
Definition initialize_eps_pos (c : Chain) : Chain :=
  set_eps_pos_accept 0 (set_eps_pos (eps_pos_0 (params c)) c).

(** One call of the kernel by a block: the estimate for cell (j, i) at the
    given COI, frequencies and rates goes to [llik_new[j][i]]. *)
Definition refresh_llik_new (j i : nat) (coi : Z) (freq : list D)
    (epsilon_neg epsilon_pos : D) (c : Chain) : Chain :=
  let '(l, s) :=
    calc_genotype_marginal_llik (params c) (lookup c)
      (nth i (nth j (observed_alleles (genotyping_data c)) []) [])
      coi freq epsilon_neg epsilon_pos (sampler c) in
  set_llik_new (mset (llik_new c) j i l) (set_sampler s c).

(** [Chain::initialize_likelihood] (the printing is left out). *)
Definition initialize_likelihood (c : Chain) : Chain :=
  let gd := genotyping_data c in
  for_loop (num_loci gd) (fun j c =>
    let c := set_llik_old (llik_old c ++ [replicate (num_samples gd) #0]) c in
    let c := set_llik_new (llik_new c ++ [replicate (num_samples gd) #0]) c in
    for_loop (num_samples gd) (fun i c =>
      let '(marginal_llik, s) :=
        calc_genotype_marginal_llik (params c) (lookup c)
          (nth i (nth j (observed_alleles gd) []) [])
          (nth i (m c) 0%Z) (nth j (p c) []) (eps_neg c) (eps_pos c) (sampler c) in
      let c := set_sampler s c in
      let c := set_llik_old (mset (llik_old c) j i marginal_llik) c in
      set_llik_new (mset (llik_new c) j i marginal_llik) c) c) c.

(** [Chain::Chain]: the members start empty (vectors) or are assigned before
    they are first read (scalars, written [#0] here until then). *)
Definition Chain_new (genotyping_data : GenotypingData) (lookup : Lookup D)
    (params : Parameters D) : Chain :=
  let c := {|
    genotyping_data := genotyping_data; lookup := lookup; params := params;
    sampler := sampler_new (importance_sampling_depth params)
                           (num_alleles genotyping_data);
    llik := #0; llik_old := []; llik_new := []; m := []; p := [];
    eps_pos := #0; eps_neg := #0; prop_p := [];
    m_accept := []; p_accept := []; eps_pos_accept := 0; eps_neg_accept := 0;
    m_prop_mean := replicate (num_samples genotyping_data) #1;
    p_prop_var := replicate (num_loci genotyping_data) #1;
    eps_pos_var := lit_0_05; eps_neg_var := lit_0_05 |} in
  let c := initialize_p c in
  let c := initialize_m c in
  let c := initialize_eps_neg c in
  let c := initialize_eps_pos c in
  initialize_likelihood c.

(** *** The Metropolis-Hastings blocks *)

(** The body of the loop of [Chain::update_m], for sample [i]. *)
Definition update_m_sample (iteration : Z) (i : nat) (c : Chain) : Chain :=
  let gd := genotyping_data c in
  let '(delta, s) := sample_coi_delta (nth i (m_prop_mean c) #0) (sampler c) in
  let c := set_sampler s c in
  let prop_m := (delta + nth i (m c) 0)%Z in
  if (prop_m =? nth i (m c) 0)%Z then
    let c := set_m_prop_mean
               (<[i := nth i (m_prop_mean c) #0
                       + (#1 - lit_0_23) / d_sqrt #iteration]> (m_prop_mean c)) c in
    set_m_accept (<[i := (nth i (m_accept c) 0 + 1)%Z]> (m_accept c)) c
  else if (max_coi (params c) >=? prop_m)%Z && (prop_m >? 0)%Z then
    let '(c, sum_can, sum_orig) :=
      for_loop (num_loci gd) (fun j '(c, sum_can, sum_orig) =>
        let c := refresh_llik_new j i prop_m (nth j (p c) []) (eps_neg c) (eps_pos c) c in
        (c, sum_can + mget #0 (llik_new c) j i, sum_orig + mget #0 (llik_old c) j i))
        (c, #0, #0) in
    let '(u, s) := sample_log_mh_acceptance (sampler c) in
    let c := set_sampler s c in
    if u <=? (sum_can - sum_orig) then
      let c := set_m (<[i := prop_m]> (m c)) c in
      let c := set_m_prop_mean
                 (<[i := nth i (m_prop_mean c) #0
                         + (#1 - lit_0_23) / d_sqrt #iteration]> (m_prop_mean c)) c in
      let c := set_m_accept (<[i := (nth i (m_accept c) 0 + 1)%Z]> (m_accept c)) c in
      for_loop (num_loci gd) (fun j c =>
        set_llik_old (mset (llik_old c) j i (mget #0 (llik_new c) j i)) c) c
    else
      let c := set_m_prop_mean
                 (<[i := nth i (m_prop_mean c) #0
                         - lit_0_23 / d_sqrt #iteration]> (m_prop_mean c)) c in
      set_m_prop_mean
        (<[i := if nth i (m_prop_mean c) #0 <? #0 then #0
                else nth i (m_prop_mean c) #0]> (m_prop_mean c)) c
  else c.

(** [Chain::update_m] *)
Definition update_m (iteration : Z) (c : Chain) : Chain :=
  for_loop (num_samples (genotyping_data c)) (update_m_sample iteration) c.

(** The body of the loop of [Chain::update_p], for locus [j]. *)
Definition update_p_locus (iteration : Z) (j : nat) (c : Chain) : Chain :=
  let gd := genotyping_data c in
  let '(prop, s) :=
    sample_allele_frequencies (nth j (p c) []) (nth j (p_prop_var c) #0) (sampler c) in
  let c := set_prop_p prop (set_sampler s c) in
  let '(c, sum_can, sum_orig) :=
    for_loop (num_samples gd) (fun i '(c, sum_can, sum_orig) =>
      let c := refresh_llik_new j i (nth i (m c) 0%Z) (prop_p c) (eps_neg c) (eps_pos c) c in
      (c, sum_can + mget #0 (llik_new c) j i, sum_orig + mget #0 (llik_old c) j i))
      (c, #0, #0) in
  let '(u, s) := sample_log_mh_acceptance (sampler c) in
  let c := set_sampler s c in
  if u <=? (sum_can - sum_orig) then
    let c := set_p (<[j := prop_p c]> (p c)) c in
    let c := set_p_accept (<[j := (nth j (p_accept c) 0 + 1)%Z]> (p_accept c)) c in
    let c := set_p_prop_var
               (<[j := d_exp (d_log (nth j (p_prop_var c) #0)
                              + (#1 - lit_0_23) / d_sqrt #iteration)]>
                  (p_prop_var c)) c in
    for_loop (num_samples gd) (fun i c =>
      set_llik_old (mset (llik_old c) j i (mget #0 (llik_new c) j i)) c) c
  else
    set_p_prop_var
      (<[j := d_exp (d_log (nth j (p_prop_var c) #0)
                     - lit_0_23 / d_sqrt #iteration)]> (p_prop_var c)) c.

(** [Chain::update_p] *)
Definition update_p (iteration : Z) (c : Chain) : Chain :=
  for_loop (num_loci (genotyping_data c)) (update_p_locus iteration) c.

(** The two nested loops the epsilon blocks share: every cell of [llik_new]
    is recomputed at the given rates, and both caches are summed. *)
Definition refresh_all (epsilon_neg epsilon_pos : D) (c : Chain) : Chain * D * D :=
  let gd := genotyping_data c in
  for_loop (num_loci gd) (fun j acc =>
    for_loop (num_samples gd) (fun i '(c, sum_can, sum_orig) =>
      let c := refresh_llik_new j i (nth i (m c) 0%Z) (nth j (p c) [])
                 epsilon_neg epsilon_pos c in
      (c, sum_can + mget #0 (llik_new c) j i, sum_orig + mget #0 (llik_old c) j i))
      acc) (c, #0, #0).

(** The copy of [llik_new] into [llik_old], cell by cell. *)
Definition commit_all (c : Chain) : Chain :=
  let gd := genotyping_data c in
  for_loop (num_loci gd) (fun j c =>
    for_loop (num_samples gd) (fun i c =>
      set_llik_old (mset (llik_old c) j i (mget #0 (llik_new c) j i)) c) c) c.

(** [Chain::update_eps_pos] (the printing is left out). *)
Definition update_eps_pos (iteration : Z) (c : Chain) : Chain :=
  let '(prop_eps_pos, s) := sample_epsilon_pos (eps_pos c) (eps_pos_var c) (sampler c) in
  let c := set_sampler s c in
  if (prop_eps_pos <? max_eps_pos (params c)) && (#0 <? prop_eps_pos) then
    let '(c, sum_can, sum_orig) := refresh_all (eps_neg c) prop_eps_pos c in
    let '(u, s) := sample_log_mh_acceptance (sampler c) in
    let c := set_sampler s c in
    if u <=? (sum_can - sum_orig) then
      let c := set_eps_pos prop_eps_pos c in
      let c := set_eps_pos_var (eps_pos_var c + (#1 - lit_0_23) / d_sqrt #iteration) c in
      let c := set_eps_pos_accept (eps_pos_accept c + 1)%Z c in
      commit_all c
    else
      let c := set_eps_pos_var (eps_pos_var c - lit_0_23 / d_sqrt #iteration) c in
      if eps_pos_var c <? UNDERFLO then set_eps_pos_var UNDERFLO c else c
  else c.

(** [Chain::update_eps_neg] (the printing is left out). *)
Definition update_eps_neg (iteration : Z) (c : Chain) : Chain :=
  let '(prop_eps_neg, s) := sample_epsilon_neg (eps_neg c) (eps_neg_var c) (sampler c) in
  let c := set_sampler s c in
  if (prop_eps_neg <? max_eps_neg (params c)) && (#0 <? prop_eps_neg) then
    let '(c, sum_can, sum_orig) := refresh_all prop_eps_neg (eps_pos c) c in
    let '(u, s) := sample_log_mh_acceptance (sampler c) in
    let c := set_sampler s c in
    if u <=? (sum_can - sum_orig) then
      let c := set_eps_neg prop_eps_neg c in
      let c := set_eps_neg_var (eps_neg_var c + (#1 - lit_0_23) / d_sqrt #iteration) c in
      let c := set_eps_neg_accept (eps_neg_accept c + 1)%Z c in
      commit_all c
    else
      let c := set_eps_neg_var (eps_neg_var c - lit_0_23 / d_sqrt #iteration) c in
      if eps_neg_var c <? UNDERFLO then set_eps_neg_var UNDERFLO c else c
  else c.

(** *** The accessor *)

(** [Chain::calculate_llik] *)
Definition calculate_llik (c : Chain) : Chain :=
  let gd := genotyping_data c in
  let c := set_llik #0 c in
  for_loop (num_loci gd) (fun j c =>
    for_loop (num_samples gd) (fun i c =>
      set_llik (llik c + mget #0 (llik_old c) j i) c) c) c.

(** [Chain::get_llik]: the value returned and the chain afterwards. *)
Definition get_llik (c : Chain) : D * Chain :=
  let c := calculate_llik c in
  (llik c, c).

End ChainState.

(** ** Exact arithmetic *)

Definition Rltb (a b : R) : bool := if Rlt_dec a b then true else false.
Definition Rleb (a b : R) : bool := if Rle_dec a b then true else false.

(** [double] read as the real numbers: no rounding, no overflow; [log] is
    the natural logarithm. *)
#[export] Instance R_Double : Double R := {|
  d_add := Rplus;
  d_sub := Rminus;
  d_mul := Rmult;
  d_div := Rdiv;
  d_ltb := Rltb;
  d_leb := Rleb;
  d_of_int := IZR;
  d_exp := exp;
  d_log := ln;
  d_sqrt := sqrt;
  lit_1e_6 := 1e-6%R;
  lit_1e_12 := 1e-12%R;
  lit_0_23 := 0.23%R;
  lit_0_05 := 0.05%R;
  UNDERFLO := 1e-100%R
|}.

(** Unfold the interface at the instance [R_Double]. *)
Ltac exact_arith :=
  cbn [d_add d_sub d_mul d_div d_ltb d_leb d_of_int d_exp d_log d_sqrt
       lit_1e_6 lit_1e_12 lit_0_23 lit_0_05 UNDERFLO R_Double] in *.

(** ** IEEE-754 binary64 *)

Module Binary64.
Import Floats.
Local Open Scope float_scope.
Set Warnings "-inexact-float".

(** [int] to [double]: exact for every 32-bit value. *)
Definition of_int (z : Z) : float :=
  match z with
  | Z0 => 0
  | Zpos _ => of_uint63 (Uint63.of_Z z)
  | Zneg q => - of_uint63 (Uint63.of_Z (Zpos q))
  end.

(** The integer value of a float that holds one. *)
Definition to_Z (f : float) : Z :=
  match Prim2SF f with
  | S754_finite s m e =>
      let v := if (0 <=? e)%Z then (Zpos m * 2 ^ e)%Z else (Zpos m / 2 ^ (- e))%Z in
      if s then (- v)%Z else v
  | _ => 0%Z
  end.

(** *** A model of [exp] and [log]

    [<cmath>] is outside the repository.  Its [exp] and [log] are modelled
    by the textbook algorithms (argument reduction by powers of two, then a
    truncated series), which agree with a C library to within a few units in
    the last place.  What is proved below rests on their behaviour at the
    ends of the range only, which the C standard (Annex F) and IEEE 754 fix:
    [exp x] is +0 once e^x is below half the least subnormal
    (x < -745.13...), and [log (+0)] is -infinity. *)

Definition horner (coeffs : list float) (x : float) : float :=
  fold_right (fun a acc => a + x * acc) 0 coeffs.

Definition ln2_hi : float := 0x1.62e42fee00000p-1.
Definition ln2_lo : float := 0x1.a39ef35793c76p-33.
Definition inv_ln2 : float := 0x1.71547652b82fep+0.

Definition exp_coeffs : list float :=
  [1; 1; 1/2; 1/6; 1/24; 1/120; 1/720; 1/5040; 1/40320; 1/362880; 1/3628800;
   1/39916800; 1/479001600; 1/6227020800].

Definition exp (x : float) : float :=
  if is_nan x then nan
  else if 709.782712893384 <? x then infinity
  else if x <? -745.1332191019412 then 0
  else
    let k := (x * inv_ln2 + 0x1.8p52) - 0x1.8p52 in
    let r := (x - k * ln2_hi) - k * ln2_lo in
    Z.ldexp (horner exp_coeffs r) (to_Z k).

Definition log_coeffs : list float :=
  [1; 1/3; 1/5; 1/7; 1/9; 1/11; 1/13; 1/15; 1/17; 1/19; 1/21; 1/23].

Definition log (x : float) : float :=
  if is_nan x then nan
  else if x <? 0 then nan
  else if x =? 0 then neg_infinity
  else if x =? infinity then infinity
  else
    let '(m, e) := Z.frexp x in
    let '(m, e) := if m <? 0x1.6a09e667f3bcdp-1 then (2 * m, (e - 1)%Z) else (m, e) in
    let f := m - 1 in
    let s := f / (2 + f) in
    let l := 2 * s * horner log_coeffs (s * s) in
    of_int e * ln2_hi + (of_int e * ln2_lo + l).

(** [double] read as binary64, round to nearest even. *)
#[export] Instance F64_Double : Double float := {|
  d_add := PrimFloat.add;
  d_sub := PrimFloat.sub;
  d_mul := PrimFloat.mul;
  d_div := PrimFloat.div;
  d_ltb := PrimFloat.ltb;
  d_leb := PrimFloat.leb;
  d_of_int := of_int;
  d_exp := exp;
  d_log := log;
  d_sqrt := PrimFloat.sqrt;
  lit_1e_6 := 1e-6;
  lit_1e_12 := 1e-12;
  lit_0_23 := 0.23;
  lit_0_05 := 0.05;
  UNDERFLO := 1e-100
|}.

(** [x] is neither an infinity nor a NaN. *)
Definition finite (x : float) : bool := negb (is_nan x || is_infinity x).

(** The sum of a row, accumulated from the left. *)
Definition row_sum (row : list float) : float := fold_left PrimFloat.add row 0.

(** Invariant 1 of the data model on one row of [p]: the entries sum to 1
    within 1e-9 and none is negative. *)
Definition is_simplex (row : list float) : bool :=
  (abs (row_sum row - 1) <=? 1e-9) && forallb (fun x => 0 <=? x) row.

End Binary64.

(** * The notions the statements use *)

(** ** Terms of the kernel's loops *)

Section KernelTerms.
Context {D : Type} `{Double D}.
Local Open Scope dbl_scope.

(** One allele's contribution to the observation log-likelihood, as the
    four branches of [calc_obs_genotype_lliks] add it. *)
Definition obs_term (epsilon_neg epsilon_pos : D) (o g : Z) : D :=
  if negb (o =? 0)%Z then
    if negb (g =? 0)%Z then #g * d_log (#1 - epsilon_neg)
    else d_log epsilon_pos
  else
    if negb (g =? 0)%Z then #g * d_log epsilon_neg
    else d_log (#1 - epsilon_pos).

(** One allele's contribution to a multinomial log-pmf, as the guarded
    update of [calc_genotype_log_pmf] adds it. *)
Definition pmf_step (lookup : Lookup D) (g : Z) (freq : D) (acc : D) : D :=
  if (g >? 0)%Z
  then acc + ((#g * d_log (freq + lit_1e_12))
              - nth (Z.to_nat (g + 1)) (lookup_lgamma lookup) #0)
  else acc.

(** The unnormalised proposal weight of allele [i]. *)
Definition reweight_raw (af : list D) (obs : list Z) (en ep : D) (i : nat) : D :=
  let o := nth i obs 0%Z in
  nth i af #0 * ((#o * (#1 - en)) + (#(1 - o) * en)) + ep + lit_1e_6.

(** The log weight of draw [d], from the three vectors
    [calc_genotype_marginal_llik] computes. *)
Definition log_weight (lookup : Lookup D) (obs : list Z) (coi : Z)
    (freq q : list D) (en ep : D) (gs : list (list Z)) (depth : Z) (d : nat) : D :=
  nth d (calc_obs_genotype_lliks obs gs en ep depth) #0
  + nth d (calc_genotype_log_pmf lookup gs coi freq depth) #0
  - nth d (calc_genotype_log_pmf lookup gs coi q depth) #0.

(** The importance-sampling depth of a call. *)
Definition depth_of (params : Parameters D) (lookup : Lookup D) (coi : Z)
    (freq : list D) : Z :=
  Z.min (importance_sampling_depth params)
        (mget 0%Z (lookup_sampling_depth lookup) (Z.to_nat coi) (length freq)).

End KernelTerms.

(** ** The formulas of the specification, in exact arithmetic *)

Section SpecFormulas.
Local Open Scope R_scope.

Definition Rsum (l : list R) : R := fold_right Rplus 0 l.

(** [sum_over n f] is the sum of [f a] over [a < n]. *)
Definition sum_over (n : nat) (f : nat -> R) : R := Rsum (map f (seq 0 n)).

(** The emission table of the specification, one allele: observed call [o],
    latent count [g]. *)
Definition emission (eps_neg eps_pos : R) (o g : Z) : R :=
  if (o =? 1)%Z then
    if (0 <? g)%Z then IZR g * ln (1 - eps_neg) else ln eps_pos
  else
    if (0 <? g)%Z then IZR g * ln eps_neg else ln (1 - eps_pos).

(** log P(obs | g): the emission terms summed over the alleles. *)
Definition obs_llik (eps_neg eps_pos : R) (obs g : list Z) : R :=
  sum_over (length g) (fun a => emission eps_neg eps_pos (nth a obs 0%Z) (nth a g 0%Z)).

(** The multinomial log-pmf of the specification, with the table [lgamma]
    for ln Gamma. *)
Definition multinomial_log_pmf (lgamma : Z -> R) (coi : Z) (g : list Z) (freq : list R) : R :=
  lgamma (coi + 1)%Z
  - sum_over (length freq) (fun a => lgamma (nth a g 0%Z + 1)%Z)
  + sum_over (length freq) (fun a => IZR (nth a g 0%Z) * ln (nth a freq 0 + 1e-12)).

(** The table of a [Lookup] as a function of the index. *)
Definition lgamma_of (lookup : Lookup R) (k : Z) : R :=
  nth (Z.to_nat k) (lookup_lgamma lookup) 0.

Definition is_call (o : Z) : Prop := o = 0%Z \/ o = 1%Z.

(** The log-sum-exp form: the largest log weight is taken out before
    exponentiating. *)
Definition Rmax_list (l : list R) : R := fold_right Rmax (hd 0 l) l.

Definition log_sum_exp (ws : list R) : R :=
  let M := Rmax_list ws in
  M + ln (Rsum (map (fun w => exp (w - M)) ws)).

End SpecFormulas.

Section EstimatorInputs.
Context `{Sampler R}.

(** The draws the sampler supplies to a call of the kernel. *)
Definition draws_of (params : Parameters R) (lookup : Lookup R)
    (obs : list Z) (coi : Z) (freq : list R) (en ep : R) (s : rng) : list (list Z) :=
  fst (sample_genotype coi (reweight_allele_frequencies freq obs en ep)
                       (depth_of params lookup coi freq) s).

(** The sampler has supplied at least [depth] count vectors, each with one
    non-negative count per allele. *)
Definition draws_well_formed (depth : Z) (alleles : nat) (gs : list (list Z)) : Prop :=
  (Z.to_nat depth <= length gs)%nat /\
  forall d, (d < Z.to_nat depth)%nat ->
    length (nth d gs []) = alleles /\ Forall (fun g => (0 <= g)%Z) (nth d gs []).

End EstimatorInputs.

(** ** What a loop of a block may write *)

Section ChainNotions.
Context {D : Type} `{Double D} `{Sampler D}.
Local Open Scope dbl_scope.

(** [c'] differs from [c] at most in [llik_new] and the sampler. *)
Definition scratch_of (c c' : Chain) : Prop :=
  exists ln s, c' = set_llik_new ln (set_sampler s c).

(** [c'] differs from [c] at most in [llik_old]. *)
Definition committed_of (c c' : Chain) : Prop :=
  exists lo, c' = set_llik_old lo c.

(** The proposal the block makes for sample [k]. *)
Definition proposed_coi (k : nat) (c : Chain) : Z :=
  (fst (sample_coi_delta (nth k (m_prop_mean c) #0) (sampler c)) + nth k (m c) 0)%Z.

(** The counting loops of [initialize_p] for locus [i], on their own. *)
Definition count_alleles (i : nat) (obs_locus_genotypes : list (list Z))
    (acc : list (list Z) * list Z) : list (list Z) * list Z :=
  for_loop (length obs_locus_genotypes) (fun j acc =>
    let sample_genotype := nth j obs_locus_genotypes [] in
    for_loop (length sample_genotype) (fun k '(tla, ta) =>
      let tla := if (j =? 0)%nat
                 then <[i := nth i tla [] ++ [0%Z]]> tla else tla in
      let tla := mset tla i k (mget 0%Z tla i k + nth k sample_genotype 0)%Z in
      let ta := <[i := (nth i ta 0 + nth k sample_genotype 0)%Z]> ta in
      (tla, ta)) acc) acc.

Definition all_zero (v : list Z) : Prop := Forall (fun x => x = 0%Z) v.

End ChainNotions.

(** ** The variances *)

Section VarianceInvariants.
Context `{Sampler R}.
Local Open Scope R_scope.

(** The floor the specification states for all three kinds of variance. *)
Definition variances_floored (c : Chain) : Prop :=
  Forall (fun v => UNDERFLO <= v) (p_prop_var c)
  /\ UNDERFLO <= eps_pos_var c /\ UNDERFLO <= eps_neg_var c.

(** What the code keeps: the two epsilon variances stay at or above
    [UNDERFLO]; the allele-frequency scales stay positive. *)
Definition eps_vars_floored (c : Chain) : Prop :=
  UNDERFLO <= eps_pos_var c /\ UNDERFLO <= eps_neg_var c.

Definition p_vars_positive (c : Chain) : Prop :=
  Forall (fun v => 0 < v) (p_prop_var c).

End VarianceInvariants.

(** ** Counts, shapes and totals *)

Section MoreNotions.
Context {D : Type} `{Double D}.
Local Open Scope dbl_scope.

Definition Zsum (l : list Z) : Z := fold_right Z.add 0%Z l.

(** How often allele [a] was called among the samples of a locus, and the
    number of calls at the locus. *)
Definition allele_count (samples : list (list Z)) (a : nat) : Z :=
  Zsum (map (fun g => nth a g 0%Z) samples).

Definition allele_total (samples : list (list Z)) : Z :=
  Zsum (map Zsum samples).

(** The largest [int]. *)
Definition INT_MAX : Z := 2147483647.

(** The calls of a locus can be counted on [int]: no entry is negative and
    the entries add up to at most [INT_MAX], so that neither a count per
    allele nor the total of the locus leaves the range of [int] at any point
    of the counting loops. *)
Definition countable_on_int (samples : list (list Z)) : Prop :=
  Forall (Forall (fun x => (0 <= x)%Z)) samples /\
  (allele_total samples <= INT_MAX)%Z.

(** The body of the innermost counting loop of [initialize_p]: allele [k]
    of sample [j] (the vector [g]) of locus [i]. *)
Definition count_step (i j : nat) (g : list Z) (k : nat)
    (acc : list (list Z) * list Z) : list (list Z) * list Z :=
  let '(tla, ta) := acc in
  let tla := if (j =? 0)%nat
             then <[i := nth i tla [] ++ [0%Z]]> tla else tla in
  let tla := mset tla i k (mget 0%Z tla i k + nth k g 0)%Z in
  let ta := <[i := (nth i ta 0 + nth k g 0)%Z]> ta in
  (tla, ta).

(** The empirical frequencies of a locus with [alleles] alleles. *)
Definition empirical_frequencies (samples : list (list Z)) (alleles : nat) : list D :=
  map (fun a => #(allele_count samples a) / #(allele_total samples)) (seq 0 alleles).

(** The sums the blocks form over a cache: a column ([update_m]), a row
    ([update_p]), all of it (the epsilon blocks and [calculate_llik]). *)
Definition column_total (cache : list (list D)) (loci i : nat) : D :=
  for_loop loci (fun j acc => acc + mget #0 cache j i) #0.

Definition row_total (cache : list (list D)) (samples j : nat) : D :=
  for_loop samples (fun i acc => acc + mget #0 cache j i) #0.

Definition cache_total (cache : list (list D)) (loci samples : nat) : D :=
  for_loop loci (fun j acc =>
    for_loop samples (fun i acc => acc + mget #0 cache j i) acc) #0.

End MoreNotions.

(** ** Cells of the two caches *)

Section CacheNotions.
Context {A : Type}.

(** Two vectors of vectors with the same number of rows and, row by row, of
    cells. *)
Definition same_shape (v v' : list (list A)) : Prop :=
  length v' = length v /\ forall j, length (nth j v' []) = length (nth j v []).

Definition has_shape (rows cells : nat) (v : list (list A)) : Prop :=
  length v = rows /\ forall j, (j < rows)%nat -> length (nth j v []) = cells.

(** Cell (j, i) exists in [v]. *)
Definition in_range (v : list (list A)) (j i : nat) : Prop :=
  (j < length v)%nat /\ (i < length (nth j v []))%nat.

(** [v'] has the shape of [v] and its cells outside [S]. *)
Definition cells_off (d : A) (S : nat -> nat -> Prop) (v v' : list (list A)) : Prop :=
  same_shape v v' /\ forall j i, ~ S j i -> mget d v' j i = mget d v j i.

(** On the cells of [S] that exist, [v] holds what [w] holds. *)
Definition cells_synced (d : A) (S : nat -> nat -> Prop) (v w : list (list A)) : Prop :=
  forall j i, S j i -> in_range v j i -> mget d v j i = mget d w j i.

(** The cells a block's loops run over: a column for [update_m], a row for
    [update_p], everything for the epsilon blocks. *)
Definition coi_cells (loci i : nat) : nat -> nat -> Prop :=
  fun j' i' => i' = i /\ (j' < loci)%nat.
Definition locus_cells (samples j : nat) : nat -> nat -> Prop :=
  fun j' i' => j' = j /\ (i' < samples)%nat.
Definition all_cells (loci samples : nat) : nat -> nat -> Prop :=
  fun j' i' => (j' < loci)%nat /\ (i' < samples)%nat.

End CacheNotions.

(** ** What a block leaves behind *)

Section BlockNotions.
Context {D : Type} `{Double D} `{Sampler D}.
Local Open Scope dbl_scope.

(** The Metropolis-Hastings test passes for some draw [u] and some sum over
    the candidate values, against the sum [orig] over [llik_old]. *)
Definition accepted_against (orig : D) : Prop :=
  exists u sum_can, (u <=? sum_can - orig) = true.

(** The two steps of the COI scale, and of the other scales. *)
Definition step_up (iteration : Z) : D := (#1 - lit_0_23) / d_sqrt #iteration.
Definition step_down (iteration : Z) : D := lit_0_23 / d_sqrt #iteration.

(** The observed genotype of sample [i] at locus [j]. *)
Definition observed_at (c : Chain) (j i : nat) : list Z :=
  nth i (nth j (observed_alleles (genotyping_data c)) []) [].

(** [x] is what the kernel returns for cell (j, i) at the given COI,
    frequencies and rates, from some state of the sampler. *)
Definition estimate_at (c : Chain) (j i : nat) (coi : Z) (freq : list D)
    (en ep : D) (x : D) : Prop :=
  exists s,
    x = fst (calc_genotype_marginal_llik (params c) (lookup c)
               (observed_at c j i) coi freq en ep s).

(** The cells of [S] that exist in [v] hold such values, at the COI of the
    column and the frequencies of the row. *)
Definition cells_estimated (S : nat -> nat -> Prop) (c : Chain)
    (coi : nat -> Z) (freq : nat -> list D) (en ep : D)
    (v : list (list D)) : Prop :=
  forall j i, S j i -> in_range v j i ->
    estimate_at c j i (coi i) (freq j) en ep (mget #0 v j i).

(** [c'] is [c] with the cells of [S] of [llik_new] recomputed (and the
    sampler advanced). *)
Definition estimated_in (S : nat -> nat -> Prop)
    (coi : nat -> Z) (freq : nat -> list D) (en ep : D) (c c' : Chain) : Prop :=
  exists ln s, cells_off #0 S (llik_new c) ln /\
               cells_estimated S c coi freq en ep ln /\
               c' = set_llik_new ln (set_sampler s c).

(** Every cell of [llik_old] is an estimate at the current state. *)
Definition coherent (c : Chain) : Prop :=
  let gd := genotyping_data c in
  forall j i, (j < num_loci gd)%nat -> (i < num_samples gd)%nat ->
    estimate_at c j i (nth i (m c) 0%Z) (nth j (p c) []) (eps_neg c) (eps_pos c)
      (mget #0 (llik_old c) j i).

(** [c'] is [c] with the cells of [S] of [llik_new] copied to [llik_old]. *)
Definition synced_in (S : nat -> nat -> Prop) (c c' : Chain) : Prop :=
  exists lo, cells_off #0 S (llik_old c) lo /\
             cells_synced #0 S lo (llik_new c) /\
             c' = set_llik_old lo c.

(** Whenever the sampler is asked for at least one genotype at a positive
    COI, one of the genotypes it returns has a positive count at one of the
    alleles. *)
Definition draws_an_allele : Prop :=
  forall (coi : Z) (q : list D) (depth : Z) (s : rng),
    (0 < coi)%Z -> (1 <= depth)%Z -> q <> [] ->
    exists d a, (d < Z.to_nat depth)%nat /\ (a < length q)%nat /\
                (0 < mget 0%Z (fst (sample_genotype coi q depth s)) d a)%Z.

(** The vectors of the chain have the sizes of the data. *)
Definition well_shaped (c : Chain) : Prop :=
  let gd := genotyping_data c in
  length (m c) = num_samples gd /\
  length (m_accept c) = num_samples gd /\
  length (m_prop_mean c) = num_samples gd /\
  length (p c) = num_loci gd /\
  length (p_accept c) = num_loci gd /\
  length (p_prop_var c) = num_loci gd /\
  has_shape (num_loci gd) (num_samples gd) (llik_old c) /\
  has_shape (num_loci gd) (num_samples gd) (llik_new c).

(** [c'] differs from [c] at most in what [update_m] writes. *)
Definition coi_block_of (c c' : Chain) : Prop :=
  exists s ln lo mv mp ma,
    c' = set_m_accept ma (set_m_prop_mean mp (set_m mv
           (set_llik_old lo (set_llik_new ln (set_sampler s c))))).

(** [c'] differs from [c] at most in what [update_p] writes. *)
Definition frequency_block_of (c c' : Chain) : Prop :=
  exists s pp ln lo pv pa pvar,
    c' = set_p_prop_var pvar (set_p_accept pa (set_p pv
           (set_llik_old lo (set_llik_new ln (set_prop_p pp (set_sampler s c)))))).

(** [c'] differs from [c] at most in what [update_eps_pos] writes. *)
Definition eps_pos_block_of (c c' : Chain) : Prop :=
  exists s ln lo e v a,
    c' = set_eps_pos_accept a (set_eps_pos_var v (set_eps_pos e
           (set_llik_old lo (set_llik_new ln (set_sampler s c))))).

(** [c'] differs from [c] at most in what [update_eps_neg] writes. *)
Definition eps_neg_block_of (c c' : Chain) : Prop :=
  exists s ln lo e v a,
    c' = set_eps_neg_accept a (set_eps_neg_var v (set_eps_neg e
           (set_llik_old lo (set_llik_new ln (set_sampler s c))))).

End BlockNotions.

(** ** The rates and the COI scales, in exact arithmetic *)

Section ExactNotions.
Context `{Sampler R}.
Local Open Scope R_scope.

(** Both error rates lie strictly between 0 and their maximum. *)
Definition rates_in_range (c : Chain) : Prop :=
  0 < eps_pos c < max_eps_pos (params c) /\
  0 < eps_neg c < max_eps_neg (params c).

Definition coi_scales_nonneg (c : Chain) : Prop :=
  Forall (fun x => 0 <= x) (m_prop_mean c).

End ExactNotions.

(** A call as [calc_obs_genotype_lliks] reads it: zero or not. *)
Definition called (o : Z) : Z := if (o =? 0)%Z then 0%Z else 1%Z.

(** * Concrete inputs *)

(** ** A sampler that replays recorded draws

    To run the chain on a concrete input the draws have to be given.  A
    [Tape] lists, per method, the values the sampler returns, in order; the
    replaying sampler hands them out one by one (and a default, [d0], 0 or
    the empty vector, once a list has run out). *)

Record Tape (D : Type) := {
  coi_deltas : list Z;
  frequency_draws : list (list D);
  epsilon_draws : list D;
  genotype_draws : list (list (list Z));
  log_uniform_draws : list D
}.
Arguments coi_deltas {D} _.
Arguments frequency_draws {D} _.
Arguments epsilon_draws {D} _.
Arguments genotype_draws {D} _.
Arguments log_uniform_draws {D} _.

Definition replay {D : Type} (d0 : D) (start : Tape D) : Sampler D := {|
  rng := Tape D;
  sampler_new := fun _ _ => start;
  sample_coi_delta := fun _ t =>
    (hd 0%Z (coi_deltas t),
     {| coi_deltas := tl (coi_deltas t); frequency_draws := frequency_draws t;
        epsilon_draws := epsilon_draws t; genotype_draws := genotype_draws t;
        log_uniform_draws := log_uniform_draws t |});
  sample_allele_frequencies := fun _ _ t =>
    (hd [] (frequency_draws t),
     {| coi_deltas := coi_deltas t; frequency_draws := tl (frequency_draws t);
        epsilon_draws := epsilon_draws t; genotype_draws := genotype_draws t;
        log_uniform_draws := log_uniform_draws t |});
  sample_epsilon_pos := fun _ _ t =>
    (hd d0 (epsilon_draws t),
     {| coi_deltas := coi_deltas t; frequency_draws := frequency_draws t;
        epsilon_draws := tl (epsilon_draws t); genotype_draws := genotype_draws t;
        log_uniform_draws := log_uniform_draws t |});
  sample_epsilon_neg := fun _ _ t =>
    (hd d0 (epsilon_draws t),
     {| coi_deltas := coi_deltas t; frequency_draws := frequency_draws t;
        epsilon_draws := tl (epsilon_draws t); genotype_draws := genotype_draws t;
        log_uniform_draws := log_uniform_draws t |});
  sample_genotype := fun _ _ _ t =>
    (hd [] (genotype_draws t),
     {| coi_deltas := coi_deltas t; frequency_draws := frequency_draws t;
        epsilon_draws := epsilon_draws t; genotype_draws := tl (genotype_draws t);
        log_uniform_draws := log_uniform_draws t |});
  sample_log_mh_acceptance := fun t =>
    (hd d0 (log_uniform_draws t),
     {| coi_deltas := coi_deltas t; frequency_draws := frequency_draws t;
        epsilon_draws := epsilon_draws t; genotype_draws := genotype_draws t;
        log_uniform_draws := tl (log_uniform_draws t) |})
|}.

(** ** A one-cell chain

    One locus with two alleles, one sample that shows the first allele only,
    COI 1, importance-sampling depth 1.  The table entries are
    ln Gamma(1) = ln Gamma(2) = 0. *)

Definition one_cell_data : GenotypingData := {|
  num_loci := 1; num_samples := 1; num_alleles := [2%Z];
  observed_alleles := [[[1%Z; 0%Z]]];
  observed_coi := [1%Z]
|}.

Definition one_cell_lookup {D} `{Double D} : Lookup D := {|
  lookup_lgamma := [d_of_int 0; d_of_int 0; d_of_int 0];
  lookup_sampling_depth := [[0; 0; 0]; [0; 0; 1]]%Z
|}.

Section OneCellInputs.
Local Open Scope R_scope.

Definition one_cell_params : Parameters R := {|
  importance_sampling_depth := 1000; max_coi := 25;
  max_eps_pos := 0.1; max_eps_neg := 0.1;
  eps_pos_0 := 0.01; eps_neg_0 := 0.01
|}.

(** The draws of one pass through [update_p] that ends in a rejection: the
    proposal moves nearly all mass to the allele that was not observed, the
    latent genotype drawn is the observed allele, and log U = -1. *)
Definition rejecting_tape : Tape R := {|
  coi_deltas := [];
  frequency_draws := [[0.01; 0.99]];
  epsilon_draws := [];
  genotype_draws := [[[1%Z; 0%Z]]];
  log_uniform_draws := [-1]
|}.

(** The sampler that replays it, and a tape as a state of that sampler. *)
Definition rejecting : Sampler R := replay 0 rejecting_tape.
Definition state_of (t : Tape R) : @rng R rejecting := t.

(** The tape after the proposal, and after the genotype draw as well. *)
Definition tape_proposed : Tape R := {|
  coi_deltas := []; frequency_draws := []; epsilon_draws := [];
  genotype_draws := [[[1%Z; 0%Z]]]; log_uniform_draws := [-1]
|}.
Definition tape_refreshed : Tape R := {|
  coi_deltas := []; frequency_draws := []; epsilon_draws := [];
  genotype_draws := []; log_uniform_draws := [-1]
|}.

(** A chain on that cell whose allele-frequency scale sits at the floor. *)
Definition chain_at_floor : @Chain R rejecting := {|
  genotyping_data := one_cell_data;
  lookup := one_cell_lookup;
  params := one_cell_params;
  sampler := state_of rejecting_tape;
  llik := 0;
  llik_old := [[0]];
  llik_new := [[0]];
  m := [1%Z];
  p := [[0.5; 0.5]];
  eps_pos := 0.01;
  eps_neg := 0.01;
  prop_p := [];
  m_accept := [0%Z];
  p_accept := [0%Z];
  eps_pos_accept := 0;
  eps_neg_accept := 0;
  m_prop_mean := [1];
  p_prop_var := [1e-100];
  eps_pos_var := 0.05;
  eps_neg_var := 0.05
|}.

(** The chain when the proposal of [update_p] has been drawn. *)
Definition chain_proposed : @Chain R rejecting :=
  set_prop_p [0.01; 0.99] (set_sampler (state_of tape_proposed) chain_at_floor).

(** The kernel at the proposal: one draw, so the estimate is its log
    weight. *)
Definition proposal_llik : R :=
  ln (1 - 0.01) + ln (1 - 0.01) + ln (0.01 + 1e-12) - ln (0.5 + 1e-12).

End OneCellInputs.

(** ** Inputs on binary64 *)

Module Binary64Inputs.
Import Floats Binary64.
Local Open Scope float_scope.
Set Warnings "-inexact-float".

(** *** Underflow in the kernel

    The one-cell input with both error rates at 1e-200 and the latent
    genotype drawn on the allele that was not observed. *)

Definition one_cell_settings : Parameters float := {|
  importance_sampling_depth := 1000; max_coi := 25;
  max_eps_pos := 0.1; max_eps_neg := 0.1;
  eps_pos_0 := 0.01; eps_neg_0 := 0.01
|}.

Definition unobserved_allele_tape : Tape float := {|
  coi_deltas := []; frequency_draws := []; epsilon_draws := [];
  genotype_draws := [[[0%Z; 1%Z]]]; log_uniform_draws := []
|}.

Definition replaying : Sampler float := replay 0 unobserved_allele_tape.

Definition underflowing_call : float :=
  fst (@calc_genotype_marginal_llik float F64_Double replaying
         one_cell_settings one_cell_lookup [1%Z; 0%Z] 1 [0.5; 0.5] 1e-200 1e-200
         unobserved_allele_tape).

Definition underflowing_weight : float :=
  log_weight one_cell_lookup [1%Z; 0%Z] 1 [0.5; 0.5]
    (reweight_allele_frequencies [0.5; 0.5] [1%Z; 0%Z] 1e-200 1e-200)
    1e-200 1e-200 [[0%Z; 1%Z]] 1 0.

(** One locus, one sample, two alleles, nothing observed. *)
Definition nothing_observed : GenotypingData := {|
  num_loci := 1; num_samples := 1; num_alleles := [2%Z];
  observed_alleles := [[[0%Z; 0%Z]]];
  observed_coi := [1%Z]
|}.

End Binary64Inputs.

(** ** A locus seen in two samples

    One locus with two alleles; the first sample shows the first allele, the
    second shows both.  The counts are 2 and 1, the total is 3. *)

Definition two_sample_data : GenotypingData := {|
  num_loci := 1; num_samples := 2; num_alleles := [2%Z];
  observed_alleles := [[[1%Z; 0%Z]; [1%Z; 1%Z]]];
  observed_coi := [1%Z; 2%Z]
|}.

(** ** A sampler that proposes what is there

    Every proposal is the current value, the COI step is 0, every genotype
    drawn has the whole COI on the first allele, and log U is [d0]. *)

Definition still {D : Type} (d0 : D) : Sampler D := {|
  rng := unit;
  sampler_new := fun _ _ => tt;
  sample_coi_delta := fun _ s => (0%Z, s);
  sample_allele_frequencies := fun row _ s => (row, s);
  sample_epsilon_pos := fun e _ s => (e, s);
  sample_epsilon_neg := fun e _ s => (e, s);
  sample_genotype := fun coi q depth s =>
    (replicate (Z.to_nat depth) (coi :: replicate (length q - 1) 0%Z), s);
  sample_log_mh_acceptance := fun s => (d0, s)
|}.

(** The one-cell chain driven by that sampler. *)
Definition still_chain : @Chain R (still 0%R) := {|
  genotyping_data := one_cell_data;
  lookup := one_cell_lookup;
  params := one_cell_params;
  sampler := (tt : @rng R (still 0%R));
  llik := 0%R;
  llik_old := [[0%R]];
  llik_new := [[0%R]];
  m := [1%Z];
  p := [[0.5%R; 0.5%R]];
  eps_pos := 0.01%R;
  eps_neg := 0.01%R;
  prop_p := [];
  m_accept := [0%Z];
  p_accept := [0%Z];
  eps_pos_accept := 0;
  eps_neg_accept := 0;
  m_prop_mean := [1%R];
  p_prop_var := [1%R];
  eps_pos_var := 0.05%R;
  eps_neg_var := 0.05%R
|}.

(** The one-cell chain at the floor, with an estimate in its cache. *)
Definition estimated_chain : @Chain R rejecting :=
  set_llik_old
    [[fst (calc_genotype_marginal_llik one_cell_params one_cell_lookup
             [1%Z; 0%Z] 1 [0.5%R; 0.5%R] 0.01%R 0.01%R (state_of tape_proposed))]]
    chain_at_floor.

(** ** A chain with a NaN in its cache

    The one-cell chain on binary64 with NaN as the cached log-likelihood of
    its only cell. *)

Module Binary64Stuck.
Import Floats Binary64 Binary64Inputs.
Local Open Scope float_scope.
Set Warnings "-inexact-float".

Definition stuck_chain : @Chain float replaying := {|
  genotyping_data := one_cell_data;
  lookup := one_cell_lookup;
  params := one_cell_settings;
  sampler := (unobserved_allele_tape : @rng float replaying);
  llik := 0;
  llik_old := [[nan]];
  llik_new := [[nan]];
  m := [1%Z];
  p := [[0.5; 0.5]];
  eps_pos := 0.01;
  eps_neg := 0.01;
  prop_p := [];
  m_accept := [0%Z];
  p_accept := [0%Z];
  eps_pos_accept := 0;
  eps_neg_accept := 0;
  m_prop_mean := [1];
  p_prop_var := [1];
  eps_pos_var := 0.05;
  eps_neg_var := 0.05
|}.

(** The sampler that proposes what is there, on binary64. *)
Definition standing : Sampler float := still 0.

End Binary64Stuck.

(** * Lemmas and theorems *)

(** ** Counted loops, step by step *)

Lemma for_loop_0 {St} (body : nat -> St -> St) s : for_loop 0 body s = s.
Proof. reflexivity. Qed.

Lemma for_loop_S {St} n (body : nat -> St -> St) s :
  for_loop (S n) body s = body n (for_loop n body s).
Proof.
  unfold for_loop. rewrite seq_S, fold_left_app. reflexivity.
Qed.

(** Loop-invariant rule: [P k] holds of the state after [k] iterations. *)
Lemma for_loop_inv {St} (P : nat -> St -> Prop) n (body : nat -> St -> St) s :
  P 0%nat s ->
  (forall i acc, (i < n)%nat -> P i acc -> P (S i) (body i acc)) ->
  P n (for_loop n body s).
Proof.
  intros H0 Hstep.
  assert (G : forall k, (k <= n)%nat -> P k (for_loop k body s)).
  { induction k as [|k IH]; intros Hk.
    - exact H0.
    - rewrite for_loop_S. apply Hstep; [lia | apply IH; lia]. }
  apply G. lia.
Qed.

Lemma for_loop_ext {St} n (f g : nat -> St -> St) s :
  (forall i acc, (i < n)%nat -> f i acc = g i acc) ->
  for_loop n f s = for_loop n g s.
Proof.
  induction n as [|n IH]; intros H; [reflexivity|].
  rewrite !for_loop_S, IH by (intros; apply H; lia). apply H. lia.
Qed.

(** ** What the vector loops compute *)

Section LoopShapes.
Context {A : Type}.
Implicit Types (l : list A) (d : A).

Lemma nth_insert_eq d l i x :
  (i < length l)%nat -> nth i (<[i := x]> l) d = x.
Proof.
  intros Hi. rewrite nth_lookup, list_lookup_insert_eq by exact Hi.
  reflexivity.
Qed.

Lemma nth_insert_ne d l i j x :
  i <> j -> nth j (<[i := x]> l) d = nth j l d.
Proof.
  intros Hij. rewrite !nth_lookup, list_lookup_insert_ne by exact Hij.
  reflexivity.
Qed.

(** A loop whose [j]-th iteration rewrites cell [j] from its own old value. *)
Lemma pointwise_loop d (h : nat -> A -> A) body n l :
  (n <= length l)%nat ->
  (forall j res, (j < length res)%nat ->
                 body j res = <[j := h j (nth j res d)]> res) ->
  let r := for_loop n body l in
  length r = length l /\
  forall j, nth j r d = if (j <? n)%nat then h j (nth j l d) else nth j l d.
Proof.
  intros Hn Hbody r. subst r.
  apply (for_loop_inv (fun k r =>
    length r = length l /\
    forall j, nth j r d = if (j <? k)%nat then h j (nth j l d) else nth j l d)).
  - split; [reflexivity|]. intros j. reflexivity.
  - intros i acc Hi [Hlen Hnth]. rewrite Hbody by lia. split.
    + rewrite length_insert. exact Hlen.
    + intros j. destruct (Nat.eq_dec i j) as [->|Hij].
      * rewrite nth_insert_eq by lia.
        rewrite Hnth, Nat.ltb_irrefl.
        destruct (Nat.ltb_spec j (S j)); [reflexivity | lia].
      * rewrite nth_insert_ne by exact Hij. rewrite Hnth.
        destruct (Nat.ltb_spec j i), (Nat.ltb_spec j (S i));
          try reflexivity; lia.
Qed.

(** A loop that folds into the single cell [k]. *)
Lemma accumulate_loop d (t : nat -> A -> A) k n l :
  (k < length l)%nat ->
  for_loop n (fun j res => <[k := t j (nth k res d)]> res) l
  = <[k := for_loop n t (nth k l d)]> l.
Proof.
  intros Hk. induction n as [|n IH].
  - rewrite !for_loop_0. symmetry. apply list_insert_id.
    destruct (nth_lookup_or_length l k d) as [E|E]; [exact E | lia].
  - rewrite !for_loop_S, IH, nth_insert_eq by exact Hk.
    apply list_insert_insert_eq.
Qed.

Lemma nth_replicate d n x i :
  (i < n)%nat -> nth i (replicate n x) d = x.
Proof.
  intros Hi. apply nth_lookup_Some, lookup_replicate_2, Hi.
Qed.

(** Two lists of one length with the same cells are equal. *)
Lemma nth_eq d l1 l2 :
  length l1 = length l2 ->
  (forall j, (j < length l1)%nat -> nth j l1 d = nth j l2 d) -> l1 = l2.
Proof.
  intros Hlen Hnth. apply (nth_ext l1 l2 d d Hlen Hnth).
Qed.

End LoopShapes.

(** ** The kernel's vectors, cell by cell

    These hold at every instance of [Double]: they only sort out which loop
    iteration writes which cell. *)

Section KernelShapes.
Context {D : Type} `{Double D}.
Local Open Scope dbl_scope.

Lemma calc_obs_genotype_lliks_length obs gs en ep n :
  (Z.to_nat n <= length gs)%nat ->
  length (calc_obs_genotype_lliks obs gs en ep n) = length gs.
Proof.
  intros Hn. unfold calc_obs_genotype_lliks.
  match goal with |- length (for_loop _ ?b ?l) = _ =>
    apply (for_loop_inv (fun _ r => length r = length gs) _ b l) end.
  - apply length_replicate.
  - intros i acc _ Hacc.
    apply (for_loop_inv (fun _ r => length r = length gs)); [exact Hacc|].
    intros j acc' _ Hacc'.
    repeat match goal with |- context [if ?c then _ else _] => destruct c end;
      rewrite length_insert; exact Hacc'.
Qed.

Lemma calc_obs_genotype_lliks_cell obs gs en ep n i :
  (Z.to_nat n <= length gs)%nat -> (i < Z.to_nat n)%nat ->
  nth i (calc_obs_genotype_lliks obs gs en ep n) #0
  = for_loop (length (nth i gs []))
      (fun j acc => acc + obs_term en ep (nth j obs 0%Z) (mget 0%Z gs i j)) #0.
Proof.
  intros Hn Hi. unfold calc_obs_genotype_lliks.
  match goal with |- nth i (for_loop _ ?b ?l) _ = _ =>
    destruct (pointwise_loop #0
      (fun i x => for_loop (length (nth i gs []))
         (fun j acc => acc + obs_term en ep (nth j obs 0%Z) (mget 0%Z gs i j)) x)
      b (Z.to_nat n) l) as [_ Hcell] end.
  - rewrite length_replicate. exact Hn.
  - intros k res Hk.
    rewrite <- (accumulate_loop #0
      (fun j acc => acc + obs_term en ep (nth j obs 0%Z) (mget 0%Z gs k j)))
      by exact Hk.
    apply for_loop_ext. intros j acc _. unfold obs_term.
    repeat match goal with |- context [if ?c then _ else _] => destruct c end;
      reflexivity.
  - rewrite Hcell. destruct (Nat.ltb_spec i (Z.to_nat n)); [|lia].
    rewrite nth_replicate by lia. reflexivity.
Qed.

Lemma calc_genotype_log_pmf_shape lookup gs coi af n :
  let r := calc_genotype_log_pmf lookup gs coi af n in
  length r = Z.to_nat n /\
  forall j, (j < Z.to_nat n)%nat ->
    nth j r #0
    = for_loop (length af)
        (fun i acc => pmf_step lookup (mget 0%Z gs j i) (nth i af #0) acc)
        (nth (Z.to_nat (coi + 1)) (lookup_lgamma lookup) #0).
Proof.
  unfold calc_genotype_log_pmf. cbv zeta.
  match goal with |- length (for_loop _ ?b ?l) = _ /\ _ =>
    apply (for_loop_inv (fun k r =>
      length r = Z.to_nat n /\
      forall j, (j < Z.to_nat n)%nat ->
        nth j r #0
        = for_loop k
            (fun i acc => pmf_step lookup (mget 0%Z gs j i) (nth i af #0) acc)
            (nth (Z.to_nat (coi + 1)) (lookup_lgamma lookup) #0)) _ b l) end.
  - split; [apply length_replicate|].
    intros j Hj. rewrite nth_replicate by exact Hj. reflexivity.
  - intros i acc Hi [Hlen Hcell].
    match goal with |- context [for_loop _ ?b acc] =>
      destruct (pointwise_loop #0
        (fun j x => pmf_step lookup (mget 0%Z gs j i) (nth i af #0) x)
        b (Z.to_nat n) acc) as [Hlen' Hcell'] end.
    + lia.
    + intros j res Hj. unfold pmf_step.
      destruct (mget 0%Z gs j i >? 0)%Z; [reflexivity|].
      symmetry. apply list_insert_id.
      destruct (nth_lookup_or_length res j #0) as [E|E]; [exact E | lia].
    + split; [lia|]. intros j Hj.
      rewrite Hcell', for_loop_S, Hcell by exact Hj.
      destruct (Nat.ltb_spec j (Z.to_nat n)); [reflexivity | lia].
Qed.

Lemma fill_and_sum_loop (f : nat -> D) n :
  for_loop n (fun i '(res, res_sum) => (<[i := f i]> res, res_sum + f i))
           (replicate n #0, #0)
  = (map f (seq 0 n), fold_left d_add (map f (seq 0 n)) #0).
Proof.
  assert (G : forall k, (k <= n)%nat ->
    for_loop k (fun i '(res, res_sum) => (<[i := f i]> res, res_sum + f i))
             (replicate n #0, #0)
    = (map f (seq 0 k) ++ replicate (n - k) #0,
       fold_left d_add (map f (seq 0 k)) #0)).
  { induction k as [|k IH]; intros Hk.
    - rewrite for_loop_0, Nat.sub_0_r. reflexivity.
    - rewrite for_loop_S, IH by lia.
      rewrite seq_S, map_app, fold_left_app. cbn [map fold_left Nat.add].
      f_equal.
      rewrite insert_app_r_alt by (rewrite length_map, length_seq; lia).
      rewrite length_map, length_seq, Nat.sub_diag.
      replace (n - k)%nat with (S (n - S k)) by lia.
      cbn. rewrite <- app_assoc. reflexivity. }
  rewrite G by lia. rewrite Nat.sub_diag. cbn. rewrite app_nil_r. reflexivity.
Qed.

Lemma reweight_allele_frequencies_shape af obs en ep :
  let w := map (reweight_raw af obs en ep) (seq 0 (length af)) in
  reweight_allele_frequencies af obs en ep
  = map (fun x => x * (#1 / fold_left d_add w #0)) w.
Proof.
  intros w. subst w. unfold reweight_allele_frequencies.
  pose proof (fill_and_sum_loop (reweight_raw af obs en ep) (length af)) as E.
  unfold reweight_raw in *. cbv zeta in *. rewrite E. clear E.
  set (w := map _ (seq 0 (length af))).
  match goal with |- for_loop _ ?b w = _ =>
    destruct (pointwise_loop #0
      (fun (_ : nat) x => x * (#1 / fold_left d_add w #0))
      b (length w) w) as [Hlen Hcell] end.
  - lia.
  - reflexivity.
  - apply (nth_eq #0).
    + rewrite length_map. exact Hlen.
    + intros j Hj. rewrite Hcell.
      destruct (Nat.ltb_spec j (length w)); [|lia].
      rewrite !nth_lookup, list_lookup_fmap.
      destruct (w !! j) eqn:E; [reflexivity|].
      apply lookup_ge_None in E. lia.
Qed.

End KernelShapes.

Section ExactSums.
Local Open Scope R_scope.

Lemma Rsum_app l1 l2 : Rsum (l1 ++ l2) = Rsum l1 + Rsum l2.
Proof.
  unfold Rsum. induction l1 as [|x l1 IH]; cbn [app fold_right]; lra.
Qed.

Lemma sum_over_S n f : sum_over (S n) f = sum_over n f + f n.
Proof.
  unfold sum_over. rewrite seq_S, map_app, Rsum_app. cbn. lra.
Qed.

Lemma sum_over_ext n f g :
  (forall a, (a < n)%nat -> f a = g a) -> sum_over n f = sum_over n g.
Proof.
  induction n as [|n IH]; intros E; [reflexivity|].
  rewrite !sum_over_S, IH, E by (intros; try apply E; lia). reflexivity.
Qed.

Lemma sum_over_pos n f :
  (0 < n)%nat -> (forall a, (a < n)%nat -> 0 < f a) -> 0 < sum_over n f.
Proof.
  induction n as [|n IH]; intros Hn Hf; [lia|].
  rewrite sum_over_S. specialize (Hf n ltac:(lia)) as Hfn.
  destruct n as [|n]; [cbn; lra|].
  specialize (IH ltac:(lia) ltac:(intros; apply Hf; lia)). lra.
Qed.

Lemma sum_over_scale n f c :
  sum_over n (fun a => f a * c) = sum_over n f * c.
Proof.
  induction n as [|n IH]; [cbn; lra|]. rewrite !sum_over_S, IH. lra.
Qed.

(** An accumulating loop is a sum. *)
Lemma accumulate_sum n (f : nat -> R) a :
  for_loop n (fun j acc => acc + f j) a = a + sum_over n f.
Proof.
  induction n as [|n IH].
  - rewrite for_loop_0. cbn. lra.
  - rewrite for_loop_S, sum_over_S, IH. lra.
Qed.

Lemma fold_left_Rplus l a : fold_left Rplus l a = a + Rsum l.
Proof.
  revert a. unfold Rsum.
  induction l as [|x l IH]; intros a; cbn [fold_left fold_right]; [lra|].
  rewrite IH. lra.
Qed.

End ExactSums.

(** ** The likelihood kernel in exact arithmetic *)

Section ExactKernel.
Local Open Scope R_scope.

Lemma obs_term_emission en ep o g :
  is_call o -> (0 <= g)%Z -> obs_term en ep o g = emission en ep o g.
Proof.
  intros [-> | ->] Hg; unfold obs_term, emission; cbn [Z.eqb negb];
    destruct (Z.eqb_spec g 0) as [-> | Hne]; cbn [negb Z.ltb Z.compare];
    try reflexivity;
    destruct (Z.ltb_spec 0 g); try lia; reflexivity.
Qed.

Lemma pmf_loop lookup (g : list Z) (freq : list R) n init :
  lgamma_of lookup 1 = 0 ->
  (forall a, (0 <= nth a g 0%Z)%Z) ->
  for_loop n (fun i acc => pmf_step lookup (nth i g 0%Z) (nth i freq 0) acc) init
  = init
    - sum_over n (fun a => lgamma_of lookup (nth a g 0%Z + 1)%Z)
    + sum_over n (fun a => IZR (nth a g 0%Z) * ln (nth a freq 0 + 1e-12)).
Proof.
  intros Hlg1 Hg. induction n as [|n IH].
  - rewrite for_loop_0. cbn. lra.
  - rewrite for_loop_S, !sum_over_S, IH. unfold pmf_step. exact_arith.
    destruct (Z.gtb_spec (nth n g 0%Z) 0) as [Hpos | Hzero].
    + unfold lgamma_of. lra.
    + assert (E : nth n g 0%Z = 0%Z) by (specialize (Hg n); lia).
      rewrite E. change (0 + 1)%Z with 1%Z. rewrite Hlg1. lra.
Qed.

Lemma obs_cell_exact obs gs en ep n i :
  (Z.to_nat n <= length gs)%nat -> (i < Z.to_nat n)%nat ->
  length obs = length (nth i gs []) ->
  Forall is_call obs ->
  Forall (fun g => (0 <= g)%Z) (nth i gs []) ->
  nth i (calc_obs_genotype_lliks obs gs en ep n) 0 = obs_llik en ep obs (nth i gs []).
Proof.
  intros Hn Hi Hlen Hobs Hg.
  pose proof (calc_obs_genotype_lliks_cell obs gs en ep n i Hn Hi) as Hcell.
  exact_arith. rewrite Hcell, accumulate_sum, Rplus_0_l.
  unfold obs_llik, mget. apply sum_over_ext. intros a Ha.
  apply obs_term_emission.
  - apply (proj1 (List.Forall_nth _ _) Hobs). lia.
  - apply (proj1 (List.Forall_nth _ _) Hg). exact Ha.
Qed.

Lemma log_pmf_cell_exact lookup gs coi freq n j :
  lgamma_of lookup 1 = 0 ->
  (j < Z.to_nat n)%nat ->
  Forall (fun g => (0 <= g)%Z) (nth j gs []) ->
  nth j (calc_genotype_log_pmf lookup gs coi freq n) 0
  = multinomial_log_pmf (lgamma_of lookup) coi (nth j gs []) freq.
Proof.
  intros Hlg1 Hj Hg.
  destruct (calc_genotype_log_pmf_shape lookup gs coi freq n) as [_ Hcell].
  specialize (Hcell j Hj). exact_arith. rewrite Hcell.
  unfold mget, multinomial_log_pmf. apply pmf_loop; [exact Hlg1|].
  intros a. destruct (Nat.lt_ge_cases a (length (nth j gs []))) as [Ha|Ha].
  - apply (proj1 (List.Forall_nth _ _) Hg). exact Ha.
  - rewrite nth_overflow by exact Ha. lia.
Qed.

End ExactKernel.

(** C3. For latent counts g >= 0, 0/1 calls obs and rates in (0,1), the cell
    of [calc_obs_genotype_lliks] for genotype [i] is the sum over the alleles
    a of: g_a * log(1 - eps_neg) when obs_a = 1 and g_a > 0; log(eps_pos) when
    obs_a = 1 and g_a = 0; g_a * log(eps_neg) when obs_a = 0 and g_a > 0;
    log(1 - eps_pos) when obs_a = 0 and g_a = 0. *)
Theorem calc_obs_genotype_lliks_emission
    (obs : list Z) (true_genotypes : list (list Z)) (eps_neg eps_pos : R)
    (num_genotypes : Z) (i : nat) :
  (0 < eps_neg < 1)%R -> (0 < eps_pos < 1)%R ->
  (Z.to_nat num_genotypes <= length true_genotypes)%nat ->
  (i < Z.to_nat num_genotypes)%nat ->
  length obs = length (nth i true_genotypes []) ->
  Forall is_call obs ->
  Forall (fun g => (0 <= g)%Z) (nth i true_genotypes []) ->
  nth i (calc_obs_genotype_lliks obs true_genotypes eps_neg eps_pos num_genotypes) 0%R
  = obs_llik eps_neg eps_pos obs (nth i true_genotypes []).
Proof.
  intros _ _ Hn Hi Hlen Hobs Hg. apply obs_cell_exact; assumption.
Qed.

(** C8. With the table entry for ln Gamma(1) equal to 0 and counts g >= 0,
    the cell of [calc_genotype_log_pmf] for genotype [j] is
    lgamma(coi+1) - sum_a lgamma(g_a+1) + sum_a g_a * log(pi_a + 1e-12):
    the alleles the guard [g_a > 0] skips contribute zero to both sums. *)
Theorem calc_genotype_log_pmf_multinomial
    (lookup : Lookup R) (genotypes : list (list Z)) (coi : Z)
    (allele_frequencies : list R) (num_genotypes : Z) (j : nat) :
  lgamma_of lookup 1 = 0%R ->
  (j < Z.to_nat num_genotypes)%nat ->
  length (nth j genotypes []) = length allele_frequencies ->
  Forall (fun g => (0 <= g)%Z) (nth j genotypes []) ->
  nth j (calc_genotype_log_pmf lookup genotypes coi allele_frequencies num_genotypes) 0%R
  = multinomial_log_pmf (lgamma_of lookup) coi (nth j genotypes []) allele_frequencies.
Proof.
  intros Hlg1 Hj _ Hg. apply log_pmf_cell_exact; assumption.
Qed.

Section ExactReweight.
Local Open Scope R_scope.

Lemma Rsum_map_scale (c : R) l : Rsum (map (fun x => x * c) l) = Rsum l * c.
Proof.
  unfold Rsum. induction l as [|x l IH]; cbn [map fold_right]; [lra|].
  rewrite IH. lra.
Qed.

Lemma reweight_raw_pos af obs en ep i :
  Forall (fun x => 0 <= x) af -> Forall is_call obs ->
  0 < en < 1 -> 0 <= ep ->
  0 < reweight_raw af obs en ep i.
Proof.
  intros Haf Hobs Hen Hep. unfold reweight_raw. exact_arith.
  assert (Hp : 0 <= nth i af 0).
  { destruct (Nat.lt_ge_cases i (length af)) as [Hi|Hi].
    - apply (proj1 (List.Forall_nth _ _) Haf). exact Hi.
    - rewrite nth_overflow by exact Hi. lra. }
  assert (Ho : is_call (nth i obs 0%Z)).
  { destruct (Nat.lt_ge_cases i (length obs)) as [Hi|Hi].
    - apply (proj1 (List.Forall_nth _ _) Hobs). exact Hi.
    - rewrite nth_overflow by exact Hi. left. reflexivity. }
  destruct Ho as [E | E]; rewrite E;
    [change (1 - 0)%Z with 1%Z | change (1 - 1)%Z with 0%Z]; nra.
Qed.

Lemma Rsum_pos l : l <> [] -> Forall (fun x => 0 < x) l -> 0 < Rsum l.
Proof.
  intros Hne Hl. destruct l as [|x l]; [congruence|]. clear Hne.
  revert x Hl. unfold Rsum.
  induction l as [|y l IH]; intros x Hl; cbn [fold_right].
  - inversion Hl; subst. lra.
  - inversion Hl as [|? ? Hx Hl']; subst.
    specialize (IH y Hl'). cbn [fold_right] in IH. lra.
Qed.

End ExactReweight.

(** C5. For a non-empty frequency vector with non-negative entries, 0/1
    calls of the same length, eps_neg in (0,1) and eps_pos >= 0,
    [reweight_allele_frequencies] returns a vector of the same length whose
    entries are strictly positive and sum to 1. *)
Theorem reweight_allele_frequencies_simplex
    (allele_frequencies : list R) (observed_genotype : list Z)
    (epsilon_neg epsilon_pos : R) :
  allele_frequencies <> [] ->
  length observed_genotype = length allele_frequencies ->
  Forall (fun x => (0 <= x)%R) allele_frequencies ->
  Forall is_call observed_genotype ->
  (0 < epsilon_neg < 1)%R -> (0 <= epsilon_pos)%R ->
  let q := reweight_allele_frequencies allele_frequencies observed_genotype
             epsilon_neg epsilon_pos in
  length q = length allele_frequencies /\
  Rsum q = 1%R /\
  Forall (fun x => (0 < x)%R) q.
Proof.
  intros Hne _ Haf Hobs Hen Hep q. subst q.
  rewrite reweight_allele_frequencies_shape. exact_arith.
  set (w := map (reweight_raw allele_frequencies observed_genotype
                   epsilon_neg epsilon_pos) (seq 0 (length allele_frequencies))).
  assert (Hw : Forall (fun x => (0 < x)%R) w).
  { apply List.Forall_forall. intros x Hx. apply in_map_iff in Hx.
    destruct Hx as [i [<- _]]. apply reweight_raw_pos; assumption. }
  assert (Hwne : w <> []).
  { intros E. apply (f_equal (@length R)) in E. subst w.
    rewrite length_map, length_seq in E. destruct allele_frequencies; [congruence|].
    discriminate E. }
  pose proof (Rsum_pos w Hwne Hw) as HS.
  rewrite fold_left_Rplus, Rplus_0_l.
  split; [|split].
  - subst w. rewrite !length_map, length_seq. reflexivity.
  - rewrite Rsum_map_scale. field. lra.
  - apply List.Forall_forall. intros x Hx. apply in_map_iff in Hx.
    destruct Hx as [y [<- Hy]].
    pose proof (proj1 (List.Forall_forall _ _) Hw y Hy) as Hy0. cbv beta in Hy0.
    apply Rmult_lt_0_compat; [exact Hy0|].
    apply Rdiv_lt_0_compat; lra.
Qed.

(** ** The estimator *)

Section ExactEstimator.
Context `{Sampler R}.
Local Open Scope R_scope.

(** The kernel as written: the exponentials are summed as they are, the sum
    is divided by the depth, and the logarithm is taken. *)
Lemma calc_genotype_marginal_llik_naive params lookup obs coi p en ep (s : rng) :
  let depth := depth_of params lookup coi p in
  let q := reweight_allele_frequencies p obs en ep in
  let gs := fst (sample_genotype coi q depth s) in
  fst (calc_genotype_marginal_llik params lookup obs coi p en ep s)
  = ln (sum_over (Z.to_nat depth)
          (fun d => exp (log_weight lookup obs coi p q en ep gs depth d))
        / IZR depth).
Proof.
  intros depth q gs. unfold calc_genotype_marginal_llik.
  fold (depth_of params lookup coi p). fold depth. fold q.
  subst gs. destruct (sample_genotype coi q depth s) as [gs s'].
  cbn [fst]. exact_arith. rewrite accumulate_sum, Rplus_0_l. reflexivity.
Qed.

Lemma log_sum_exp_naive ws :
  ws <> [] -> log_sum_exp ws = ln (Rsum (map exp ws)).
Proof.
  intros Hne. unfold log_sum_exp. cbv zeta. generalize (Rmax_list ws) as M. intros M.
  assert (E : Rsum (map (fun w => exp (w - M)) ws) = Rsum (map exp ws) * exp (- M)).
  { rewrite <- Rsum_map_scale, map_map. f_equal. apply map_ext. intros w.
    rewrite <- exp_plus. f_equal. }
  assert (Hpos : 0 < Rsum (map exp ws)).
  { apply Rsum_pos.
    - destruct ws; [congruence | discriminate].
    - apply List.Forall_forall. intros x Hx. apply in_map_iff in Hx.
      destruct Hx as [w [<- _]]. apply exp_pos. }
  rewrite E, ln_mult, ln_exp by (try apply exp_pos; exact Hpos). lra.
Qed.

End ExactEstimator.

(** ** What each loop of a block writes *)

Section ChainFrames.
Context {D : Type} `{Double D} `{Sampler D}.
Local Open Scope dbl_scope.

Lemma scratch_of_refl c : scratch_of c c.
Proof. exists (llik_new c), (sampler c). destruct c; reflexivity. Qed.

Lemma scratch_of_trans c1 c2 c3 :
  scratch_of c1 c2 -> scratch_of c2 c3 -> scratch_of c1 c3.
Proof.
  intros (ln & s & ->) (ln' & s' & ->). exists ln', s'. reflexivity.
Qed.

Lemma refresh_llik_new_scratch j i coi freq en ep c :
  scratch_of c (refresh_llik_new j i coi freq en ep c).
Proof.
  unfold refresh_llik_new.
  destruct (calc_genotype_marginal_llik _ _ _ _ _ _ _ _) as [l s].
  eexists _, _. reflexivity.
Qed.

(** A loop over (chain, sum, sum) whose body only refreshes the scratch. *)
Lemma loop_scratch {A B} n (body : nat -> Chain * A * B -> Chain * A * B) st :
  (forall k st', scratch_of (fst (fst st')) (fst (fst (body k st')))) ->
  scratch_of (fst (fst st)) (fst (fst (for_loop n body st))).
Proof.
  intros Hbody.
  apply (for_loop_inv (fun _ st' => scratch_of (fst (fst st)) (fst (fst st')))).
  - apply scratch_of_refl.
  - intros k st' _ Hst'.
    eapply scratch_of_trans; [exact Hst' | apply Hbody].
Qed.

Lemma refresh_all_scratch en ep c :
  scratch_of c (fst (fst (refresh_all en ep c))).
Proof.
  unfold refresh_all. apply (loop_scratch _ _ (c, #0, #0)).
  intros j st. apply loop_scratch.
  intros i [[c' sc] so]. cbn [fst]. apply refresh_llik_new_scratch.
Qed.

Lemma committed_of_refl c : committed_of c c.
Proof. exists (llik_old c). destruct c; reflexivity. Qed.

Lemma committed_of_trans c1 c2 c3 :
  committed_of c1 c2 -> committed_of c2 c3 -> committed_of c1 c3.
Proof. intros (lo & ->) (lo' & ->). exists lo'. reflexivity. Qed.

Lemma loop_committed n (body : nat -> Chain -> Chain) c :
  (forall k c', committed_of c' (body k c')) ->
  committed_of c (for_loop n body c).
Proof.
  intros Hbody. apply (for_loop_inv (fun _ c' => committed_of c c')).
  - apply committed_of_refl.
  - intros k c' _ Hc'. eapply committed_of_trans; [exact Hc' | apply Hbody].
Qed.

Lemma commit_all_committed c : committed_of c (commit_all c).
Proof.
  unfold commit_all. apply loop_committed. intros j c'.
  apply loop_committed. intros i c''. eexists. reflexivity.
Qed.

End ChainFrames.

(** ** The COI block *)

Section CoiBlock.
Context {D : Type} `{Double D} `{Sampler D}.
Local Open Scope dbl_scope.

(** One sample of the block: the configuration is kept, and [m] is either
    kept or gets the proposal, which then lies in [1, max_coi]. *)
Lemma update_m_sample_m iteration k c :
  let c' := update_m_sample iteration k c in
  params c' = params c /\
  genotyping_data c' = genotyping_data c /\
  (m c' = m c \/
   ((0 < proposed_coi k c <= max_coi (params c))%Z /\
    m c' = <[k := proposed_coi k c]> (m c))).
Proof.
  unfold update_m_sample, proposed_coi.
  destruct (sample_coi_delta (nth k (m_prop_mean c) #0) (sampler c)) as [delta s].
  cbn [fst]. cbv zeta.
  change (m (set_sampler s c)) with (m c).
  change (params (set_sampler s c)) with (params c).
  change (genotyping_data (set_sampler s c)) with (genotyping_data c).
  destruct (delta + nth k (m c) 0 =? nth k (m c) 0)%Z.
  { cbn. auto. }
  destruct ((max_coi (params c) >=? delta + nth k (m c) 0)%Z
            && (delta + nth k (m c) 0 >? 0)%Z) eqn:Hrange.
  2: { cbn. auto. }
  apply andb_prop in Hrange. destruct Hrange as [Hmax Hpos].
  match goal with |- context [for_loop ?n ?b (set_sampler s c, #0, #0)] =>
    pose proof (loop_scratch n b (set_sampler s c, #0, #0)) as Hscr;
    destruct (for_loop n b (set_sampler s c, #0, #0)) as [[c2 sum_can] sum_orig]
  end.
  cbn [fst] in Hscr.
  destruct Hscr as (ln & s2 & ->).
  { intros j [[c' sc] so]. cbn [fst]. apply refresh_llik_new_scratch. }
  destruct (sample_log_mh_acceptance _) as [u s3].
  destruct (u <=? sum_can - sum_orig).
  - match goal with |- context [for_loop ?n ?b ?c0] =>
      destruct (loop_committed n b c0) as (lo & ->) end.
    { intros j c'. eexists. reflexivity. }
    cbn. repeat split; try reflexivity. right. split; [lia | reflexivity].
  - cbn. auto.
Qed.

End CoiBlock.

(** C6. If 1 <= m[i] <= max_coi before [update_m], it holds after it; and
    a proposal for a sample that differs from the current COI and lies
    outside [1, max_coi] leaves every member of the chain as it was (only
    the sampler has advanced by the draw). *)
Theorem update_m_coi_bounds {D : Type} `{Double D} `{Sampler D}
    (iteration : Z) (c : Chain) (i : nat) :
  (1 <= nth i (m c) 0 <= max_coi (params c))%Z ->
  (1 <= nth i (m (update_m iteration c)) 0
     <= max_coi (params (update_m iteration c)))%Z /\
  (forall k,
     proposed_coi k c <> nth k (m c) 0%Z ->
     ~ (1 <= proposed_coi k c <= max_coi (params c))%Z ->
     update_m_sample iteration k c
     = set_sampler (snd (sample_coi_delta (nth k (m_prop_mean c) (d_of_int 0))
                                          (sampler c))) c).
Proof.
  intros Hi. split.
  - unfold update_m.
    apply (for_loop_inv (fun _ c' =>
      params c' = params c /\ genotyping_data c' = genotyping_data c /\
      (1 <= nth i (m c') 0 <= max_coi (params c'))%Z)).
    + auto.
    + intros k c' _ (Hp & Hg & Hm).
      destruct (update_m_sample_m iteration k c') as (Hp' & Hg' & Hm').
      rewrite Hp', Hg'. repeat split; try assumption; try congruence.
      * destruct Hm' as [-> | [Hprop ->]]; [lia|].
        destruct (Nat.eq_dec k i) as [-> | Hne];
          [destruct (Nat.lt_ge_cases i (length (m c'))) as [Hlt | Hge]|].
        -- rewrite nth_insert_eq by exact Hlt. lia.
        -- rewrite list_insert_ge by exact Hge. lia.
        -- rewrite nth_insert_ne by exact Hne. lia.
      * destruct Hm' as [-> | [Hprop ->]]; [lia|].
        destruct (Nat.eq_dec k i) as [-> | Hne];
          [destruct (Nat.lt_ge_cases i (length (m c'))) as [Hlt | Hge]|].
        -- rewrite nth_insert_eq by exact Hlt. lia.
        -- rewrite list_insert_ge by exact Hge. lia.
        -- rewrite nth_insert_ne by exact Hne. lia.
  - intros k Hne Hout. unfold update_m_sample, proposed_coi in *.
    destruct (sample_coi_delta (nth k (m_prop_mean c) (d_of_int 0)) (sampler c))
      as [delta s].
    cbn [fst snd] in *. cbv zeta.
    change (m (set_sampler s c)) with (m c).
    change (params (set_sampler s c)) with (params c).
    destruct (Z.eqb_spec (delta + nth k (m c) 0%Z) (nth k (m c) 0%Z)) as [E | _];
      [contradiction|].
    destruct (Z.geb_spec (max_coi (params c)) (delta + nth k (m c) 0%Z));
      destruct (Z.gtb_spec (delta + nth k (m c) 0%Z) 0);
      cbn [andb]; try reflexivity.
    exfalso. apply Hout. lia.
Qed.

(** ** The epsilon blocks in exact arithmetic *)

Lemma Rltb_lt (a b : R) : Rltb a b = true <-> (a < b)%R.
Proof.
  unfold Rltb. destruct (Rlt_dec a b); split; intros; try assumption;
    try reflexivity; try discriminate; contradiction.
Qed.

Lemma Rleb_le (a b : R) : Rleb a b = true <-> (a <= b)%R.
Proof.
  unfold Rleb. destruct (Rle_dec a b); split; intros; try assumption;
    try reflexivity; try discriminate; contradiction.
Qed.

Lemma in_range_spec (x hi : R) :
  (d_ltb x hi && d_ltb (d_of_int 0) x = true) <-> (0 < x < hi)%R.
Proof.
  exact_arith. rewrite andb_true_iff, !Rltb_lt. tauto.
Qed.

(** C7. In either epsilon block, a proposal outside (0, max_eps) ends the
    block at once: every member of the chain (the rates, the proposal
    variances, the acceptance counters, [llik_old], [llik_new], ...) is as
    before the call; only the sampler has advanced by the one draw. *)
Theorem update_eps_out_of_range `{Sampler R} (iteration : Z) (c : Chain) :
  (let draw := sample_epsilon_pos (eps_pos c) (eps_pos_var c) (sampler c) in
   ~ (0 < fst draw < max_eps_pos (params c))%R ->
   update_eps_pos iteration c = set_sampler (snd draw) c) /\
  (let draw := sample_epsilon_neg (eps_neg c) (eps_neg_var c) (sampler c) in
   ~ (0 < fst draw < max_eps_neg (params c))%R ->
   update_eps_neg iteration c = set_sampler (snd draw) c).
Proof.
  split; intros draw Hout; subst draw.
  - unfold update_eps_pos.
    destruct (sample_epsilon_pos (eps_pos c) (eps_pos_var c) (sampler c)) as [x s].
    cbn [fst snd] in *. cbv zeta.
    change (params (set_sampler s c)) with (params c).
    destruct (d_ltb x (max_eps_pos (params c)) && d_ltb (d_of_int 0) x) eqn:E.
    + apply in_range_spec in E. contradiction.
    + reflexivity.
  - unfold update_eps_neg.
    destruct (sample_epsilon_neg (eps_neg c) (eps_neg_var c) (sampler c)) as [x s].
    cbn [fst snd] in *. cbv zeta.
    change (params (set_sampler s c)) with (params c).
    destruct (d_ltb x (max_eps_neg (params c)) && d_ltb (d_of_int 0) x) eqn:E.
    + apply in_range_spec in E. contradiction.
    + reflexivity.
Qed.

(** ** The accessor in exact arithmetic *)

Section ExactAccessor.
Context `{Sampler R}.
Local Open Scope R_scope.

Lemma calculate_llik_shape (c : Chain) :
  calculate_llik c
  = set_llik (sum_over (num_loci (genotyping_data c)) (fun j =>
               sum_over (num_samples (genotyping_data c)) (fun i =>
                 mget 0 (llik_old c) j i))) c.
Proof.
  unfold calculate_llik. cbv zeta.
  change (genotyping_data (set_llik _ c)) with (genotyping_data c).
  generalize (num_loci (genotyping_data c)) as L.
  generalize (num_samples (genotyping_data c)) as N. intros N L.
  assert (Inner : forall j n c', llik_old c' = llik_old c ->
    for_loop n (fun i c0 => set_llik (d_add (llik c0) (mget (d_of_int 0) (llik_old c0) j i)) c0) c'
    = set_llik (llik c' + sum_over n (fun i => mget 0 (llik_old c) j i)) c').
  { intros j n c' Hlo. induction n as [|n IH].
    - rewrite for_loop_0. cbn. rewrite Rplus_0_r. destruct c'; reflexivity.
    - rewrite for_loop_S, IH, sum_over_S.
      cbn [llik llik_old set_llik]. exact_arith. rewrite Hlo.
      unfold set_llik. cbn. f_equal. lra. }
  induction L as [|L IH].
  - rewrite for_loop_0. reflexivity.
  - rewrite for_loop_S, IH, Inner by reflexivity. rewrite sum_over_S. reflexivity.
Qed.

End ExactAccessor.

(** C10. [get_llik] returns the sum over the loci j and the samples i of
    [llik_old[j][i]], and the chain afterwards differs from the chain before
    in the member [llik] alone (which holds that sum): [m], [p], the rates,
    both caches, the proposal scales and the counters are untouched. *)
Theorem get_llik_sum `{Sampler R} (c : Chain) :
  let total := sum_over (num_loci (genotyping_data c)) (fun j =>
                 sum_over (num_samples (genotyping_data c)) (fun i =>
                   mget 0%R (llik_old c) j i)) in
  fst (get_llik c) = total /\ snd (get_llik c) = set_llik total c.
Proof.
  intros total. unfold get_llik. cbv zeta. cbn [fst snd].
  rewrite calculate_llik_shape. fold total. split; reflexivity.
Qed.

(** ** The proposal variances *)

Section VarianceShapes.
Context {D : Type} `{Double D} `{Sampler D}.
Local Open Scope dbl_scope.

(** What [update_eps_pos] can leave in the three variances. *)
Lemma update_eps_pos_vars iteration c :
  let c' := update_eps_pos iteration c in
  let v := eps_pos_var c in
  eps_neg_var c' = eps_neg_var c /\ p_prop_var c' = p_prop_var c /\
  (eps_pos_var c' = v
   \/ eps_pos_var c' = v + (#1 - lit_0_23) / d_sqrt #iteration
   \/ eps_pos_var c' = UNDERFLO
   \/ (eps_pos_var c' = v - lit_0_23 / d_sqrt #iteration
       /\ (v - lit_0_23 / d_sqrt #iteration <? UNDERFLO) = false)).
Proof.
  unfold update_eps_pos.
  destruct (sample_epsilon_pos _ _ _) as [x s]. cbv zeta.
  destruct (_ && _); [|cbn; auto].
  pose proof (refresh_all_scratch (eps_neg (set_sampler s c)) x (set_sampler s c)) as Hscr.
  destruct (refresh_all _ _ _) as [[c2 sum_can] sum_orig]. cbn [fst] in Hscr.
  destruct Hscr as (ln & s2 & ->).
  destruct (sample_log_mh_acceptance _) as [u s3].
  destruct (u <=? sum_can - sum_orig).
  - match goal with |- context [commit_all ?c0] =>
      destruct (commit_all_committed c0) as (lo & ->) end.
    cbn. auto.
  - cbn [eps_pos_var set_eps_pos_var set_sampler set_llik_new].
    match goal with |- context [if ?b then _ else _] => destruct b eqn:E end;
      cbn; auto 10.
Qed.

(** What [update_eps_neg] can leave in the three variances. *)
Lemma update_eps_neg_vars iteration c :
  let c' := update_eps_neg iteration c in
  let v := eps_neg_var c in
  eps_pos_var c' = eps_pos_var c /\ p_prop_var c' = p_prop_var c /\
  (eps_neg_var c' = v
   \/ eps_neg_var c' = v + (#1 - lit_0_23) / d_sqrt #iteration
   \/ eps_neg_var c' = UNDERFLO
   \/ (eps_neg_var c' = v - lit_0_23 / d_sqrt #iteration
       /\ (v - lit_0_23 / d_sqrt #iteration <? UNDERFLO) = false)).
Proof.
  unfold update_eps_neg.
  destruct (sample_epsilon_neg _ _ _) as [x s]. cbv zeta.
  destruct (_ && _); [|cbn; auto].
  pose proof (refresh_all_scratch x (eps_pos (set_sampler s c)) (set_sampler s c)) as Hscr.
  destruct (refresh_all _ _ _) as [[c2 sum_can] sum_orig]. cbn [fst] in Hscr.
  destruct Hscr as (ln & s2 & ->).
  destruct (sample_log_mh_acceptance _) as [u s3].
  destruct (u <=? sum_can - sum_orig).
  - match goal with |- context [commit_all ?c0] =>
      destruct (commit_all_committed c0) as (lo & ->) end.
    cbn. auto.
  - cbn [eps_neg_var set_eps_neg_var set_sampler set_llik_new].
    match goal with |- context [if ?b then _ else _] => destruct b eqn:E end;
      cbn; auto 10.
Qed.

(** What one locus of [update_p] leaves in the three variances: the scale of
    that locus is multiplied by exp(+-step), through [exp] and [log]. *)
Lemma update_p_locus_vars iteration j c :
  let c' := update_p_locus iteration j c in
  let v := nth j (p_prop_var c) #0 in
  genotyping_data c' = genotyping_data c /\
  eps_pos_var c' = eps_pos_var c /\ eps_neg_var c' = eps_neg_var c /\
  (p_prop_var c'
   = <[j := d_exp (d_log v + (#1 - lit_0_23) / d_sqrt #iteration)]> (p_prop_var c)
   \/ p_prop_var c'
   = <[j := d_exp (d_log v - lit_0_23 / d_sqrt #iteration)]> (p_prop_var c)).
Proof.
  unfold update_p_locus.
  destruct (sample_allele_frequencies _ _ _) as [prop s]. cbv zeta.
  match goal with |- context [for_loop ?n ?b (?c0, #0, #0)] =>
    pose proof (loop_scratch n b (c0, #0, #0)) as Hscr;
    destruct (for_loop n b (c0, #0, #0)) as [[c2 sum_can] sum_orig]
  end.
  cbn [fst] in Hscr. destruct Hscr as (ln & s2 & ->).
  { intros i [[c' sc] so]. cbn [fst]. apply refresh_llik_new_scratch. }
  destruct (sample_log_mh_acceptance _) as [u s3].
  destruct (u <=? sum_can - sum_orig).
  - match goal with |- context [for_loop ?n ?b ?c0] =>
      destruct (loop_committed n b c0) as (lo & ->) end.
    { intros i c'. eexists. reflexivity. }
    cbn. auto.
  - cbn. auto.
Qed.

End VarianceShapes.

Section ExactVariances.
Context `{Sampler R}.
Local Open Scope R_scope.

Lemma accept_step_nonneg iteration :
  (1 <= iteration)%Z -> 0 <= (1 - 0.23) / sqrt (IZR iteration).
Proof.
  intros Hit. apply IZR_le in Hit.
  assert (0 < sqrt (IZR iteration)) by (apply sqrt_lt_R0; lra).
  apply Rlt_le, Rdiv_lt_0_compat; lra.
Qed.

Lemma floored_step (v x : R) iteration :
  (1 <= iteration)%Z -> UNDERFLO <= v ->
  x = v
  \/ x = v + (1 - 0.23) / sqrt (IZR iteration)
  \/ x = UNDERFLO
  \/ (x = v - 0.23 / sqrt (IZR iteration)
      /\ Rltb (v - 0.23 / sqrt (IZR iteration)) UNDERFLO = false) ->
  UNDERFLO <= x.
Proof.
  intros Hit Hv [-> | [-> | [-> | [-> Hfloor]]]].
  - exact Hv.
  - pose proof (accept_step_nonneg iteration Hit). lra.
  - lra.
  - destruct (Rle_or_lt UNDERFLO (v - 0.23 / sqrt (IZR iteration))) as [Hle | Hlt];
      [exact Hle|].
    apply Rltb_lt in Hlt. congruence.
Qed.

Lemma update_p_vars iteration c :
  eps_pos_var (update_p iteration c) = eps_pos_var c
  /\ eps_neg_var (update_p iteration c) = eps_neg_var c
  /\ (p_vars_positive c -> p_vars_positive (update_p iteration c)).
Proof.
  unfold update_p, p_vars_positive.
  apply (for_loop_inv (fun _ c' =>
    eps_pos_var c' = eps_pos_var c /\ eps_neg_var c' = eps_neg_var c
    /\ (Forall (fun v => 0 < v) (p_prop_var c) ->
        Forall (fun v => 0 < v) (p_prop_var c')))).
  - auto.
  - intros j c' _ (Hp & Hn & Hv).
    destruct (update_p_locus_vars iteration j c') as (_ & Hp' & Hn' & Hv').
    cbv zeta in *. exact_arith.
    repeat split; try congruence.
    intros Hc. specialize (Hv Hc).
    destruct Hv' as [-> | ->]; apply Forall_insert; try exact Hv; apply exp_pos.
Qed.

End ExactVariances.

(** C4 (as the code has it). From iteration 1 on, after each of [update_p],
    [update_eps_pos] and [update_eps_neg] the two epsilon variances are still
    at or above UNDERFLO, and every allele-frequency scale [p_prop_var[j]] is
    still strictly positive. *)
Theorem variances_after_blocks `{Sampler R} (iteration : Z) (c : Chain) :
  (1 <= iteration)%Z ->
  eps_vars_floored c -> p_vars_positive c ->
  (eps_vars_floored (update_p iteration c)
   /\ p_vars_positive (update_p iteration c))
  /\ (eps_vars_floored (update_eps_pos iteration c)
      /\ p_vars_positive (update_eps_pos iteration c))
  /\ (eps_vars_floored (update_eps_neg iteration c)
      /\ p_vars_positive (update_eps_neg iteration c)).
Proof.
  intros Hit [Hpos Hneg] Hp. unfold eps_vars_floored, p_vars_positive in *.
  split; [|split].
  - destruct (update_p_vars iteration c) as (-> & -> & Hv).
    repeat split; try assumption. apply Hv, Hp.
  - destruct (update_eps_pos_vars iteration c) as (-> & -> & Hv).
    repeat split; try assumption.
    exact (floored_step (eps_pos_var c) _ iteration Hit Hpos Hv).
  - destruct (update_eps_neg_vars iteration c) as (-> & -> & Hv).
    repeat split; try assumption.
    exact (floored_step (eps_neg_var c) _ iteration Hit Hneg Hv).
Qed.

(** ** The one-cell chain, evaluated *)

Section OneCellExact.
Local Open Scope R_scope.

Lemma one_cell_reweight :
  reweight_allele_frequencies [0.01; 0.99] [1%Z; 0%Z] 0.01 0.01 = [0.5; 0.5].
Proof.
  rewrite reweight_allele_frequencies_shape.
  cbn [length seq map fold_left]. unfold reweight_raw. cbn [nth]. exact_arith.
  change (1 - 1)%Z with 0%Z. change (1 - 0)%Z with 1%Z.
  apply (f_equal2 cons); [lra | apply (f_equal2 cons); [lra | reflexivity]].
Qed.

Lemma one_cell_refresh :
  refresh_llik_new 0 0 1 [0.01; 0.99] 0.01 0.01 chain_proposed
  = set_llik_new [[proposal_llik]]
      (set_sampler (state_of tape_refreshed) chain_proposed).
Proof.
  unfold refresh_llik_new.
  cbn [params lookup genotyping_data sampler chain_proposed set_prop_p set_sampler
       chain_at_floor one_cell_data observed_alleles nth].
  match goal with |- context [calc_genotype_marginal_llik ?a ?b ?c ?d ?e ?f ?g ?h] =>
    pose proof (calc_genotype_marginal_llik_naive a b c d e f g h) as Hfst;
    assert (Hsnd : snd (calc_genotype_marginal_llik a b c d e f g h)
                   = state_of tape_refreshed) by reflexivity;
    destruct (calc_genotype_marginal_llik a b c d e f g h) as [l s]
  end.
  cbn [fst snd] in *. subst s. f_equal. cbn [llik_new chain_proposed set_prop_p
    set_sampler chain_at_floor]. unfold mset. cbn [nth]. cbn. do 2 f_equal.
  rewrite Hfst. clear Hfst.
  cbv zeta. rewrite one_cell_reweight.
  change (depth_of one_cell_params one_cell_lookup 1 [0.01; 0.99]) with 1%Z.
  change (Z.to_nat 1) with 1%nat.
  cbn [sample_genotype replay fst hd genotype_draws].
  unfold sum_over, Rsum. cbn [seq map fold_right]. unfold log_weight.
  rewrite obs_cell_exact, !log_pmf_cell_exact;
    try reflexivity; try (cbn; lia);
    try (repeat constructor; unfold is_call; lia).
  unfold obs_llik, multinomial_log_pmf, sum_over, Rsum, lgamma_of, emission,
    proposal_llik.
  cbn. rewrite Rplus_0_r. unfold Rdiv at 1. rewrite Rinv_1, Rmult_1_r, ln_exp.
  lra.
Qed.

Lemma ln_quotient (a b : R) : 0 < a -> 0 < b -> ln (a / b) = ln a - ln b.
Proof.
  intros Ha Hb. unfold Rdiv.
  rewrite ln_mult, ln_Rinv by (try apply Rinv_0_lt_compat; assumption). lra.
Qed.

Lemma ln_monotone (a b : R) : 0 < a -> a <= b -> ln a <= ln b.
Proof.
  intros Ha [Hlt | ->]; [|lra]. apply Rlt_le, ln_increasing; assumption.
Qed.

Lemma proposal_llik_low : proposal_llik < -1.
Proof.
  unfold proposal_llik.
  assert (H1 : ln (1 - 0.01) < 0).
  { rewrite <- ln_1. apply ln_increasing; lra. }
  assert (H2 : ln (0.01 + 1e-12) - ln (0.5 + 1e-12) <= -1).
  { rewrite <- ln_quotient by lra.
    assert (H3 : 1 <= ln 3).
    { rewrite <- (ln_exp 1). apply ln_monotone; [apply exp_pos | apply exp_le_3]. }
    assert (H4 : ln ((0.01 + 1e-12) / (0.5 + 1e-12)) < ln (/ 3)).
    { apply ln_increasing.
      - apply Rdiv_lt_0_compat; lra.
      - apply Rmult_lt_reg_r with (r := 0.5 + 1e-12); [lra|].
        unfold Rdiv. rewrite Rmult_assoc, Rinv_l by lra. lra. }
    rewrite ln_Rinv in H4 by lra. lra. }
  lra.
Qed.

Lemma shrunk_below (v b : R) : 0 < v -> 0 < b -> exp (ln v - b) < v.
Proof.
  intros Hv Hb. unfold Rminus. rewrite exp_plus, exp_ln by exact Hv.
  assert (exp (- b) < 1).
  { rewrite <- exp_0. apply exp_increasing. lra. }
  nra.
Qed.

Lemma update_p_at_floor :
  p_prop_var (update_p 1 chain_at_floor) = [exp (ln 1e-100 - 0.23 / sqrt 1)].
Proof.
  unfold update_p. cbn [genotyping_data chain_at_floor num_loci one_cell_data].
  rewrite for_loop_S, for_loop_0.
  unfold update_p_locus.
  cbn -[refresh_llik_new for_loop Rplus Rminus Rmult Rdiv Rinv exp ln sqrt IZR Rltb Rleb].
  rewrite for_loop_S, for_loop_0.
  cbn -[refresh_llik_new for_loop Rplus Rminus Rmult Rdiv Rinv exp ln sqrt IZR Rltb Rleb].
  change (set_prop_p [0.01; 0.99] (set_sampler _ chain_at_floor)) with chain_proposed.
  rewrite one_cell_refresh.
  cbn -[for_loop Rplus Rminus Rmult Rdiv Rinv exp ln sqrt IZR Rltb Rleb].
  assert (Hrej : Rleb (-1) (0 + proposal_llik - (0 + 0)) = false).
  { destruct (Rleb (-1) (0 + proposal_llik - (0 + 0))) eqn:E; [|reflexivity].
    apply Rleb_le in E. pose proof proposal_llik_low. lra. }
  rewrite Hrej. reflexivity.
Qed.

End OneCellExact.

(** C4, the statement as the specification has it, fails for [update_p]:
    the chain [chain_at_floor] has every variance at or above UNDERFLO, the
    block rejects its proposal, and [p_prop_var[0]] ends below UNDERFLO. *)
Lemma p_prop_var_falls_below_floor :
  (1 <= 1)%Z /\
  variances_floored chain_at_floor /\
  ~ variances_floored (update_p 1 chain_at_floor).
Proof.
  split; [lia|]. split.
  - unfold variances_floored.
    cbn [p_prop_var eps_pos_var eps_neg_var chain_at_floor]. exact_arith.
    repeat split; try lra. apply List.Forall_cons; [lra | apply List.Forall_nil].
  - unfold variances_floored. rewrite update_p_at_floor. intros [Hp _].
    inversion Hp as [|? ? Hhd _]; subst. exact_arith.
    assert (Hlt : (exp (ln 1e-100 - 0.23 / sqrt 1) < 1e-100)%R).
    { apply shrunk_below; [lra|]. rewrite sqrt_1. lra. }
    lra.
Qed.

(** ** The estimator, statement by statement *)

(** C1. With D = min(importance_sampling_depth, sampling_depth[c][A]) and
    g(1..D) the draws the sampler supplies for the reweighted proposal q,
    [calc_genotype_marginal_llik] returns
    log((1/D) * sum_d exp(log P(obs|g(d)) + log pmf_p(g(d)) - log pmf_q(g(d)))). *)
Theorem calc_genotype_marginal_llik_estimate `{Sampler R}
    (params : Parameters R) (lookup : Lookup R) (obs : list Z) (coi : Z)
    (freq : list R) (eps_neg eps_pos : R) (s : rng) :
  let depth := depth_of params lookup coi freq in
  let q := reweight_allele_frequencies freq obs eps_neg eps_pos in
  let gs := draws_of params lookup obs coi freq eps_neg eps_pos s in
  (1 <= coi)%Z ->
  lgamma_of lookup 1 = 0%R ->
  Forall is_call obs -> length obs = length freq ->
  draws_well_formed depth (length freq) gs ->
  fst (calc_genotype_marginal_llik params lookup obs coi freq eps_neg eps_pos s)
  = ln ((1 / IZR depth)
        * sum_over (Z.to_nat depth) (fun d =>
            exp (obs_llik eps_neg eps_pos obs (nth d gs [])
                 + multinomial_log_pmf (lgamma_of lookup) coi (nth d gs []) freq
                 - multinomial_log_pmf (lgamma_of lookup) coi (nth d gs []) q)))%R.
Proof.
  intros depth q gs _ Hlg1 Hobs Hlen [Hdepth Hgs].
  rewrite calc_genotype_marginal_llik_naive.
  subst gs. unfold draws_of in *. fold depth in Hdepth, Hgs |- *.
  fold q in Hdepth, Hgs |- *.
  set (gs := fst (sample_genotype coi q depth s)) in Hdepth, Hgs |- *.
  f_equal. unfold Rdiv. rewrite Rmult_1_l, Rmult_comm. f_equal.
  apply sum_over_ext. intros d Hd. f_equal.
  destruct (Hgs d Hd) as [Hlen_d Hnonneg].
  unfold log_weight.
  rewrite obs_cell_exact; [|assumption|assumption|lia|assumption|assumption].
  rewrite !log_pmf_cell_exact by assumption.
  reflexivity.
Qed.

(** C2 (as the code has it). The kernel adds the exponentials of the
    per-draw log weights as they are; no maximum is taken out first.  In
    exact arithmetic, for a depth D >= 1, what it returns equals the
    log-sum-exp form  max + log(sum_d exp(w_d - max)) - log D. *)
Theorem calc_genotype_marginal_llik_log_sum_exp `{Sampler R}
    (params : Parameters R) (lookup : Lookup R) (obs : list Z) (coi : Z)
    (freq : list R) (eps_neg eps_pos : R) (s : rng) :
  let depth := depth_of params lookup coi freq in
  let q := reweight_allele_frequencies freq obs eps_neg eps_pos in
  let gs := draws_of params lookup obs coi freq eps_neg eps_pos s in
  (1 <= depth)%Z ->
  fst (calc_genotype_marginal_llik params lookup obs coi freq eps_neg eps_pos s)
  = (log_sum_exp (map (log_weight lookup obs coi freq q eps_neg eps_pos gs depth)
                      (seq 0 (Z.to_nat depth)))
     - ln (IZR depth))%R.
Proof.
  intros depth q gs Hdepth.
  rewrite calc_genotype_marginal_llik_naive.
  subst gs. unfold draws_of. fold depth. fold q.
  set (w := log_weight lookup obs coi freq q eps_neg eps_pos
              (fst (sample_genotype coi q depth s)) depth).
  assert (Hne : map w (seq 0 (Z.to_nat depth)) <> []).
  { intros E. apply (f_equal (@length R)) in E.
    rewrite length_map, length_seq in E. cbn in E. lia. }
  rewrite log_sum_exp_naive by exact Hne.
  rewrite map_map. fold (sum_over (Z.to_nat depth) (fun d => exp (w d))).
  apply ln_quotient.
  - apply sum_over_pos; [lia|]. intros d _. apply exp_pos.
  - apply IZR_lt. lia.
Qed.

(** ** Construction on a locus without any observed allele *)

Section DegenerateLocus.
Context {D : Type} `{Double D} `{Sampler D}.
Local Open Scope dbl_scope.

Lemma nth_all_zero v k : all_zero v -> nth k v 0%Z = 0%Z.
Proof.
  intros Hv. destruct (Nat.lt_ge_cases k (length v)) as [Hk | Hk].
  - apply (proj1 (List.Forall_nth _ _) Hv). exact Hk.
  - apply nth_overflow. exact Hk.
Qed.

Lemma nth_insert_row (P : list Z -> Prop) (l : list (list Z)) i x :
  P (nth i l []) -> P x -> P (nth i (<[i := x]> l) []).
Proof.
  intros Hold Hnew. destruct (Nat.lt_ge_cases i (length l)) as [Hi | Hi].
  - rewrite nth_insert_eq by exact Hi. exact Hnew.
  - rewrite list_insert_ge by exact Hi. exact Hold.
Qed.

Lemma nth_insert_cell (l : list Z) i x :
  nth i l 0%Z = 0%Z -> x = 0%Z -> nth i (<[i := x]> l) 0%Z = 0%Z.
Proof.
  intros Hold Hnew. destruct (Nat.lt_ge_cases i (length l)) as [Hi | Hi].
  - rewrite nth_insert_eq by exact Hi. exact Hnew.
  - rewrite list_insert_ge by exact Hi. exact Hold.
Qed.

(** The counting loops write cell [i] of both vectors only, and on
    observations that are all zero they leave only zeros there. *)
Lemma count_alleles_zero i obs tla ta :
  Forall all_zero obs ->
  all_zero (nth i tla []) -> nth i ta 0%Z = 0%Z ->
  let r := count_alleles i obs (tla, ta) in
  all_zero (nth i (fst r) []) /\ nth i (snd r) 0%Z = 0%Z.
Proof.
  intros Hobs Htla Hta. unfold count_alleles. cbv zeta.
  apply (for_loop_inv (fun _ r =>
    all_zero (nth i (fst r) []) /\ nth i (snd r) 0%Z = 0%Z)).
  - split; assumption.
  - intros j acc Hj Hacc.
    assert (Hsample : all_zero (nth j obs [])).
    { apply (proj1 (List.Forall_nth _ _) Hobs). exact Hj. }
    apply (for_loop_inv (fun _ r =>
      all_zero (nth i (fst r) []) /\ nth i (snd r) 0%Z = 0%Z)); [exact Hacc|].
    intros k [tla' ta'] _ [Hrow Htot]. cbn [fst snd] in *.
    rewrite (nth_all_zero _ k Hsample), !Z.add_0_r.
    assert (Hpushed : all_zero
      (nth i (if (j =? 0)%nat then <[i := nth i tla' [] ++ [0%Z]]> tla' else tla') [])).
    { destruct (j =? 0)%nat; [|exact Hrow].
      apply nth_insert_row; [exact Hrow|].
      apply Forall_app. split; [exact Hrow | repeat constructor]. }
    split.
    + unfold mset, mget. apply nth_insert_row; [exact Hpushed|].
      apply Forall_insert; [exact Hpushed|].
      apply nth_all_zero. exact Hpushed.
    + apply nth_insert_cell; [exact Htot | exact Htot].
Qed.

Lemma count_alleles_frame i obs tla ta i' :
  i' <> i ->
  let r := count_alleles i obs (tla, ta) in
  nth i' (fst r) [] = nth i' tla [] /\ nth i' (snd r) 0%Z = nth i' ta 0%Z.
Proof.
  intros Hne. unfold count_alleles. cbv zeta.
  apply (for_loop_inv (fun _ r =>
    nth i' (fst r) [] = nth i' tla [] /\ nth i' (snd r) 0%Z = nth i' ta 0%Z)).
  - split; reflexivity.
  - intros j acc _ Hacc.
    apply (for_loop_inv (fun _ r =>
      nth i' (fst r) [] = nth i' tla [] /\ nth i' (snd r) 0%Z = nth i' ta 0%Z));
      [exact Hacc|].
    intros k [tla' ta'] _ [Hrow Htot]. cbn [fst snd] in *. unfold mset. split.
    + rewrite nth_insert_ne by congruence.
      destruct (j =? 0)%nat; [rewrite nth_insert_ne by congruence|]; exact Hrow.
    + rewrite nth_insert_ne by congruence. exact Htot.
Qed.

(** The loop that writes row [i] of [p]. *)
Lemma write_row_loop n i (v : nat -> D) (c : Chain) :
  (i < length (p c))%nat ->
  for_loop n (fun j c => set_p (mset (p c) i j (v j)) c) c
  = set_p (<[i := for_loop n (fun j row => <[j := v j]> row) (nth i (p c) [])]> (p c)) c.
Proof.
  intros Hi. induction n as [|n IH].
  - rewrite !for_loop_0. rewrite list_insert_id.
    + destruct c; reflexivity.
    + destruct (nth_lookup_or_length (p c) i []) as [E|E]; [exact E | lia].
  - rewrite !for_loop_S, IH. unfold mset. cbn [p set_p].
    rewrite nth_insert_eq by exact Hi. rewrite list_insert_insert_eq.
    reflexivity.
Qed.

Lemma constant_row_loop n (x : D) (v : nat -> D) :
  (forall j, v j = x) ->
  for_loop n (fun j row => <[j := v j]> row) (replicate n #0) = replicate n x.
Proof.
  intros Hv.
  destruct (pointwise_loop #0 (fun j _ => v j)
              (fun j row => <[j := v j]> row) n (replicate n #0))
    as [Hlen Hcell].
  - rewrite length_replicate. lia.
  - reflexivity.
  - rewrite length_replicate in Hlen. apply (nth_eq #0).
    + rewrite Hlen, length_replicate. reflexivity.
    + intros j Hj. rewrite Hcell.
      destruct (Nat.ltb_spec j n); [|lia].
      rewrite nth_replicate by lia. apply Hv.
Qed.

(** On a locus whose observations are all zero, [initialize_p] divides a
    zero count by a zero total in every cell of the row. *)
Lemma initialize_p_degenerate (c : Chain) (i : nat) :
  p c = [] ->
  (i < num_loci (genotyping_data c))%nat ->
  Forall all_zero (nth i (observed_alleles (genotyping_data c)) []) ->
  nth i (p (initialize_p c)) []
  = replicate (Z.to_nat (nth i (num_alleles (genotyping_data c)) 0%Z)) (#0 / #0).
Proof.
  intros Hp Hi Hzero. unfold initialize_p. cbv zeta.
  change (genotyping_data (set_p_accept _ c)) with (genotyping_data c).
  set (gd := genotyping_data c) in *.
  match goal with |- context [for_loop (num_loci gd) ?b ?st] =>
    pose (n := num_loci gd);
    assert (Inv : let r := for_loop n b st in
      length (p (snd r)) = n /\
      (forall i', (n <= i')%nat ->
         all_zero (nth i' (fst (fst r)) []) /\ nth i' (snd (fst r)) 0%Z = 0%Z) /\
      ((i < n)%nat ->
         nth i (p (snd r)) []
         = replicate (Z.to_nat (nth i (num_alleles gd) 0%Z)) (#0 / #0)));
    [ apply (for_loop_inv (fun k r =>
        length (p (snd r)) = k /\
        (forall i', (k <= i')%nat ->
           all_zero (nth i' (fst (fst r)) []) /\ nth i' (snd (fst r)) 0%Z = 0%Z) /\
        ((i < k)%nat ->
           nth i (p (snd r)) []
           = replicate (Z.to_nat (nth i (num_alleles gd) 0%Z)) (#0 / #0))) n b st)
    | subst n; destruct (for_loop (num_loci gd) b st) as [[tla ta] c'];
      cbn [fst snd] in Inv; apply Inv; exact Hi ]
  end.
  - cbn [fst snd p set_p_accept]. rewrite Hp. split; [reflexivity|]. split; [|lia].
    intros i' _. split.
    + destruct (Nat.lt_ge_cases i' (num_loci gd)) as [Hlt | Hge].
      * rewrite nth_replicate by exact Hlt. constructor.
      * rewrite nth_overflow by (rewrite length_replicate; exact Hge). constructor.
    + destruct (Nat.lt_ge_cases i' (num_loci gd)) as [Hlt | Hge].
      * rewrite nth_replicate by exact Hlt. reflexivity.
      * rewrite nth_overflow by (rewrite length_replicate; exact Hge). reflexivity.
  - intros k [[tla ta] c'] Hk (Hlen & Hcells & Hrow). cbn [fst snd] in *.
    set (n_k := Z.to_nat (nth k (num_alleles gd) 0%Z)).
    set (tla1 := tla ++ [replicate n_k 0%Z]).
    set (ta1 := ta ++ [0%Z]).
    assert (Hcells1 : forall i', (k <= i')%nat ->
              all_zero (nth i' tla1 []) /\ nth i' ta1 0%Z = 0%Z).
    { intros i' Hi'. subst tla1 ta1. split.
      - destruct (Nat.lt_ge_cases i' (length tla)) as [Hlt | Hge].
        + rewrite app_nth1 by assumption. apply Hcells. exact Hi'.
        + rewrite app_nth2 by assumption.
          destruct (i' - length tla)%nat as [|[|?]]; cbn;
            [apply Forall_replicate; reflexivity | constructor | constructor].
      - destruct (Nat.lt_ge_cases i' (length ta)) as [Hlt | Hge].
        + rewrite app_nth1 by assumption. apply Hcells. exact Hi'.
        + rewrite app_nth2 by assumption.
          destruct (i' - length ta)%nat as [|[|?]]; reflexivity. }
    fold (count_alleles k (nth k (observed_alleles gd) []) (tla1, ta1)).
    pose proof (count_alleles_frame k (nth k (observed_alleles gd) []) tla1 ta1)
      as Hframe.
    pose proof (count_alleles_zero k (nth k (observed_alleles gd) []) tla1 ta1)
      as Hcount.
    destruct (count_alleles k (nth k (observed_alleles gd) []) (tla1, ta1))
      as [tla2 ta2]. cbn [fst snd] in *.
    rewrite write_row_loop by (cbn [p set_p]; rewrite length_app; cbn; lia).
    cbn [fst snd p set_p].
    rewrite length_insert, length_app. cbn [length].
    split; [lia|]. split.
    + intros i' Hi'. destruct (Hframe i' ltac:(lia)) as [-> ->].
      apply Hcells1. lia.
    + intros Hik.
      destruct (Nat.eq_dec i k) as [-> | Hne].
      * rewrite nth_insert_eq by (rewrite length_app; cbn; lia).
        rewrite app_nth2 by lia. rewrite Hlen, Nat.sub_diag. cbn [nth].
        destruct Hcount as [Hz Ht];
          [exact Hzero | apply Hcells1; lia | apply Hcells1; lia |].
        apply constant_row_loop. intros j. unfold mget.
        rewrite (nth_all_zero _ j Hz), Ht. reflexivity.
      * rewrite nth_insert_ne by congruence.
        rewrite app_nth1 by lia. apply Hrow. lia.
Qed.

End DegenerateLocus.

Section ConstructionFrames.
Context {D : Type} `{Double D} `{Sampler D}.

Lemma initialize_likelihood_p (c : Chain) : p (initialize_likelihood c) = p c.
Proof.
  unfold initialize_likelihood. cbv zeta.
  apply (for_loop_inv (fun _ c' => p c' = p c)); [reflexivity|].
  intros j c' _ Hc'.
  apply (for_loop_inv (fun _ c'' => p c'' = p c)); [exact Hc'|].
  intros i c'' _ Hc''.
  destruct (calc_genotype_marginal_llik _ _ _ _ _ _ _ _) as [l s]. exact Hc''.
Qed.

Lemma Chain_new_p gd lk ps :
  exists c0 : Chain,
    p c0 = [] /\ genotyping_data c0 = gd /\
    p (Chain_new gd lk ps) = p (initialize_p c0).
Proof.
  unfold Chain_new. cbv zeta. eexists. split; [|split].
  3: { rewrite initialize_likelihood_p. cbn [p initialize_eps_pos initialize_eps_neg
         initialize_m set_eps_pos_accept set_eps_pos set_eps_neg_accept set_eps_neg
         set_m_accept set_m]. reflexivity. }
  - reflexivity.
  - reflexivity.
Qed.

End ConstructionFrames.

(** ** Binary64: underflow and NaN *)

Module Binary64Facts.
Import Floats Binary64 Binary64Inputs.
Local Open Scope float_scope.
Set Warnings "-inexact-float".

(** The modelled [exp] and [log] at the ends of the range, and against the
    correctly rounded values of e and ln 10. *)
Example exp_at_the_ends :
  exp 0 = 1 /\ exp (-746) = 0 /\ exp neg_infinity = 0 /\ exp 710 = infinity.
Proof. repeat split; vm_compute; reflexivity. Qed.

Example log_at_the_ends :
  log 1 = 0 /\ log 0 = neg_infinity /\ log infinity = infinity
  /\ is_nan (log (-1)) = true.
Proof. repeat split; vm_compute; reflexivity. Qed.

Example exp_log_accuracy :
  (abs (exp 1 - 0x1.5bf0a8b145769p+1) <=? 0x1p-51) = true
  /\ (abs (log 10 - 0x1.26bb1bbb55516p+1) <=? 0x1p-51) = true.
Proof. split; vm_compute; reflexivity. Qed.

(** The same cell at the usual rates (0.01) and with the observed allele
    drawn: the estimate is an ordinary number, about -0.684. *)
Example kernel_at_usual_rates :
  let l := fst (@calc_genotype_marginal_llik float F64_Double replaying
                  one_cell_settings one_cell_lookup [1%Z; 0%Z] 1 [0.5; 0.5]
                  0.01 0.01
                  {| coi_deltas := []; frequency_draws := []; epsilon_draws := [];
                     genotype_draws := [[[1%Z; 0%Z]]]; log_uniform_draws := [] |}) in
  (-0.685 <? l) = true /\ (l <? -0.683) = true.
Proof. split; vm_compute; reflexivity. Qed.

(** C2, the statement as the specification has it, fails: on this input
    the only log weight is finite (about -908.6), its exponential underflows
    to +0, and the kernel returns the logarithm of 0/1, which is -infinity
    and not the largest log weight minus log D. *)
Lemma naive_sum_underflows :
  finite underflowing_weight = true
  /\ underflowing_call = neg_infinity
  /\ (underflowing_call =? underflowing_weight - log (of_int 1)) = false.
Proof.
  repeat split; vm_compute; reflexivity.
Qed.

(** *** A locus without any observed allele *)

Lemma row_sum_nan n : (0 < n)%nat -> row_sum (replicate n nan) = nan.
Proof.
  intros Hn. unfold row_sum.
  assert (G : forall k acc, (acc = 0 \/ acc = nan) ->
            fold_left PrimFloat.add (replicate (S k) nan) acc = nan).
  { induction k as [|k IH]; intros acc [-> | ->]; cbn [replicate fold_left].
    - reflexivity.
    - reflexivity.
    - apply IH. right. reflexivity.
    - apply IH. right. reflexivity. }
  destruct n as [|n]; [lia|]. apply G. left. reflexivity.
Qed.

(** C9. When every sample's observation at locus [i] is all zeros, the
    chain is constructed all the same, and row [i] of its [p] holds 0/0 =
    NaN in every entry: the row is not a simplex (its sum is NaN, and no
    entry compares as >= 0). *)
Theorem Chain_new_nan_frequencies `{Sampler float}
    (data : GenotypingData) (tables : Lookup float)
    (settings : Parameters float) (i : nat) :
  let alleles := Z.to_nat (nth i (num_alleles data) 0%Z) in
  let row := nth i (p (Chain_new data tables settings)) [] in
  (i < num_loci data)%nat ->
  (2 <= alleles)%nat ->
  nth i (observed_alleles data) [] <> [] ->
  Forall (fun g => length g = alleles /\ all_zero g)
         (nth i (observed_alleles data) []) ->
  row = replicate alleles nan
  /\ is_nan (row_sum row) = true
  /\ Forall (fun x => (0 <=? x) = false) row
  /\ is_simplex row = false.
Proof.
  intros alleles row Hi Halleles _ Hzero.
  assert (Hrow : row = replicate alleles nan).
  { subst row. destruct (Chain_new_p data tables settings) as (c0 & Hp0 & Hgd & ->).
    subst alleles. rewrite <- Hgd in *.
    rewrite initialize_p_degenerate; [reflexivity | exact Hp0 | exact Hi |].
    eapply Forall_impl; [exact Hzero|]. intros g [_ Hg]. exact Hg. }
  assert (Hsum : row_sum row = nan) by (rewrite Hrow; apply row_sum_nan; lia).
  repeat split.
  - exact Hrow.
  - rewrite Hsum. reflexivity.
  - rewrite Hrow. apply Forall_replicate. reflexivity.
  - unfold is_simplex. rewrite Hsum. reflexivity.
Qed.

Lemma Chain_new_nan_frequencies_witness :
  let row := nth 0 (p (@Chain_new float F64_Double replaying
                         nothing_observed one_cell_lookup one_cell_settings)) [] in
  row = replicate 2 nan
  /\ is_nan (row_sum row) = true
  /\ Forall (fun x => (0 <=? x) = false) row
  /\ is_simplex row = false.
Proof.
  apply (@Chain_new_nan_frequencies replaying nothing_observed one_cell_lookup
           one_cell_settings 0%nat).
  - cbn. lia.
  - cbn. lia.
  - cbn. discriminate.
  - cbn. repeat constructor.
Defined.

End Binary64Facts.

(** ** The theorems at a concrete input *)

Section Witnesses.
Local Open Scope R_scope.

Lemma calc_obs_genotype_lliks_emission_witness :
  nth 0 (calc_obs_genotype_lliks [1%Z; 0%Z] [[1%Z; 0%Z]] 0.01 0.01 1) 0
  = obs_llik 0.01 0.01 [1%Z; 0%Z] [1%Z; 0%Z].
Proof.
  apply (calc_obs_genotype_lliks_emission [1%Z; 0%Z] [[1%Z; 0%Z]] 0.01 0.01 1 0).
  - lra.
  - lra.
  - cbn. lia.
  - cbn. lia.
  - reflexivity.
  - repeat constructor; unfold is_call; lia.
  - cbn. repeat constructor; lia.
Defined.

Lemma calc_genotype_log_pmf_multinomial_witness :
  nth 0 (calc_genotype_log_pmf one_cell_lookup [[1%Z; 0%Z]] 1 [0.5; 0.5] 1) 0
  = multinomial_log_pmf (lgamma_of one_cell_lookup) 1 [1%Z; 0%Z] [0.5; 0.5].
Proof.
  apply (calc_genotype_log_pmf_multinomial one_cell_lookup [[1%Z; 0%Z]] 1
           [0.5; 0.5] 1 0).
  - reflexivity.
  - cbn. lia.
  - reflexivity.
  - cbn. repeat constructor; lia.
Defined.

Lemma reweight_allele_frequencies_simplex_witness :
  let q := reweight_allele_frequencies [0.5; 0.5] [1%Z; 0%Z] 0.01 0.01 in
  length q = 2%nat /\ Rsum q = 1 /\ Forall (fun x => 0 < x) q.
Proof.
  apply (reweight_allele_frequencies_simplex [0.5; 0.5] [1%Z; 0%Z] 0.01 0.01).
  - discriminate.
  - reflexivity.
  - apply List.Forall_cons; [lra|]. apply List.Forall_cons; [lra|]. apply List.Forall_nil.
  - repeat constructor; unfold is_call; lia.
  - lra.
  - lra.
Defined.

Lemma update_m_coi_bounds_witness :
  (1 <= nth 0 (m (update_m 1 chain_at_floor)) 0
     <= max_coi (params (update_m 1 chain_at_floor)))%Z
  /\ (forall k,
        proposed_coi k chain_at_floor <> nth k (m chain_at_floor) 0%Z ->
        ~ (1 <= proposed_coi k chain_at_floor <= max_coi (params chain_at_floor))%Z ->
        update_m_sample 1 k chain_at_floor
        = set_sampler
            (snd (sample_coi_delta (nth k (m_prop_mean chain_at_floor) (d_of_int 0))
                                   (sampler chain_at_floor)))
            chain_at_floor).
Proof.
  apply (@update_m_coi_bounds R R_Double rejecting 1 chain_at_floor 0).
  cbn. lia.
Defined.

Lemma update_eps_out_of_range_witness :
  update_eps_pos 1 chain_at_floor
  = set_sampler (snd (sample_epsilon_pos (eps_pos chain_at_floor)
                        (eps_pos_var chain_at_floor) (sampler chain_at_floor)))
      chain_at_floor
  /\ update_eps_neg 1 chain_at_floor
     = set_sampler (snd (sample_epsilon_neg (eps_neg chain_at_floor)
                           (eps_neg_var chain_at_floor) (sampler chain_at_floor)))
         chain_at_floor.
Proof.
  destruct (@update_eps_out_of_range rejecting 1 chain_at_floor) as [Hpos Hneg].
  split.
  - apply Hpos. cbn [fst sample_epsilon_pos rejecting replay hd epsilon_draws
      sampler chain_at_floor state_of rejecting_tape]. lra.
  - apply Hneg. cbn [fst sample_epsilon_neg rejecting replay hd epsilon_draws
      sampler chain_at_floor state_of rejecting_tape]. lra.
Defined.

Lemma variances_after_blocks_witness :
  (eps_vars_floored (update_p 1 chain_at_floor)
   /\ p_vars_positive (update_p 1 chain_at_floor))
  /\ (eps_vars_floored (update_eps_pos 1 chain_at_floor)
      /\ p_vars_positive (update_eps_pos 1 chain_at_floor))
  /\ (eps_vars_floored (update_eps_neg 1 chain_at_floor)
      /\ p_vars_positive (update_eps_neg 1 chain_at_floor)).
Proof.
  apply (@variances_after_blocks rejecting 1 chain_at_floor).
  - lia.
  - unfold eps_vars_floored. cbn [eps_pos_var eps_neg_var chain_at_floor].
    exact_arith. lra.
  - unfold p_vars_positive. cbn [p_prop_var chain_at_floor].
    apply List.Forall_cons; [lra | apply List.Forall_nil].
Defined.

Lemma one_cell_depth (freq : list R) :
  length freq = 2%nat -> depth_of one_cell_params one_cell_lookup 1 freq = 1%Z.
Proof.
  intros Hlen. unfold depth_of. rewrite Hlen. reflexivity.
Qed.

Lemma calc_genotype_marginal_llik_estimate_witness :
  let q := reweight_allele_frequencies [0.5; 0.5] [1%Z; 0%Z] 0.01 0.01 in
  fst (calc_genotype_marginal_llik one_cell_params one_cell_lookup
         [1%Z; 0%Z] 1 [0.5; 0.5] 0.01 0.01 (state_of tape_proposed))
  = ln ((1 / IZR 1)
        * sum_over 1 (fun d =>
            exp (obs_llik 0.01 0.01 [1%Z; 0%Z] (nth d [[1%Z; 0%Z]] [])
                 + multinomial_log_pmf (lgamma_of one_cell_lookup) 1
                     (nth d [[1%Z; 0%Z]] []) [0.5; 0.5]
                 - multinomial_log_pmf (lgamma_of one_cell_lookup) 1
                     (nth d [[1%Z; 0%Z]] []) q))).
Proof.
  apply (@calc_genotype_marginal_llik_estimate rejecting one_cell_params
           one_cell_lookup [1%Z; 0%Z] 1 [0.5; 0.5] 0.01 0.01 (state_of tape_proposed)).
  - lia.
  - reflexivity.
  - repeat constructor; unfold is_call; lia.
  - reflexivity.
  - rewrite one_cell_depth by reflexivity. split.
    + cbn. lia.
    + intros d Hd. assert (d = 0%nat) as -> by (cbn in Hd; lia).
      split; [reflexivity|]. cbn. repeat constructor; lia.
Defined.

Lemma calc_genotype_marginal_llik_log_sum_exp_witness :
  let q := reweight_allele_frequencies [0.5; 0.5] [1%Z; 0%Z] 0.01 0.01 in
  fst (calc_genotype_marginal_llik one_cell_params one_cell_lookup
         [1%Z; 0%Z] 1 [0.5; 0.5] 0.01 0.01 (state_of tape_proposed))
  = log_sum_exp
      (map (log_weight one_cell_lookup [1%Z; 0%Z] 1 [0.5; 0.5] q 0.01 0.01
              [[1%Z; 0%Z]] 1)
           (seq 0 1))
    - ln (IZR 1).
Proof.
  apply (@calc_genotype_marginal_llik_log_sum_exp rejecting one_cell_params
           one_cell_lookup [1%Z; 0%Z] 1 [0.5; 0.5] 0.01 0.01 (state_of tape_proposed)).
  rewrite one_cell_depth by reflexivity. lia.
Defined.

End Witnesses.

(** * Further properties of the code *)

(** Reading a member of a chain after assignments. *)
Ltac chain_fields :=
  cbn [genotyping_data lookup params sampler llik llik_old llik_new m p
       eps_pos eps_neg prop_p m_accept p_accept eps_pos_accept eps_neg_accept
       m_prop_mean p_prop_var eps_pos_var eps_neg_var
       set_sampler set_llik set_llik_old set_llik_new set_m set_p set_eps_pos
       set_eps_neg set_prop_p set_m_accept set_p_accept set_eps_pos_accept
       set_eps_neg_accept set_m_prop_mean set_p_prop_var set_eps_pos_var
       set_eps_neg_var] in *.

(** ** Construction: the empirical frequencies *)

Section EmpiricalFrequencies.
Context {D : Type} `{Double D} `{Sampler D}.
Local Open Scope dbl_scope.

Lemma Zsum_app l1 l2 : Zsum (l1 ++ l2) = (Zsum l1 + Zsum l2)%Z.
Proof.
  unfold Zsum. induction l1 as [|x l1 IH]; cbn [app fold_right]; lia.
Qed.

Lemma Zsum_take_S (g : list Z) k :
  (k < length g)%nat -> Zsum (take (S k) g) = (Zsum (take k g) + nth k g 0)%Z.
Proof.
  intros Hk.
  destruct (nth_lookup_or_length g k 0%Z) as [E | E]; [|lia].
  rewrite (take_S_r _ _ _ E), Zsum_app. cbn. lia.
Qed.

(** The counting loop over the first sample of a locus: the row of counts
    is built by [push_back], one cell per allele. *)
Lemma count_first_sample i (g : list Z) tla ta :
  (i < length tla)%nat -> (i < length ta)%nat ->
  nth i tla [] = [] ->
  let r := for_loop (length g) (count_step i 0 g) (tla, ta) in
  length (fst r) = length tla /\ length (snd r) = length ta /\
  nth i (fst r) [] = g /\ nth i (snd r) 0%Z = (nth i ta 0 + Zsum g)%Z.
Proof.
  intros Hi Hi' Hrow. cbv zeta.
  assert (G : forall n, (n <= length g)%nat ->
    let r := for_loop n (count_step i 0 g) (tla, ta) in
    length (fst r) = length tla /\ length (snd r) = length ta /\
    nth i (fst r) [] = take n g
    /\ nth i (snd r) 0%Z = (nth i ta 0 + Zsum (take n g))%Z).
  { induction n as [|n IH]; intros Hn; cbv zeta.
    - rewrite for_loop_0. cbn [fst snd]. rewrite Hrow.
      change (take 0 g) with (@nil Z). unfold Zsum. cbn [fold_right].
      repeat split; try reflexivity; lia.
    - rewrite for_loop_S. specialize (IH ltac:(lia)). cbv zeta in IH.
      destruct (for_loop n (count_step i 0 g) (tla, ta)) as [tla' ta'].
      cbn [fst snd] in *. destruct IH as (Hl & Hl' & Hr & Ht).
      unfold count_step. cbn [Nat.eqb fst snd]. unfold mset, mget.
      rewrite !length_insert.
      rewrite (nth_insert_eq [] tla') by lia.
      rewrite list_insert_insert_eq.
      rewrite (nth_insert_eq [] tla') by lia.
      rewrite (nth_insert_eq 0%Z ta') by lia.
      rewrite Hr, Ht, Zsum_take_S by lia.
      repeat split; try lia.
      assert (Hlen : length (take n g) = n) by (rewrite length_take; lia).
      rewrite app_nth2 by lia. rewrite Hlen, Nat.sub_diag. cbn [nth].
      rewrite insert_app_r_alt by lia. rewrite Hlen, Nat.sub_diag. cbn.
      destruct (nth_lookup_or_length g n 0%Z) as [E' | E']; [|lia].
      rewrite (take_S_r _ _ _ E'). reflexivity. }
  specialize (G (length g) ltac:(lia)). cbv zeta in G.
  rewrite firstn_all in G. exact G.
Qed.

(** The counting loop over a later sample: the cells of the row are added
    to in place. *)
Lemma count_later_sample i j (g : list Z) tla ta :
  j <> 0%nat ->
  (i < length tla)%nat -> (i < length ta)%nat ->
  length (nth i tla []) = length g ->
  let r := for_loop (length g) (count_step i j g) (tla, ta) in
  length (fst r) = length tla /\ length (snd r) = length ta /\
  length (nth i (fst r) []) = length g /\
  (forall a, nth a (nth i (fst r) []) 0%Z = (nth a (nth i tla []) 0 + nth a g 0)%Z) /\
  nth i (snd r) 0%Z = (nth i ta 0 + Zsum g)%Z.
Proof.
  intros Hj Hi Hi' Hrow. cbv zeta.
  assert (G : forall n, (n <= length g)%nat ->
    let r := for_loop n (count_step i j g) (tla, ta) in
    length (fst r) = length tla /\ length (snd r) = length ta /\
    length (nth i (fst r) []) = length g /\
    (forall a, nth a (nth i (fst r) []) 0%Z
               = if (a <? n)%nat then (nth a (nth i tla []) 0 + nth a g 0)%Z
                 else nth a (nth i tla []) 0%Z) /\
    nth i (snd r) 0%Z = (nth i ta 0 + Zsum (take n g))%Z).
  { induction n as [|n IH]; intros Hn; cbv zeta.
    - rewrite for_loop_0. cbn [fst snd].
      change (take 0 g) with (@nil Z). unfold Zsum. cbn [fold_right].
      repeat split; try reflexivity; try lia.
    - rewrite for_loop_S. specialize (IH ltac:(lia)). cbv zeta in IH.
      destruct (for_loop n (count_step i j g) (tla, ta)) as [tla' ta'].
      cbn [fst snd] in *. destruct IH as (Hl & Hl' & Hlen & Hr & Ht).
      unfold count_step.
      destruct (Nat.eqb_spec j 0) as [E | _]; [contradiction|].
      cbn [fst snd]. unfold mset, mget.
      rewrite !length_insert.
      rewrite (nth_insert_eq [] tla') by lia.
      rewrite (nth_insert_eq 0%Z ta') by lia.
      rewrite length_insert, Ht, Zsum_take_S by lia.
      repeat split; try lia.
      intros a. destruct (Nat.eq_dec n a) as [<- | Hne].
      + rewrite nth_insert_eq by lia. rewrite Hr, Nat.ltb_irrefl.
        destruct (Nat.ltb_spec n (S n)); [reflexivity | lia].
      + rewrite nth_insert_ne by exact Hne. rewrite Hr.
        destruct (Nat.ltb_spec a n), (Nat.ltb_spec a (S n)); try reflexivity; lia. }
  specialize (G (length g) ltac:(lia)). cbv zeta in G.
  rewrite firstn_all in G.
  destruct G as (Hl & Hl' & Hlen & Hr & Ht). repeat split; try assumption.
  intros a. rewrite Hr. destruct (Nat.ltb_spec a (length g)) as [Ha | Ha]; [reflexivity|].
  rewrite (nth_overflow g) by exact Ha. lia.
Qed.

(** Either way, one sample adds its calls to the row of counts and to the
    total. *)
Lemma count_sample i j (g : list Z) tla ta :
  (i < length tla)%nat -> (i < length ta)%nat ->
  (j = 0%nat -> nth i tla [] = []) ->
  (j <> 0%nat -> length (nth i tla []) = length g) ->
  let r := for_loop (length g) (count_step i j g) (tla, ta) in
  length (fst r) = length tla /\ length (snd r) = length ta /\
  length (nth i (fst r) []) = length g /\
  (forall a, nth a (nth i (fst r) []) 0%Z = (nth a (nth i tla []) 0 + nth a g 0)%Z) /\
  nth i (snd r) 0%Z = (nth i ta 0 + Zsum g)%Z.
Proof.
  intros Hi Hi' Hfirst Hlater. destruct (Nat.eq_dec j 0) as [-> | Hj].
  - destruct (count_first_sample i g tla ta Hi Hi' (Hfirst eq_refl))
      as (Hl & Hl' & Hr & Ht).
    cbv zeta. repeat split; try assumption.
    + rewrite Hr. reflexivity.
    + intros a. rewrite Hr, (Hfirst eq_refl).
      destruct a; cbn [nth]; lia.
  - apply count_later_sample; auto.
Qed.

Lemma allele_count_snoc samples g a :
  allele_count (samples ++ [g]) a = (allele_count samples a + nth a g 0)%Z.
Proof.
  unfold allele_count. rewrite map_app, Zsum_app. cbn. lia.
Qed.

Lemma allele_total_snoc samples g :
  allele_total (samples ++ [g]) = (allele_total samples + Zsum g)%Z.
Proof.
  unfold allele_total. rewrite map_app, Zsum_app. cbn. lia.
Qed.

(** The counting loops of a locus whose sample vectors all have [alleles]
    cells: cell [i] of [total_locus_alleles] ends as the per-allele counts
    and cell [i] of [total_alleles] as the number of calls. *)
Lemma count_alleles_counts i (samples : list (list Z)) alleles tla ta :
  (i < length tla)%nat -> (i < length ta)%nat ->
  nth i tla [] = [] -> nth i ta 0%Z = 0%Z ->
  Forall (fun g => length g = alleles) samples ->
  let r := count_alleles i samples (tla, ta) in
  length (fst r) = length tla /\ length (snd r) = length ta /\
  (samples <> [] -> length (nth i (fst r) []) = alleles) /\
  (forall a, nth a (nth i (fst r) []) 0%Z = allele_count samples a) /\
  nth i (snd r) 0%Z = allele_total samples.
Proof.
  intros Hi Hi' Hrow Htot Hshape. cbv zeta. unfold count_alleles.
  change (for_loop (length samples) _ (tla, ta))
    with (for_loop (length samples)
            (fun j acc => for_loop (length (nth j samples []))
                            (count_step i j (nth j samples [])) acc) (tla, ta)).
  assert (G : forall n, (n <= length samples)%nat ->
    let r := for_loop n
               (fun j acc => for_loop (length (nth j samples []))
                               (count_step i j (nth j samples [])) acc) (tla, ta) in
    length (fst r) = length tla /\ length (snd r) = length ta /\
    (n = 0%nat -> nth i (fst r) [] = []) /\
    (n <> 0%nat -> length (nth i (fst r) []) = alleles) /\
    (forall a, nth a (nth i (fst r) []) 0%Z = allele_count (take n samples) a) /\
    nth i (snd r) 0%Z = allele_total (take n samples)).
  { induction n as [|n IH]; intros Hn; cbv zeta.
    - rewrite for_loop_0. cbn [fst snd]. change (take 0 samples) with (@nil (list Z)).
      rewrite Hrow, Htot. repeat split; try reflexivity; try lia.
      intros a. destruct a; reflexivity.
    - rewrite for_loop_S. specialize (IH ltac:(lia)). cbv zeta in IH.
      destruct (for_loop n _ (tla, ta)) as [tla' ta'].
      cbn [fst snd] in *. destruct IH as (Hl & Hl' & Hzero & Hlen & Hr & Ht).
      assert (Hg : length (nth n samples []) = alleles).
      { apply (proj1 (List.Forall_nth _ _) Hshape). lia. }
      destruct (count_sample i n (nth n samples []) tla' ta')
        as (Hl2 & Hl2' & Hlen2 & Hr2 & Ht2); try lia.
      { exact Hzero. }
      destruct (nth_lookup_or_length samples n []) as [E | E]; [|lia].
      rewrite (take_S_r _ _ _ E), allele_total_snoc.
      repeat split; try lia.
      + intros a. rewrite Hr2, Hr, allele_count_snoc. reflexivity. }
  specialize (G (length samples) ltac:(lia)). cbv zeta in G.
  rewrite firstn_all in G.
  destruct G as (Hl & Hl' & _ & Hlen & Hr & Ht). repeat split; try assumption.
  intros Hne. apply Hlen. destruct samples; [congruence | discriminate].
Qed.

Lemma count_alleles_lengths i (samples : list (list Z)) tla ta :
  let r := count_alleles i samples (tla, ta) in
  length (fst r) = length tla /\ length (snd r) = length ta.
Proof.
  cbv zeta. unfold count_alleles.
  apply (for_loop_inv (fun _ r =>
    length (fst r) = length tla /\ length (snd r) = length ta)); [split; reflexivity|].
  intros j acc _ Hacc.
  apply (for_loop_inv (fun _ r =>
    length (fst r) = length tla /\ length (snd r) = length ta)); [exact Hacc|].
  intros k [tla' ta'] _ [Hl Hl']. cbn [fst snd] in *. unfold mset.
  rewrite !length_insert. split; [|exact Hl'].
  destruct (j =? 0)%nat; [rewrite length_insert|]; exact Hl.
Qed.

Lemma filled_row_loop n (v : nat -> D) :
  for_loop n (fun j row => <[j := v j]> row) (replicate n #0) = map v (seq 0 n).
Proof.
  destruct (pointwise_loop #0 (fun j _ => v j)
              (fun j row => <[j := v j]> row) n (replicate n #0))
    as [Hlen Hcell].
  - rewrite length_replicate. lia.
  - reflexivity.
  - rewrite length_replicate in Hlen. apply (nth_eq #0).
    + rewrite Hlen, length_map, length_seq. reflexivity.
    + intros j Hj. rewrite Hcell.
      destruct (Nat.ltb_spec j n); [|lia].
      rewrite (nth_indep _ #0 (v 0%nat)) by (rewrite length_map, length_seq; lia).
      rewrite map_nth, seq_nth by lia. reflexivity.
Qed.

(** What [initialize_p] leaves in [p] when it starts from the empty vector:
    one row per locus, [num_alleles[i]] cells in row [i], and the empirical
    frequencies in every row whose sample vectors have that many cells. *)
Lemma initialize_p_rows (c : Chain) :
  p c = [] ->
  let gd := genotyping_data c in
  let alleles i := Z.to_nat (nth i (num_alleles gd) 0%Z) in
  let c' := initialize_p c in
  length (p c') = num_loci gd /\
  (forall i, (i < num_loci gd)%nat -> length (nth i (p c') []) = alleles i) /\
  (forall i, (i < num_loci gd)%nat ->
     Forall (fun g => length g = alleles i) (nth i (observed_alleles gd) []) ->
     nth i (p c') []
     = empirical_frequencies (nth i (observed_alleles gd) []) (alleles i)).
Proof.
  intros Hp gd alleles. unfold initialize_p. cbv zeta.
  change (genotyping_data (set_p_accept _ c)) with (genotyping_data c).
  fold gd.
  match goal with |- context [for_loop (num_loci gd) ?b ?st] =>
    pose (n := num_loci gd);
    assert (Inv : let r := for_loop n b st in
      length (p (snd r)) = n /\
      length (fst (fst r)) = (num_loci gd + n)%nat /\
      length (snd (fst r)) = (num_loci gd + n)%nat /\
      (forall i', (n <= i' < num_loci gd)%nat ->
         nth i' (fst (fst r)) [] = [] /\ nth i' (snd (fst r)) 0%Z = 0%Z) /\
      (forall i, (i < n)%nat -> length (nth i (p (snd r)) []) = alleles i) /\
      (forall i, (i < n)%nat ->
         Forall (fun g => length g = alleles i) (nth i (observed_alleles gd) []) ->
         nth i (p (snd r)) []
         = empirical_frequencies (nth i (observed_alleles gd) []) (alleles i)));
    [ apply (for_loop_inv (fun k r =>
        length (p (snd r)) = k /\
        length (fst (fst r)) = (num_loci gd + k)%nat /\
        length (snd (fst r)) = (num_loci gd + k)%nat /\
        (forall i', (k <= i' < num_loci gd)%nat ->
           nth i' (fst (fst r)) [] = [] /\ nth i' (snd (fst r)) 0%Z = 0%Z) /\
        (forall i, (i < k)%nat -> length (nth i (p (snd r)) []) = alleles i) /\
        (forall i, (i < k)%nat ->
           Forall (fun g => length g = alleles i) (nth i (observed_alleles gd) []) ->
           nth i (p (snd r)) []
           = empirical_frequencies (nth i (observed_alleles gd) []) (alleles i)))
        n b st)
    | subst n; destruct (for_loop (num_loci gd) b st) as [[tla ta] c'];
      cbn [fst snd] in Inv; destruct Inv as (I1 & _ & _ & _ & I5 & I6);
      repeat split; assumption ]
  end.
  - cbn [fst snd p set_p_accept]. rewrite Hp, !length_replicate.
    repeat split; try reflexivity; try lia.
    + rewrite nth_replicate by lia. reflexivity.
    + rewrite nth_replicate by lia. reflexivity.
  - intros k [[tla ta] c'] Hk (Hlen & Hl & Hl' & Hcells & Hshape & Hrows).
    cbn [fst snd] in *. subst n.
    set (n_k := Z.to_nat (nth k (num_alleles gd) 0%Z)).
    set (tla1 := tla ++ [replicate n_k 0%Z]).
    set (ta1 := ta ++ [0%Z]).
    assert (Hl1 : length tla1 = (num_loci gd + S k)%nat)
      by (subst tla1; rewrite length_app; cbn; lia).
    assert (Hl1' : length ta1 = (num_loci gd + S k)%nat)
      by (subst ta1; rewrite length_app; cbn; lia).
    assert (Hcells1 : forall i', (k <= i' < num_loci gd)%nat ->
              nth i' tla1 [] = [] /\ nth i' ta1 0%Z = 0%Z).
    { intros i' Hi'. subst tla1 ta1.
      rewrite !app_nth1 by lia. apply Hcells. exact Hi'. }
    fold (count_alleles k (nth k (observed_alleles gd) []) (tla1, ta1)).
    pose proof (count_alleles_frame k (nth k (observed_alleles gd) []) tla1 ta1)
      as Hframe.
    pose proof (count_alleles_lengths k (nth k (observed_alleles gd) []) tla1 ta1)
      as Hlengths.
    pose proof (count_alleles_counts k (nth k (observed_alleles gd) []) n_k tla1 ta1)
      as Hcount.
    destruct (count_alleles k (nth k (observed_alleles gd) []) (tla1, ta1))
      as [tla2 ta2]. cbn [fst snd] in *. cbv zeta in Hlengths.
    destruct Hlengths as [Hl2 Hl2'].
    rewrite write_row_loop by (cbn [p set_p]; rewrite length_app; cbn; lia).
    cbn [fst snd p set_p].
    rewrite length_insert, length_app. cbn [length].
    assert (Hnew : nth k (p c' ++ [replicate n_k #0]) [] = replicate n_k #0).
    { rewrite app_nth2 by lia. rewrite Hlen, Nat.sub_diag. reflexivity. }
    rewrite Hnew, filled_row_loop.
    split; [lia|]. split; [lia|]. split; [lia|]. split; [|split].
    + intros i' Hi'. destruct (Hframe i' ltac:(lia)) as [-> ->].
      apply Hcells1. lia.
    + intros i Hik. destruct (Nat.eq_dec i k) as [-> | Hne].
      * rewrite nth_insert_eq by (rewrite length_app; cbn; lia).
        rewrite length_map, length_seq. reflexivity.
      * rewrite nth_insert_ne by congruence.
        rewrite app_nth1 by lia. apply Hshape. lia.
    + intros i Hik Hwf. destruct (Nat.eq_dec i k) as [-> | Hne].
      * rewrite nth_insert_eq by (rewrite length_app; cbn; lia).
        destruct Hcount as (_ & _ & _ & Hr & Ht); try lia;
          try (apply Hcells1; lia); [exact Hwf|].
        unfold empirical_frequencies. apply map_ext_in. intros a _.
        unfold mget. rewrite Hr, Ht. reflexivity.
      * rewrite nth_insert_ne by congruence.
        rewrite app_nth1 by lia. apply Hrows; [lia | exact Hwf].
Qed.

End EmpiricalFrequencies.

(** X1. In a constructed chain, row [i] of [p] holds the number of times
    each allele was observed divided by the number of observations at the
    locus, for every locus with at least one allele and one sample, whose
    sample vectors all have [num_alleles[i]] entries, none negative, that
    add up to at most [INT_MAX] (the counters of the source are [int]). *)
Theorem Chain_new_empirical_frequencies {D : Type} `{Double D} `{Sampler D}
    (data : GenotypingData) (tables : Lookup D) (settings : Parameters D)
    (i : nat) :
  let alleles := Z.to_nat (nth i (num_alleles data) 0%Z) in
  let samples := nth i (observed_alleles data) [] in
  (i < num_loci data)%nat ->
  (1 <= alleles)%nat ->
  samples <> [] ->
  Forall (fun g => length g = alleles) samples ->
  countable_on_int samples ->
  nth i (p (Chain_new data tables settings)) []
  = empirical_frequencies samples alleles.
Proof.
  intros alleles samples Hi _ _ Hshape _.
  destruct (Chain_new_p data tables settings) as (c0 & Hp0 & Hgd & ->).
  subst alleles samples. rewrite <- Hgd in *.
  apply (initialize_p_rows c0 Hp0); assumption.
Qed.

(** X2. In a constructed chain [p] has one row per locus, and row [i] has
    [num_alleles[i]] entries, whatever was observed. *)
Theorem Chain_new_p_shape {D : Type} `{Double D} `{Sampler D}
    (data : GenotypingData) (tables : Lookup D) (settings : Parameters D) :
  let p0 := p (Chain_new data tables settings) in
  length p0 = num_loci data /\
  forall i, (i < num_loci data)%nat ->
    length (nth i p0 []) = Z.to_nat (nth i (num_alleles data) 0%Z).
Proof.
  cbv zeta.
  destruct (Chain_new_p data tables settings) as (c0 & Hp0 & Hgd & ->).
  rewrite <- Hgd.
  destruct (initialize_p_rows c0 Hp0) as (Hlen & Hrows & _).
  split; assumption.
Qed.

(** ** Construction in exact arithmetic: the rows are distributions *)

Section ExactFrequencies.
Local Open Scope R_scope.

Lemma Zsum_map_add {A} (f h : A -> Z) l :
  Zsum (map (fun a => (f a + h a)%Z) l) = (Zsum (map f l) + Zsum (map h l))%Z.
Proof.
  unfold Zsum. induction l as [|x l IH]; cbn [map fold_right]; lia.
Qed.

Lemma map_nth_seq (g : list Z) :
  map (fun a => nth a g 0%Z) (seq 0 (length g)) = g.
Proof.
  apply (nth_eq 0%Z).
  - rewrite length_map, length_seq. reflexivity.
  - intros a Ha. rewrite length_map, length_seq in Ha.
    rewrite (nth_indep _ 0%Z (nth 0 g 0%Z)) by (rewrite length_map, length_seq; lia).
    rewrite (map_nth (fun a => nth a g 0%Z)), seq_nth by lia. reflexivity.
Qed.

(** The counts of a locus add up to its total. *)
Lemma allele_counts_total (samples : list (list Z)) alleles :
  Forall (fun g => length g = alleles) samples ->
  Zsum (map (allele_count samples) (seq 0 alleles)) = allele_total samples.
Proof.
  induction 1 as [|g samples Hg _ IH].
  - change (allele_total []) with 0%Z.
    induction (seq 0 alleles) as [|a l IHl]; [reflexivity|].
    unfold Zsum in *. cbn [map fold_right]. rewrite IHl. reflexivity.
  - transitivity
      (Zsum (map (fun a => (nth a g 0 + allele_count samples a)%Z) (seq 0 alleles)));
      [reflexivity|].
    rewrite Zsum_map_add, IH. subst alleles. rewrite map_nth_seq. reflexivity.
Qed.

Lemma allele_count_nonneg (samples : list (list Z)) a :
  Forall (Forall (fun x => (0 <= x)%Z)) samples -> (0 <= allele_count samples a)%Z.
Proof.
  unfold allele_count, Zsum.
  induction 1 as [|g samples Hg _ IH]; cbn [map fold_right]; [lia|].
  assert (0 <= nth a g 0)%Z; [|lia].
  destruct (Nat.lt_ge_cases a (length g)) as [Ha|Ha].
  - apply (proj1 (List.Forall_nth _ _) Hg). exact Ha.
  - rewrite nth_overflow by exact Ha. lia.
Qed.

Lemma Zsum_nonneg (g : list Z) : Forall (fun x => (0 <= x)%Z) g -> (0 <= Zsum g)%Z.
Proof.
  unfold Zsum. induction 1 as [|x g Hx _ IH]; cbn [fold_right]; lia.
Qed.

Lemma nth_le_Zsum (g : list Z) a :
  Forall (fun x => (0 <= x)%Z) g -> (nth a g 0 <= Zsum g)%Z.
Proof.
  intros Hg. revert a. unfold Zsum.
  induction Hg as [|x g Hx Hg IH]; intros [|a]; cbn [nth fold_right]; try lia.
  - pose proof (Zsum_nonneg g Hg) as Hs. unfold Zsum in Hs. lia.
  - specialize (IH a). lia.
Qed.

Lemma allele_total_cons g (samples : list (list Z)) :
  allele_total (g :: samples) = (Zsum g + allele_total samples)%Z.
Proof. reflexivity. Qed.

Lemma allele_count_cons g (samples : list (list Z)) a :
  allele_count (g :: samples) a = (nth a g 0 + allele_count samples a)%Z.
Proof. reflexivity. Qed.

Lemma allele_total_nonneg (samples : list (list Z)) :
  Forall (Forall (fun x => (0 <= x)%Z)) samples -> (0 <= allele_total samples)%Z.
Proof.
  induction 1 as [|g samples Hg _ IH]; [cbn; lia|].
  rewrite allele_total_cons. pose proof (Zsum_nonneg g Hg). lia.
Qed.

Lemma allele_count_le_total (samples : list (list Z)) a :
  Forall (Forall (fun x => (0 <= x)%Z)) samples ->
  (allele_count samples a <= allele_total samples)%Z.
Proof.
  induction 1 as [|g samples Hg _ IH]; [cbn; lia|].
  rewrite allele_total_cons, allele_count_cons.
  pose proof (nth_le_Zsum g a Hg). lia.
Qed.

Lemma allele_total_take (samples : list (list Z)) n :
  Forall (Forall (fun x => (0 <= x)%Z)) samples ->
  (allele_total (take n samples) <= allele_total samples)%Z.
Proof.
  intros Hpos. revert n.
  induction Hpos as [|g samples Hg Hpos IH]; intros [|n]; cbn [take]; try lia.
  - rewrite allele_total_cons. change (allele_total []) with 0%Z.
    pose proof (Zsum_nonneg g Hg). pose proof (allele_total_nonneg samples Hpos).
    lia.
  - rewrite !allele_total_cons. specialize (IH n). lia.
Qed.

(** With calls that can be counted on [int], every value the counters of
    [initialize_p] take on the way (the counts and the total after any
    number of samples) lies between 0 and [INT_MAX]. *)
Lemma counts_fit_int (samples : list (list Z)) n a :
  countable_on_int samples ->
  (0 <= allele_count (take n samples) a <= allele_total (take n samples))%Z /\
  (allele_total (take n samples) <= INT_MAX)%Z.
Proof.
  intros [Hpos Hmax].
  pose proof (allele_total_take samples n Hpos) as Hmono.
  assert (Htake : Forall (Forall (fun x => (0 <= x)%Z)) (take n samples))
    by (apply Forall_take; exact Hpos).
  split; [split|lia].
  - apply allele_count_nonneg. exact Htake.
  - apply allele_count_le_total. exact Htake.
Qed.

Lemma Rsum_IZR (f : nat -> Z) l :
  Rsum (map (fun a => IZR (f a)) l) = IZR (Zsum (map f l)).
Proof.
  unfold Rsum, Zsum. induction l as [|x l IH]; cbn [map fold_right]; [reflexivity|].
  rewrite IH, plus_IZR. reflexivity.
Qed.

Lemma empirical_frequencies_simplex (samples : list (list Z)) alleles :
  Forall (fun g => length g = alleles) samples ->
  Forall (Forall (fun x => (0 <= x)%Z)) samples ->
  (0 < allele_total samples)%Z ->
  Forall (fun x => 0 <= x) (empirical_frequencies samples alleles) /\
  Rsum (empirical_frequencies samples alleles) = 1.
Proof.
  intros Hshape Hpos Htotal. unfold empirical_frequencies. exact_arith.
  assert (Ht : 0 < IZR (allele_total samples)) by (apply IZR_lt; exact Htotal).
  split.
  - apply List.Forall_forall. intros x Hx. apply in_map_iff in Hx.
    destruct Hx as [a [<- _]].
    apply Rmult_le_pos.
    + apply IZR_le. apply allele_count_nonneg. exact Hpos.
    + left. apply Rinv_0_lt_compat. exact Ht.
  - change (Rsum (map (fun a => IZR (allele_count samples a) * / IZR (allele_total samples))
                      (seq 0 alleles)) = 1).
    fold (sum_over alleles (fun a => IZR (allele_count samples a) * / IZR (allele_total samples))).
    rewrite sum_over_scale. unfold sum_over.
    rewrite Rsum_IZR, allele_counts_total by exact Hshape.
    field. lra.
Qed.

End ExactFrequencies.

(** X3. In exact arithmetic, a locus with at least one observed allele,
    whose sample vectors have [num_alleles[i]] entries, none negative, that
    add up to at most [INT_MAX] (the counters of the source are [int]), gets
    a row of [p] that is a distribution: entries >= 0 that sum to 1. *)
Theorem Chain_new_frequencies_simplex `{Sampler R}
    (data : GenotypingData) (tables : Lookup R) (settings : Parameters R)
    (i : nat) :
  let alleles := Z.to_nat (nth i (num_alleles data) 0%Z) in
  let samples := nth i (observed_alleles data) [] in
  let row := nth i (p (Chain_new data tables settings)) [] in
  (i < num_loci data)%nat ->
  Forall (fun g => length g = alleles) samples ->
  countable_on_int samples ->
  (0 < allele_total samples)%Z ->
  Forall (fun x => (0 <= x)%R) row /\ Rsum row = 1%R.
Proof.
  intros alleles samples row Hi Hshape [Hpos _] Htotal. subst row.
  destruct (Chain_new_p data tables settings) as (c0 & Hp0 & Hgd & ->).
  subst alleles samples. rewrite <- Hgd in *.
  destruct (initialize_p_rows c0 Hp0) as (_ & _ & Hrows).
  rewrite Hrows by assumption.
  apply empirical_frequencies_simplex; assumption.
Qed.

(** ** Cells of a vector of vectors *)

Section CacheCells.
Context {A : Type}.
Implicit Types (v w : list (list A)) (d : A) (S : nat -> nat -> Prop).

Lemma same_shape_refl v : same_shape v v.
Proof. split; [reflexivity | intros j; reflexivity]. Qed.

Lemma same_shape_trans v1 v2 v3 :
  same_shape v1 v2 -> same_shape v2 v3 -> same_shape v1 v3.
Proof.
  intros [H1 H1'] [H2 H2']. split; [congruence|].
  intros j. rewrite H2', H1'. reflexivity.
Qed.

Lemma same_shape_mset v j i x : same_shape v (mset v j i x).
Proof.
  unfold mset. split; [apply length_insert|].
  intros j'. destruct (Nat.eq_dec j j') as [<- | Hne].
  - destruct (Nat.lt_ge_cases j (length v)) as [Hj | Hj].
    + rewrite nth_insert_eq by exact Hj. apply length_insert.
    + rewrite list_insert_ge by exact Hj. reflexivity.
  - rewrite nth_insert_ne by exact Hne. reflexivity.
Qed.

Lemma has_shape_same rows cells v v' :
  same_shape v v' -> has_shape rows cells v -> has_shape rows cells v'.
Proof.
  intros [Hl Hr] [Hl' Hr']. split; [congruence|].
  intros j Hj. rewrite Hr. apply Hr'. exact Hj.
Qed.

Lemma in_range_same v v' j i : same_shape v v' -> in_range v' j i -> in_range v j i.
Proof.
  intros [Hl Hr] [Hj Hi]. split; [lia|]. rewrite <- Hr. exact Hi.
Qed.

Lemma mget_mset_eq d v j i x :
  in_range v j i -> mget d (mset v j i x) j i = x.
Proof.
  intros [Hj Hi]. unfold mget, mset.
  rewrite nth_insert_eq by exact Hj. apply nth_insert_eq. exact Hi.
Qed.

Lemma mget_mset_ne d v j i x j' i' :
  ~ (j' = j /\ i' = i) -> mget d (mset v j i x) j' i' = mget d v j' i'.
Proof.
  intros Hne. unfold mget, mset.
  destruct (Nat.eq_dec j j') as [<- | Hj].
  - destruct (Nat.lt_ge_cases j (length v)) as [Hlt | Hge].
    + rewrite nth_insert_eq by exact Hlt.
      apply nth_insert_ne. intros ->. apply Hne. split; reflexivity.
    + rewrite list_insert_ge by exact Hge. reflexivity.
  - rewrite nth_insert_ne by exact Hj. reflexivity.
Qed.

Lemma cells_off_refl d S v : cells_off d S v v.
Proof. split; [apply same_shape_refl | reflexivity]. Qed.

Lemma cells_off_trans d S v1 v2 v3 :
  cells_off d S v1 v2 -> cells_off d S v2 v3 -> cells_off d S v1 v3.
Proof.
  intros [H1 H1'] [H2 H2']. split; [eapply same_shape_trans; eassumption|].
  intros j i HS. rewrite H2', H1' by exact HS. reflexivity.
Qed.

Lemma cells_off_mono d S S' v v' :
  (forall j i, S j i -> S' j i) -> cells_off d S v v' -> cells_off d S' v v'.
Proof.
  intros Hsub [Hs Hc]. split; [exact Hs|].
  intros j i HS. apply Hc. intros HS'. apply HS, Hsub, HS'.
Qed.

Lemma cells_off_mset d S v j i x : S j i -> cells_off d S v (mset v j i x).
Proof.
  intros HS. split; [apply same_shape_mset|].
  intros j' i' HS'. apply mget_mset_ne. intros [-> ->]. exact (HS' HS).
Qed.

(** Copying one more cell. *)
Lemma cells_synced_mset d S v w j i :
  cells_synced d S v w ->
  cells_synced d (fun j' i' => S j' i' \/ (j' = j /\ i' = i))
    (mset v j i (mget d w j i)) w.
Proof.
  intros Hsync j' i' HS Hin.
  pose proof (in_range_same _ _ _ _ (same_shape_mset v j i (mget d w j i)) Hin)
    as Hin'.
  destruct (Nat.eq_dec j' j) as [-> | Hj].
  - destruct (Nat.eq_dec i' i) as [-> | Hi].
    + apply mget_mset_eq. exact Hin'.
    + rewrite mget_mset_ne by (intros [_ E]; exact (Hi E)).
      apply Hsync; [|exact Hin']. destruct HS as [HS | [_ E]]; [exact HS|].
      contradiction.
  - rewrite mget_mset_ne by (intros [E _]; exact (Hj E)).
    apply Hsync; [|exact Hin']. destruct HS as [HS | [E _]]; [exact HS|].
    contradiction.
Qed.

(** Two vectors of one shape whose cells agree are equal. *)
Lemma cells_eq d rows cells v w :
  has_shape rows cells v -> has_shape rows cells w ->
  (forall j i, (j < rows)%nat -> (i < cells)%nat -> mget d v j i = mget d w j i) ->
  v = w.
Proof.
  intros [Hv Hv'] [Hw Hw'] Hcells. apply (nth_eq []); [congruence|].
  intros j Hj. rewrite Hv in Hj. apply (nth_eq d).
  - rewrite Hv', Hw' by exact Hj. reflexivity.
  - intros i Hi. rewrite Hv' in Hi by exact Hj. apply Hcells; assumption.
Qed.

End CacheCells.

(** ** The loops of the blocks over the caches *)

Section CacheLoops.
Context {D : Type} `{Double D} `{Sampler D}.
Local Open Scope dbl_scope.
Implicit Types (S : nat -> nat -> Prop) (c : Chain).

Lemma estimated_in_none coi freq en ep c :
  estimated_in (fun _ _ => False) coi freq en ep c c.
Proof.
  exists (llik_new c), (sampler c). split; [apply cells_off_refl|].
  split; [intros j i [] | destruct c; reflexivity].
Qed.

Lemma estimated_in_ext S S' coi freq en ep c c' :
  (forall j i, S j i <-> S' j i) ->
  estimated_in S coi freq en ep c c' -> estimated_in S' coi freq en ep c c'.
Proof.
  intros Hext (ln & s & Hoff & Hest & ->). exists ln, s. split; [|split].
  - eapply cells_off_mono; [|exact Hoff]. intros j i. apply Hext.
  - intros j i HS. apply Hest, Hext, HS.
  - reflexivity.
Qed.

(** One call of the kernel by a block: cell (j, i) of [llik_new] gets an
    estimate. *)
Lemma estimated_in_step S coi freq en ep c c' j i :
  estimated_in S coi freq en ep c c' ->
  estimated_in (fun j' i' => S j' i' \/ (j' = j /\ i' = i)) coi freq en ep c
    (refresh_llik_new j i (coi i) (freq j) en ep c').
Proof.
  intros (ln & s & Hoff & Hest & ->). unfold refresh_llik_new. chain_fields.
  destruct (calc_genotype_marginal_llik _ _ _ _ _ _ _ _) as [l s'] eqn:E.
  exists (mset ln j i l), s'. split; [|split].
  - eapply cells_off_trans.
    + eapply cells_off_mono; [|exact Hoff]. intros j' i' HS. left. exact HS.
    + apply cells_off_mset. right. split; reflexivity.
  - intros j' i' HS Hin.
    pose proof (in_range_same _ _ _ _ (same_shape_mset ln j i l) Hin) as Hin'.
    destruct (Nat.eq_dec j' j) as [-> | Hj];
      [destruct (Nat.eq_dec i' i) as [-> | Hi]|].
    + rewrite mget_mset_eq by exact Hin'. exists s. unfold observed_at.
      rewrite E. reflexivity.
    + rewrite mget_mset_ne by (intros [_ G]; exact (Hi G)).
      apply Hest; [|exact Hin']. destruct HS as [HS | [_ G]]; [exact HS|].
      contradiction.
    + rewrite mget_mset_ne by (intros [G _]; exact (Hj G)).
      apply Hest; [|exact Hin']. destruct HS as [HS | [G _]]; [exact HS|].
      contradiction.
  - reflexivity.
Qed.

(** The refreshing loop of [update_m]: column [i], at the proposed COI. *)
Lemma refresh_column n i prop c :
  estimated_in (coi_cells n i) (fun _ => prop) (fun j => nth j (p c) [])
    (eps_neg c) (eps_pos c) c
    (fst (fst (for_loop n (fun j '(c, sum_can, sum_orig) =>
       let c := refresh_llik_new j i prop (nth j (p c) []) (eps_neg c)
                  (eps_pos c) c in
       (c, sum_can + mget #0 (llik_new c) j i,
        sum_orig + mget #0 (llik_old c) j i)) (c, #0, #0)))).
Proof.
  apply (for_loop_inv (fun k st =>
    estimated_in (coi_cells k i) (fun _ => prop) (fun j => nth j (p c) [])
      (eps_neg c) (eps_pos c) c (fst (fst st)))).
  - eapply estimated_in_ext; [|apply estimated_in_none].
    intros j' i'. unfold coi_cells. split; [intros [] | lia].
  - intros k [[c' sc] so] _ Hc'. cbn [fst] in *.
    pose proof Hc' as (ln & s & _ & _ & E). subst c'.
    eapply estimated_in_ext;
      [|exact (estimated_in_step _ (fun _ => prop) (fun j => nth j (p c) [])
                 _ _ _ _ k i Hc')].
    intros j' i'. unfold coi_cells. cbv beta. lia.
Qed.

(** The refreshing loop of [update_p]: row [j], at the proposed
    frequencies. *)
Lemma refresh_row n j c :
  estimated_in (locus_cells n j) (fun i => nth i (m c) 0%Z) (fun _ => prop_p c)
    (eps_neg c) (eps_pos c) c
    (fst (fst (for_loop n (fun i '(c, sum_can, sum_orig) =>
       let c := refresh_llik_new j i (nth i (m c) 0%Z) (prop_p c) (eps_neg c)
                  (eps_pos c) c in
       (c, sum_can + mget #0 (llik_new c) j i,
        sum_orig + mget #0 (llik_old c) j i)) (c, #0, #0)))).
Proof.
  apply (for_loop_inv (fun k st =>
    estimated_in (locus_cells k j) (fun i => nth i (m c) 0%Z)
      (fun _ => prop_p c) (eps_neg c) (eps_pos c) c (fst (fst st)))).
  - eapply estimated_in_ext; [|apply estimated_in_none].
    intros j' i'. unfold locus_cells. split; [intros [] | lia].
  - intros k [[c' sc] so] _ Hc'. cbn [fst] in *.
    pose proof Hc' as (ln & s & _ & _ & E). subst c'.
    eapply estimated_in_ext;
      [|exact (estimated_in_step _ (fun i => nth i (m c) 0%Z)
                 (fun _ => prop_p c) _ _ _ _ j k Hc')].
    intros j' i'. unfold locus_cells. cbv beta. lia.
Qed.

(** The refreshing loops of the epsilon blocks: every cell, at the given
    rates. *)
Lemma refresh_all_in en ep c :
  let gd := genotyping_data c in
  estimated_in (all_cells (num_loci gd) (num_samples gd))
    (fun i => nth i (m c) 0%Z) (fun j => nth j (p c) []) en ep c
    (fst (fst (refresh_all en ep c))).
Proof.
  cbv zeta. unfold refresh_all. cbv zeta.
  set (L := num_loci (genotyping_data c)).
  set (N := num_samples (genotyping_data c)).
  apply (for_loop_inv (fun k st =>
    estimated_in (all_cells k N) (fun i => nth i (m c) 0%Z)
      (fun j => nth j (p c) []) en ep c (fst (fst st)))).
  - eapply estimated_in_ext; [|apply estimated_in_none].
    intros j' i'. unfold all_cells. split; [intros [] | lia].
  - intros k st _ Hst.
    eapply (estimated_in_ext
              (fun j' i' => all_cells k N j' i' \/ locus_cells N k j' i')).
    { intros j' i'. unfold all_cells, locus_cells. lia. }
    apply (for_loop_inv (fun l st' =>
      estimated_in (fun j' i' => all_cells k N j' i' \/ locus_cells l k j' i')
        (fun i => nth i (m c) 0%Z) (fun j => nth j (p c) []) en ep c
        (fst (fst st')))).
    + eapply estimated_in_ext; [|exact Hst].
      intros j' i'. unfold locus_cells.
      split; [tauto | intros [G | [_ G]]; [exact G | lia]].
    + intros l [[c' sc] so] _ Hc'. cbn [fst] in *.
      pose proof Hc' as (ln & s & _ & _ & E). subst c'.
      eapply estimated_in_ext;
        [|exact (estimated_in_step _ (fun i => nth i (m c) 0%Z)
                   (fun j => nth j (p c) []) _ _ _ _ k l Hc')].
      intros j' i'. unfold all_cells, locus_cells. cbv beta. lia.
Qed.

Lemma synced_in_none c : synced_in (fun _ _ => False) c c.
Proof.
  exists (llik_old c). split; [apply cells_off_refl|].
  split; [intros j i [] | destruct c; reflexivity].
Qed.

Lemma synced_in_ext S S' c c' :
  (forall j i, S j i <-> S' j i) -> synced_in S c c' -> synced_in S' c c'.
Proof.
  intros Hext (lo & Hoff & Hsync & ->). exists lo. split; [|split].
  - eapply cells_off_mono; [|exact Hoff]. intros j i. apply Hext.
  - intros j i HS. apply Hsync, Hext, HS.
  - reflexivity.
Qed.

(** The body of the copying loops: cell (j, i) goes from [llik_new] to
    [llik_old]. *)
Lemma synced_in_step S c c' j i :
  synced_in S c c' ->
  synced_in (fun j' i' => S j' i' \/ (j' = j /\ i' = i)) c
    (set_llik_old (mset (llik_old c') j i (mget #0 (llik_new c') j i)) c').
Proof.
  intros (lo & Hoff & Hsync & ->).
  exists (mset lo j i (mget #0 (llik_new c) j i)). split; [|split].
  - eapply cells_off_trans.
    + eapply cells_off_mono; [|exact Hoff]. intros j' i' HS. left. exact HS.
    + apply cells_off_mset. right. split; reflexivity.
  - apply cells_synced_mset. exact Hsync.
  - reflexivity.
Qed.

(** The copying loop of [update_m]: column [i]. *)
Lemma commit_column n i c :
  synced_in (coi_cells n i) c
    (for_loop n (fun j c =>
       set_llik_old (mset (llik_old c) j i (mget #0 (llik_new c) j i)) c) c).
Proof.
  apply (for_loop_inv (fun k c' => synced_in (coi_cells k i) c c')).
  - eapply synced_in_ext; [|apply synced_in_none].
    intros j' i'. unfold coi_cells. split; [intros [] | lia].
  - intros k c' _ Hc'. eapply synced_in_ext; [|apply synced_in_step; exact Hc'].
    intros j' i'. unfold coi_cells. cbv beta. lia.
Qed.

(** The copying loop of [update_p]: row [j]. *)
Lemma commit_row n j c :
  synced_in (locus_cells n j) c
    (for_loop n (fun i c =>
       set_llik_old (mset (llik_old c) j i (mget #0 (llik_new c) j i)) c) c).
Proof.
  apply (for_loop_inv (fun k c' => synced_in (locus_cells k j) c c')).
  - eapply synced_in_ext; [|apply synced_in_none].
    intros j' i'. unfold locus_cells. split; [intros [] | lia].
  - intros k c' _ Hc'. eapply synced_in_ext; [|apply synced_in_step; exact Hc'].
    intros j' i'. unfold locus_cells. cbv beta. lia.
Qed.

(** The copying loops of the epsilon blocks: every cell. *)
Lemma commit_all_in c :
  let gd := genotyping_data c in
  synced_in (all_cells (num_loci gd) (num_samples gd)) c (commit_all c).
Proof.
  cbv zeta. unfold commit_all. cbv zeta.
  set (L := num_loci (genotyping_data c)).
  set (N := num_samples (genotyping_data c)).
  apply (for_loop_inv (fun k c' => synced_in (all_cells k N) c c')).
  - eapply synced_in_ext; [|apply synced_in_none].
    intros j' i'. unfold all_cells. split; [intros [] | lia].
  - intros k c' _ Hc'.
    eapply (synced_in_ext (fun j' i' => all_cells k N j' i' \/ locus_cells N k j' i')).
    { intros j' i'. unfold all_cells, locus_cells. lia. }
    apply (for_loop_inv (fun l c'' =>
      synced_in (fun j' i' => all_cells k N j' i' \/ locus_cells l k j' i') c c'')).
    + eapply synced_in_ext; [|exact Hc'].
      intros j' i'. unfold locus_cells. split; [tauto | intros [G | [_ G]]; [exact G | lia]].
    + intros l c'' _ Hc''.
      eapply synced_in_ext; [|apply synced_in_step; exact Hc''].
      intros j' i'. unfold all_cells, locus_cells. cbv beta. lia.
Qed.

(** The sum a block forms over [llik_old] while it refreshes [llik_new]. *)
Lemma orig_sum_loop {A} n (body : nat -> Chain * A * D -> Chain * A * D)
    (step : nat -> list (list D) -> D -> D) st :
  (forall k st',
     llik_old (fst (fst (body k st'))) = llik_old (fst (fst st')) /\
     snd (body k st') = step k (llik_old (fst (fst st'))) (snd st')) ->
  llik_old (fst (fst (for_loop n body st))) = llik_old (fst (fst st)) /\
  snd (for_loop n body st)
  = for_loop n (fun k acc => step k (llik_old (fst (fst st))) acc) (snd st).
Proof.
  intros Hbody. induction n as [|n [IH1 IH2]].
  - rewrite !for_loop_0. split; reflexivity.
  - rewrite !for_loop_S. destruct (Hbody n (for_loop n body st)) as [E1 E2].
    rewrite E1, E2, IH1, IH2. split; reflexivity.
Qed.

Lemma refresh_llik_new_old j i coi freq en ep c :
  llik_old (refresh_llik_new j i coi freq en ep c) = llik_old c.
Proof.
  unfold refresh_llik_new.
  destruct (calc_genotype_marginal_llik _ _ _ _ _ _ _ _) as [l s]. reflexivity.
Qed.

Lemma refresh_all_total en ep c :
  snd (refresh_all en ep c)
  = cache_total (llik_old c) (num_loci (genotyping_data c))
      (num_samples (genotyping_data c)).
Proof.
  unfold refresh_all, cache_total. cbv zeta.
  match goal with |- snd (for_loop ?n ?b ?st) = _ =>
    destruct (orig_sum_loop n b
      (fun j lo acc =>
         for_loop (num_samples (genotyping_data c))
           (fun i acc => acc + mget #0 lo j i) acc) st) as [_ E] end.
  - intros j st'.
    match goal with |- context [for_loop ?n ?b st'] =>
      destruct (orig_sum_loop n b (fun i lo acc => acc + mget #0 lo j i) st')
        as [E1 E2] end.
    + intros i [[c' sc] so]. cbn [fst snd].
      rewrite refresh_llik_new_old. split; reflexivity.
    + split; [exact E1 | exact E2].
  - exact E.
Qed.

End CacheLoops.

(** ** The blocks, branch by branch *)

Section BlockBranches.
Context {D : Type} `{Double D} `{Sampler D}.
Local Open Scope dbl_scope.

(** One sample of [update_m]: the proposal equals the current COI; or it is
    out of range; or it is accepted; or it is rejected. *)
Lemma update_m_sample_cases iteration k c :
  let S := coi_cells (num_loci (genotyping_data c)) k in
  let prop := proposed_coi k c in
  let counted := <[k := (nth k (m_accept c) 0 + 1)%Z]> (m_accept c) in
  let raised :=
    <[k := nth k (m_prop_mean c) #0 + step_up iteration]> (m_prop_mean c) in
  let lowered :=
    <[k := nth k (m_prop_mean c) #0 - step_down iteration]> (m_prop_mean c) in
  let clamped :=
    <[k := if nth k lowered #0 <? #0 then #0 else nth k lowered #0]> lowered in
  let c' := update_m_sample iteration k c in
  (prop = nth k (m c) 0%Z /\
   exists s, c' = set_m_accept counted (set_m_prop_mean raised (set_sampler s c)))
  \/ (prop <> nth k (m c) 0%Z /\ ~ (0 < prop <= max_coi (params c))%Z /\
      exists s, c' = set_sampler s c)
  \/ (prop <> nth k (m c) 0%Z /\ (0 < prop <= max_coi (params c))%Z /\
      exists s ln lo,
        cells_off #0 S (llik_new c) ln /\
        cells_estimated S c (fun _ => prop) (fun j => nth j (p c) [])
          (eps_neg c) (eps_pos c) ln /\
        cells_off #0 S (llik_old c) lo /\
        cells_synced #0 S lo ln /\
        accepted_against
          (column_total (llik_old c) (num_loci (genotyping_data c)) k) /\
        c' = set_llik_old lo (set_m_accept counted (set_m_prop_mean raised
               (set_m (<[k := prop]> (m c)) (set_llik_new ln (set_sampler s c))))))
  \/ (prop <> nth k (m c) 0%Z /\ (0 < prop <= max_coi (params c))%Z /\
      exists s ln,
        cells_off #0 S (llik_new c) ln /\
        cells_estimated S c (fun _ => prop) (fun j => nth j (p c) [])
          (eps_neg c) (eps_pos c) ln /\
        c' = set_m_prop_mean clamped (set_llik_new ln (set_sampler s c))).
Proof.
  unfold update_m_sample, proposed_coi, step_up, step_down.
  destruct (sample_coi_delta (nth k (m_prop_mean c) #0) (sampler c)) as [delta s].
  cbn [fst]. cbv zeta.
  change (m (set_sampler s c)) with (m c).
  change (params (set_sampler s c)) with (params c).
  change (genotyping_data (set_sampler s c)) with (genotyping_data c).
  destruct (Z.eqb_spec (delta + nth k (m c) 0%Z) (nth k (m c) 0%Z)) as [Heq | Hne].
  { left. split; [exact Heq|]. exists s. reflexivity. }
  right.
  destruct ((max_coi (params c) >=? delta + nth k (m c) 0)%Z
            && (delta + nth k (m c) 0 >? 0)%Z) eqn:Hrange.
  2: { left. split; [exact Hne|]. split; [|exists s; reflexivity].
       apply andb_false_iff in Hrange. lia. }
  right. apply andb_prop in Hrange.
  assert (Hin : (0 < delta + nth k (m c) 0 <= max_coi (params c))%Z) by lia.
  match goal with |- context [for_loop ?n ?b (set_sampler s c, #0, #0)] =>
    pose proof (refresh_column n k (delta + nth k (m c) 0)%Z (set_sampler s c)
                : estimated_in _ _ _ _ _ _
                    (fst (fst (for_loop n b (set_sampler s c, #0, #0)))))
      as Hscr;
    destruct (orig_sum_loop n b (fun j lo acc => acc + mget #0 lo j k)
                (set_sampler s c, #0, #0)) as [_ Hsum];
    [ intros j [[c' sc] so]; cbn [fst snd]; rewrite refresh_llik_new_old;
      split; reflexivity |];
    destruct (for_loop n b (set_sampler s c, #0, #0)) as [[c2 sum_can] sum_orig]
  end.
  cbn [fst snd] in Hscr, Hsum.
  destruct Hscr as (ln & s2 & Hln & Hest & ->).
  cbn [llik_new set_sampler] in Hln.
  destruct (sample_log_mh_acceptance _) as [u s3].
  destruct (u <=? sum_can - sum_orig) eqn:Hacc.
  - left. split; [exact Hne|]. split; [exact Hin|].
    match goal with |- context [for_loop ?n ?b ?c0] =>
      change (for_loop n b c0) with
        (for_loop n (fun j c =>
           set_llik_old (mset (llik_old c) j k (mget #0 (llik_new c) j k)) c) c0);
      destruct (commit_column n k c0) as (lo & Hlo & Hsync & ->)
    end.
    exists s3, ln, lo.
    split; [exact Hln|]. split; [exact Hest|].
    split; [exact Hlo|]. split; [exact Hsync|].
    split; [|reflexivity]. exists u, sum_can. subst sum_orig. exact Hacc.
  - right. split; [exact Hne|]. split; [exact Hin|].
    exists s3, ln. split; [exact Hln|]. split; [exact Hest | reflexivity].
Qed.

(** One locus of [update_p]: the proposal is accepted or rejected. *)
Lemma update_p_locus_cases iteration j c :
  let S := locus_cells (num_samples (genotyping_data c)) j in
  let prop :=
    fst (sample_allele_frequencies (nth j (p c) []) (nth j (p_prop_var c) #0)
           (sampler c)) in
  let v := nth j (p_prop_var c) #0 in
  let c' := update_p_locus iteration j c in
  exists s ln,
    cells_off #0 S (llik_new c) ln /\
    cells_estimated S c (fun i => nth i (m c) 0%Z) (fun _ => prop)
      (eps_neg c) (eps_pos c) ln /\
    ((exists lo,
        cells_off #0 S (llik_old c) lo /\ cells_synced #0 S lo ln /\
        accepted_against
          (row_total (llik_old c) (num_samples (genotyping_data c)) j) /\
        c' = set_llik_old lo
               (set_p_prop_var
                  (<[j := d_exp (d_log v + step_up iteration)]> (p_prop_var c))
                  (set_p_accept (<[j := (nth j (p_accept c) 0 + 1)%Z]> (p_accept c))
                     (set_p (<[j := prop]> (p c))
                        (set_llik_new ln (set_prop_p prop (set_sampler s c)))))))
     \/ c' = set_p_prop_var
               (<[j := d_exp (d_log v - step_down iteration)]> (p_prop_var c))
               (set_llik_new ln (set_prop_p prop (set_sampler s c)))).
Proof.
  unfold update_p_locus, step_up, step_down.
  destruct (sample_allele_frequencies _ _ _) as [prop s]. cbn [fst]. cbv zeta.
  change (genotyping_data (set_prop_p prop (set_sampler s c)))
    with (genotyping_data c).
  match goal with |- context [for_loop ?n ?b (?c0, #0, #0)] =>
    pose proof (refresh_row n j c0
                : estimated_in _ _ _ _ _ _ (fst (fst (for_loop n b (c0, #0, #0)))))
      as Hscr;
    destruct (orig_sum_loop n b (fun i lo acc => acc + mget #0 lo j i)
                (c0, #0, #0)) as [_ Hsum];
    [ intros i [[c' sc] so]; cbn [fst snd]; rewrite refresh_llik_new_old;
      split; reflexivity |];
    destruct (for_loop n b (c0, #0, #0)) as [[c2 sum_can] sum_orig]
  end.
  cbn [fst snd] in Hscr, Hsum. destruct Hscr as (ln & s2 & Hln & Hest & ->).
  cbn [llik_new set_sampler set_prop_p] in Hln.
  destruct (sample_log_mh_acceptance _) as [u s3].
  exists s3, ln. split; [exact Hln|]. split; [exact Hest|].
  destruct (u <=? sum_can - sum_orig) eqn:Hacc.
  - left.
    match goal with |- context [for_loop ?n ?b ?c0] =>
      change (for_loop n b c0) with
        (for_loop n (fun i c =>
           set_llik_old (mset (llik_old c) j i (mget #0 (llik_new c) j i)) c) c0);
      destruct (commit_row n j c0) as (lo & Hlo & Hsync & ->)
    end.
    exists lo. split; [exact Hlo|]. split; [exact Hsync|].
    split; [|reflexivity]. exists u, sum_can. subst sum_orig. exact Hacc.
  - right. reflexivity.
Qed.

(** [update_eps_pos]: the proposal is out of range, accepted or rejected. *)
Lemma update_eps_pos_cases iteration c :
  let gd := genotyping_data c in
  let S := all_cells (num_loci gd) (num_samples gd) in
  let prop := fst (sample_epsilon_pos (eps_pos c) (eps_pos_var c) (sampler c)) in
  let lowered := eps_pos_var c - step_down iteration in
  let c' := update_eps_pos iteration c in
  ((prop <? max_eps_pos (params c)) && (#0 <? prop) = false /\
   exists s, c' = set_sampler s c)
  \/ ((prop <? max_eps_pos (params c)) && (#0 <? prop) = true /\
      exists s ln,
        cells_off #0 S (llik_new c) ln /\
        cells_estimated S c (fun i => nth i (m c) 0%Z) (fun j => nth j (p c) [])
          (eps_neg c) prop ln /\
        ((exists lo,
            cells_off #0 S (llik_old c) lo /\ cells_synced #0 S lo ln /\
            accepted_against
              (cache_total (llik_old c) (num_loci gd) (num_samples gd)) /\
            c' = set_llik_old lo
                   (set_eps_pos_accept (eps_pos_accept c + 1)%Z
                      (set_eps_pos_var (eps_pos_var c + step_up iteration)
                         (set_eps_pos prop (set_llik_new ln (set_sampler s c))))))
         \/ c' = set_eps_pos_var
                   (if lowered <? UNDERFLO then UNDERFLO else lowered)
                   (set_llik_new ln (set_sampler s c)))).
Proof.
  unfold update_eps_pos, step_up, step_down.
  destruct (sample_epsilon_pos _ _ _) as [x s]. cbn [fst]. cbv zeta.
  change (params (set_sampler s c)) with (params c).
  destruct ((x <? max_eps_pos (params c)) && (#0 <? x));
    [right | left; split; [reflexivity | exists s; reflexivity]].
  split; [reflexivity|].
  pose proof (refresh_all_in (eps_neg (set_sampler s c)) x (set_sampler s c)) as Hscr.
  pose proof (refresh_all_total (eps_neg (set_sampler s c)) x (set_sampler s c)) as Hsum.
  destruct (refresh_all _ _ _) as [[c2 sum_can] sum_orig].
  cbn [fst snd] in Hscr, Hsum.
  cbv zeta in Hscr.
  change (genotyping_data (set_sampler s c)) with (genotyping_data c) in Hscr.
  destruct Hscr as (ln & s2 & Hln & Hest & ->).
  cbn [llik_new set_sampler] in Hln.
  destruct (sample_log_mh_acceptance _) as [u s3].
  exists s3, ln. split; [exact Hln|]. split; [exact Hest|].
  destruct (u <=? sum_can - sum_orig) eqn:Hacc.
  - left.
    match goal with |- context [commit_all ?c0] =>
      destruct (commit_all_in c0) as (lo & Hlo & Hsync & ->) end.
    exists lo. split; [exact Hlo|]. split; [exact Hsync|].
    split; [|reflexivity]. exists u, sum_can. subst sum_orig. exact Hacc.
  - right.
    cbn [eps_pos_var set_eps_pos_var set_sampler set_llik_new].
    match goal with |- context [if ?b then _ else _] => destruct b end;
      reflexivity.
Qed.

(** [update_eps_neg]: the proposal is out of range, accepted or rejected. *)
Lemma update_eps_neg_cases iteration c :
  let gd := genotyping_data c in
  let S := all_cells (num_loci gd) (num_samples gd) in
  let prop := fst (sample_epsilon_neg (eps_neg c) (eps_neg_var c) (sampler c)) in
  let lowered := eps_neg_var c - step_down iteration in
  let c' := update_eps_neg iteration c in
  ((prop <? max_eps_neg (params c)) && (#0 <? prop) = false /\
   exists s, c' = set_sampler s c)
  \/ ((prop <? max_eps_neg (params c)) && (#0 <? prop) = true /\
      exists s ln,
        cells_off #0 S (llik_new c) ln /\
        cells_estimated S c (fun i => nth i (m c) 0%Z) (fun j => nth j (p c) [])
          prop (eps_pos c) ln /\
        ((exists lo,
            cells_off #0 S (llik_old c) lo /\ cells_synced #0 S lo ln /\
            accepted_against
              (cache_total (llik_old c) (num_loci gd) (num_samples gd)) /\
            c' = set_llik_old lo
                   (set_eps_neg_accept (eps_neg_accept c + 1)%Z
                      (set_eps_neg_var (eps_neg_var c + step_up iteration)
                         (set_eps_neg prop (set_llik_new ln (set_sampler s c))))))
         \/ c' = set_eps_neg_var
                   (if lowered <? UNDERFLO then UNDERFLO else lowered)
                   (set_llik_new ln (set_sampler s c)))).
Proof.
  unfold update_eps_neg, step_up, step_down.
  destruct (sample_epsilon_neg _ _ _) as [x s]. cbn [fst]. cbv zeta.
  change (params (set_sampler s c)) with (params c).
  destruct ((x <? max_eps_neg (params c)) && (#0 <? x));
    [right | left; split; [reflexivity | exists s; reflexivity]].
  split; [reflexivity|].
  pose proof (refresh_all_in x (eps_pos (set_sampler s c)) (set_sampler s c)) as Hscr.
  pose proof (refresh_all_total x (eps_pos (set_sampler s c)) (set_sampler s c)) as Hsum.
  destruct (refresh_all _ _ _) as [[c2 sum_can] sum_orig].
  cbn [fst snd] in Hscr, Hsum.
  cbv zeta in Hscr.
  change (genotyping_data (set_sampler s c)) with (genotyping_data c) in Hscr.
  destruct Hscr as (ln & s2 & Hln & Hest & ->).
  cbn [llik_new set_sampler] in Hln.
  destruct (sample_log_mh_acceptance _) as [u s3].
  exists s3, ln. split; [exact Hln|]. split; [exact Hest|].
  destruct (u <=? sum_can - sum_orig) eqn:Hacc.
  - left.
    match goal with |- context [commit_all ?c0] =>
      destruct (commit_all_in c0) as (lo & Hlo & Hsync & ->) end.
    exists lo. split; [exact Hlo|]. split; [exact Hsync|].
    split; [|reflexivity]. exists u, sum_can. subst sum_orig. exact Hacc.
  - right.
    cbn [eps_neg_var set_eps_neg_var set_sampler set_llik_new].
    match goal with |- context [if ?b then _ else _] => destruct b end;
      reflexivity.
Qed.

End BlockBranches.

(** ** What each block writes *)

Lemma loop_preorder {St} (R : St -> St -> Prop) n (body : nat -> St -> St) s :
  (forall a, R a a) -> (forall a b c, R a b -> R b c -> R a c) ->
  (forall k s', (k < n)%nat -> R s' (body k s')) ->
  R s (for_loop n body s).
Proof.
  intros Hrefl Htrans Hbody. apply (for_loop_inv (fun _ s' => R s s')).
  - apply Hrefl.
  - intros k s' Hk Hs'. eapply Htrans; [exact Hs' | apply Hbody; exact Hk].
Qed.

Section BlockFrames.
Context {D : Type} `{Double D} `{Sampler D}.
Local Open Scope dbl_scope.

Lemma coi_block_of_refl c : coi_block_of c c.
Proof.
  exists (sampler c), (llik_new c), (llik_old c), (m c), (m_prop_mean c),
    (m_accept c). destruct c; reflexivity.
Qed.

Lemma coi_block_of_trans c1 c2 c3 :
  coi_block_of c1 c2 -> coi_block_of c2 c3 -> coi_block_of c1 c3.
Proof.
  intros (s & ln & lo & mv & mp & ma & ->) (s' & ln' & lo' & mv' & mp' & ma' & ->).
  exists s', ln', lo', mv', mp', ma'. reflexivity.
Qed.

Lemma update_m_sample_writes iteration k c :
  coi_block_of c (update_m_sample iteration k c).
Proof.
  destruct (update_m_sample_cases iteration k c)
    as [(_ & s & E) | [(_ & _ & s & E) | [(_ & _ & s & ln & lo & _ & _ & _ & _ & _ & E)
        | (_ & _ & s & ln & _ & _ & E)]]];
    rewrite E;
    match goal with |- coi_block_of _ ?c' =>
      exists (sampler c'), (llik_new c'), (llik_old c'), (m c'),
        (m_prop_mean c'), (m_accept c'); reflexivity end.
Qed.

Lemma frequency_block_of_refl c : frequency_block_of c c.
Proof.
  exists (sampler c), (prop_p c), (llik_new c), (llik_old c), (p c),
    (p_accept c), (p_prop_var c). destruct c; reflexivity.
Qed.

Lemma frequency_block_of_trans c1 c2 c3 :
  frequency_block_of c1 c2 -> frequency_block_of c2 c3 -> frequency_block_of c1 c3.
Proof.
  intros (s & pp & ln & lo & pv & pa & pvar & ->)
         (s' & pp' & ln' & lo' & pv' & pa' & pvar' & ->).
  exists s', pp', ln', lo', pv', pa', pvar'. reflexivity.
Qed.

Lemma update_p_locus_writes iteration j c :
  frequency_block_of c (update_p_locus iteration j c).
Proof.
  destruct (update_p_locus_cases iteration j c)
    as (s & ln & _ & _ & [(lo & _ & _ & _ & E) | E]);
    rewrite E;
    match goal with |- frequency_block_of _ ?c' =>
      exists (sampler c'), (prop_p c'), (llik_new c'), (llik_old c'), (p c'),
        (p_accept c'), (p_prop_var c'); reflexivity end.
Qed.

End BlockFrames.

Section BlockWrites.
Context {D : Type} `{Double D} `{Sampler D}.

Lemma update_m_coi_block iteration c : coi_block_of c (update_m iteration c).
Proof.
  unfold update_m. apply loop_preorder.
  - apply coi_block_of_refl.
  - apply coi_block_of_trans.
  - intros k c' _. apply update_m_sample_writes.
Qed.

Lemma update_p_frequency_block iteration c :
  frequency_block_of c (update_p iteration c).
Proof.
  unfold update_p. apply loop_preorder.
  - apply frequency_block_of_refl.
  - apply frequency_block_of_trans.
  - intros k c' _. apply update_p_locus_writes.
Qed.

Lemma update_eps_pos_block iteration c :
  eps_pos_block_of c (update_eps_pos iteration c).
Proof.
  destruct (update_eps_pos_cases iteration c)
    as [(_ & s & E) | (_ & s & ln & _ & _ & [(lo & _ & _ & _ & E) | E])];
    rewrite E;
    match goal with |- eps_pos_block_of _ ?c' =>
      exists (sampler c'), (llik_new c'), (llik_old c'), (eps_pos c'),
        (eps_pos_var c'), (eps_pos_accept c'); reflexivity end.
Qed.

Lemma update_eps_neg_block iteration c :
  eps_neg_block_of c (update_eps_neg iteration c).
Proof.
  destruct (update_eps_neg_cases iteration c)
    as [(_ & s & E) | (_ & s & ln & _ & _ & [(lo & _ & _ & _ & E) | E])];
    rewrite E;
    match goal with |- eps_neg_block_of _ ?c' =>
      exists (sampler c'), (llik_new c'), (llik_old c'), (eps_neg c'),
        (eps_neg_var c'), (eps_neg_accept c'); reflexivity end.
Qed.

End BlockWrites.

(** X4. [update_m] writes [m], [m_accept], [m_prop_mean], the two caches
    and the sampler, and nothing else: the allele frequencies, the error
    rates, their counters and scales, [llik] and the configuration are as
    before. *)
Theorem update_m_writes {D : Type} `{Double D} `{Sampler D}
    (iteration : Z) (c : Chain) :
  coi_block_of c (update_m iteration c).
Proof. apply update_m_coi_block. Qed.

(** X5. [update_p] writes [p], [prop_p], [p_accept], [p_prop_var], the two
    caches and the sampler, and nothing else. *)
Theorem update_p_writes {D : Type} `{Double D} `{Sampler D}
    (iteration : Z) (c : Chain) :
  frequency_block_of c (update_p iteration c).
Proof. apply update_p_frequency_block. Qed.

(** X6. [update_eps_pos] writes [eps_pos], its counter and its variance,
    the two caches and the sampler, and nothing else; [update_eps_neg]
    likewise for [eps_neg]. *)
Theorem update_eps_writes {D : Type} `{Double D} `{Sampler D}
    (iteration : Z) (c : Chain) :
  eps_pos_block_of c (update_eps_pos iteration c) /\
  eps_neg_block_of c (update_eps_neg iteration c).
Proof. split; [apply update_eps_pos_block | apply update_eps_neg_block]. Qed.

(** ** The sizes of the vectors *)

Section BlockShapes.
Context {D : Type} `{Double D} `{Sampler D}.
Local Open Scope dbl_scope.

Ltac keep_shape Hws :=
  unfold well_shaped in *; chain_fields; cbv zeta in *;
  rewrite ?length_insert;
  destruct Hws as (? & ? & ? & ? & ? & ? & ? & ?);
  do 7 (split; [first [assumption | eapply has_shape_same; eassumption] |]);
  first [assumption | eapply has_shape_same; eassumption].

Lemma update_m_sample_shape iteration k c :
  well_shaped c -> well_shaped (update_m_sample iteration k c).
Proof.
  intros Hws.
  destruct (update_m_sample_cases iteration k c)
    as [(_ & s & E) | [(_ & _ & s & E)
        | [(_ & _ & s & ln & lo & [Hln _] & _ & [Hlo _] & _ & _ & E)
        | (_ & _ & s & ln & [Hln _] & _ & E)]]];
    rewrite E; clear E; keep_shape Hws.
Qed.

Lemma update_p_locus_shape iteration j c :
  well_shaped c -> well_shaped (update_p_locus iteration j c).
Proof.
  intros Hws.
  destruct (update_p_locus_cases iteration j c)
    as (s & ln & [Hln _] & _ & [(lo & [Hlo _] & _ & _ & E) | E]);
    rewrite E; clear E; keep_shape Hws.
Qed.

Lemma update_eps_pos_shape iteration c :
  well_shaped c -> well_shaped (update_eps_pos iteration c).
Proof.
  intros Hws.
  destruct (update_eps_pos_cases iteration c)
    as [(_ & s & E) | (_ & s & ln & [Hln _] & _ & [(lo & [Hlo _] & _ & _ & E) | E])];
    rewrite E; clear E; keep_shape Hws.
Qed.

Lemma update_eps_neg_shape iteration c :
  well_shaped c -> well_shaped (update_eps_neg iteration c).
Proof.
  intros Hws.
  destruct (update_eps_neg_cases iteration c)
    as [(_ & s & E) | (_ & s & ln & [Hln _] & _ & [(lo & [Hlo _] & _ & _ & E) | E])];
    rewrite E; clear E; keep_shape Hws.
Qed.

Lemma update_m_shape iteration c :
  well_shaped c -> well_shaped (update_m iteration c).
Proof.
  intros Hws. unfold update_m.
  apply (for_loop_inv (fun _ c' => well_shaped c')); [exact Hws|].
  intros k c' _ Hc'. apply update_m_sample_shape. exact Hc'.
Qed.

Lemma update_p_shape iteration c :
  well_shaped c -> well_shaped (update_p iteration c).
Proof.
  intros Hws. unfold update_p.
  apply (for_loop_inv (fun _ c' => well_shaped c')); [exact Hws|].
  intros k c' _ Hc'. apply update_p_locus_shape. exact Hc'.
Qed.

End BlockShapes.

(** X7. The four blocks keep the sizes of the vectors: [m], [m_accept] and
    [m_prop_mean] have one entry per sample, [p], [p_accept] and
    [p_prop_var] one per locus, and the two caches are [num_loci] rows of
    [num_samples] cells, after a block as before it. *)
Theorem blocks_keep_shape {D : Type} `{Double D} `{Sampler D}
    (iteration : Z) (c : Chain) :
  well_shaped c ->
  well_shaped (update_m iteration c) /\
  well_shaped (update_p iteration c) /\
  well_shaped (update_eps_pos iteration c) /\
  well_shaped (update_eps_neg iteration c).
Proof.
  intros Hws. split; [|split; [|split]].
  - apply update_m_shape. exact Hws.
  - apply update_p_shape. exact Hws.
  - apply update_eps_pos_shape. exact Hws.
  - apply update_eps_neg_shape. exact Hws.
Qed.

(** ** A move is counted, and it commits the cache *)

Section CacheRows.
Context {A : Type}.
Implicit Types (v w : list (list A)) (d : A) (S : nat -> nat -> Prop).

Lemma cells_off_row d S v v' j :
  cells_off d S v v' -> (forall i, ~ S j i) -> nth j v' [] = nth j v [].
Proof.
  intros [[_ Hrows] Hcells] HS. apply (nth_eq d); [apply Hrows|].
  intros i _. apply Hcells, HS.
Qed.

Lemma cells_synced_row d rows cells v w j :
  cells_synced d (locus_cells cells j) v w -> (j < rows)%nat ->
  has_shape rows cells v -> has_shape rows cells w ->
  nth j v [] = nth j w [].
Proof.
  intros Hsync Hj [Hv Hv'] [Hw Hw']. apply (nth_eq d).
  - rewrite Hv', Hw' by exact Hj. reflexivity.
  - intros i Hi. rewrite Hv' in Hi by exact Hj. apply Hsync.
    + split; [reflexivity | exact Hi].
    + split; [lia | rewrite Hv' by exact Hj; exact Hi].
Qed.

Lemma cells_synced_all d rows cells v w :
  cells_synced d (all_cells rows cells) v w ->
  has_shape rows cells v -> has_shape rows cells w -> v = w.
Proof.
  intros Hsync Hv Hw. apply (cells_eq d rows cells); [exact Hv | exact Hw|].
  intros j i Hj Hi. apply Hsync; [split; assumption|].
  destruct Hv as [Hv Hv']. split; [lia | rewrite Hv' by exact Hj; exact Hi].
Qed.

Lemma cells_synced_column d rows cells v w i :
  cells_synced d (coi_cells rows i) v w -> (i < cells)%nat ->
  has_shape rows cells v ->
  forall j, (j < rows)%nat -> mget d v j i = mget d w j i.
Proof.
  intros Hsync Hi [Hv Hv'] j Hj. apply Hsync; [split; [reflexivity | exact Hj]|].
  split; [lia | rewrite Hv' by exact Hj; exact Hi].
Qed.

End CacheRows.

Section BlockMoves.
Context {D : Type} `{Double D} `{Sampler D}.
Local Open Scope dbl_scope.

(** Locus [k] of [update_p], seen from locus [j]. *)
Lemma update_p_locus_rows iteration k c j :
  well_shaped c ->
  let c' := update_p_locus iteration k c in
  genotyping_data c' = genotyping_data c /\
  (j <> k ->
   nth j (p c') [] = nth j (p c) [] /\
   nth j (p_accept c') 0%Z = nth j (p_accept c) 0%Z /\
   nth j (llik_old c') [] = nth j (llik_old c) [] /\
   nth j (llik_new c') [] = nth j (llik_new c) []) /\
  (j = k -> (j < num_loci (genotyping_data c))%nat ->
   (nth j (p c') [] = nth j (p c) [] /\
    nth j (p_accept c') 0%Z = nth j (p_accept c) 0%Z /\
    nth j (llik_old c') [] = nth j (llik_old c) [])
   \/ (nth j (p_accept c') 0%Z = (nth j (p_accept c) 0 + 1)%Z /\
       nth j (llik_old c') [] = nth j (llik_new c') [])).
Proof.
  intros Hws. cbv zeta.
  assert (Hoff : forall i, j <> k ->
            ~ locus_cells (num_samples (genotyping_data c)) k j i)
    by (intros i Hne [E _]; exact (Hne E)).
  destruct Hws as (_ & _ & _ & Hp & Hpa & _ & Hlo0 & Hln0).
  destruct (update_p_locus_cases iteration k c)
    as (s & ln & Hln & _ & [(lo & Hlo & Hsync & _ & E) | E]);
    rewrite E; clear E; chain_fields.
  - split; [reflexivity|]. split.
    + intros Hne. rewrite !nth_insert_ne by congruence.
      repeat split; try reflexivity.
      * eapply cells_off_row; [exact Hlo | intros i; apply Hoff, Hne].
      * eapply cells_off_row; [exact Hln | intros i; apply Hoff, Hne].
    + intros -> Hj. right. rewrite nth_insert_eq by lia. split; [reflexivity|].
      eapply (cells_synced_row #0); [exact Hsync | exact Hj | |].
      * eapply has_shape_same; [apply Hlo | exact Hlo0].
      * eapply has_shape_same; [apply Hln | exact Hln0].
  - split; [reflexivity|]. split.
    + intros Hne. repeat split; try reflexivity.
      eapply cells_off_row; [exact Hln | intros i; apply Hoff, Hne].
    + intros _ _. left. repeat split; reflexivity.
Qed.

(** Sample [k] of [update_m], seen from sample [i]. *)
Lemma update_m_sample_columns iteration k c i :
  well_shaped c ->
  let c' := update_m_sample iteration k c in
  let L := num_loci (genotyping_data c) in
  genotyping_data c' = genotyping_data c /\
  (i <> k ->
   nth i (m c') 0%Z = nth i (m c) 0%Z /\
   nth i (m_accept c') 0%Z = nth i (m_accept c) 0%Z /\
   (forall j, mget #0 (llik_old c') j i = mget #0 (llik_old c) j i) /\
   (forall j, mget #0 (llik_new c') j i = mget #0 (llik_new c) j i)) /\
  (i = k -> (i < num_samples (genotyping_data c))%nat ->
   (nth i (m c') 0%Z = nth i (m c) 0%Z /\
    (nth i (m_accept c') 0%Z = nth i (m_accept c) 0%Z \/
     nth i (m_accept c') 0%Z = (nth i (m_accept c) 0 + 1)%Z) /\
    (forall j, mget #0 (llik_old c') j i = mget #0 (llik_old c) j i))
   \/ (nth i (m c') 0%Z <> nth i (m c) 0%Z /\
       nth i (m_accept c') 0%Z = (nth i (m_accept c) 0 + 1)%Z /\
       (forall j, (j < L)%nat ->
          mget #0 (llik_old c') j i = mget #0 (llik_new c') j i))).
Proof.
  intros Hws. cbv zeta.
  assert (Hoff : forall j, i <> k ->
            ~ coi_cells (num_loci (genotyping_data c)) k j i)
    by (intros j Hne [E _]; exact (Hne E)).
  destruct Hws as (Hm & Hma & _ & _ & _ & _ & Hlo0 & Hln0).
  destruct (update_m_sample_cases iteration k c)
    as [(_ & s & E) | [(_ & _ & s & E)
        | [(Hprop & _ & s & ln & lo & Hln & _ & Hlo & Hsync & _ & E)
        | (_ & _ & s & ln & Hln & _ & E)]]];
    rewrite E; clear E; chain_fields.
  - split; [reflexivity|]. split.
    + intros Hne. rewrite !nth_insert_ne by congruence.
      repeat split; reflexivity.
    + intros -> Hi. left. rewrite nth_insert_eq by lia.
      split; [reflexivity|]. split; [right; reflexivity | reflexivity].
  - split; [reflexivity|]. split.
    + intros _. repeat split; reflexivity.
    + intros _ _. left. split; [reflexivity|].
      split; [left; reflexivity | reflexivity].
  - split; [reflexivity|]. split.
    + intros Hne. rewrite !nth_insert_ne by congruence.
      split; [reflexivity|]. split; [reflexivity|]. split.
      * intros j. apply Hlo, Hoff, Hne.
      * intros j. apply Hln, Hoff, Hne.
    + intros -> Hi. right. rewrite !nth_insert_eq by lia.
      split; [exact Hprop|]. split; [reflexivity|].
      eapply (cells_synced_column #0); [exact Hsync | exact Hi|].
      eapply has_shape_same; [apply Hlo | exact Hlo0].
  - split; [reflexivity|]. split.
    + intros Hne. split; [reflexivity|]. split; [reflexivity|]. split.
      * reflexivity.
      * intros j. apply Hln, Hoff, Hne.
    + intros _ _. left. split; [reflexivity|].
      split; [left; reflexivity | reflexivity].
Qed.

End BlockMoves.

(** X8. [update_eps_pos] on a chain with vectors of the right sizes either
    leaves [eps_pos], its counter and [llik_old] as they were, or it sets
    [eps_pos] to the proposal, adds one to the counter and leaves in
    [llik_old] exactly what is in [llik_new]. *)
Theorem update_eps_pos_moves {D : Type} `{Double D} `{Sampler D}
    (iteration : Z) (c : Chain) :
  well_shaped c ->
  let c' := update_eps_pos iteration c in
  let prop := fst (sample_epsilon_pos (eps_pos c) (eps_pos_var c) (sampler c)) in
  (eps_pos c' = eps_pos c /\ eps_pos_accept c' = eps_pos_accept c /\
   llik_old c' = llik_old c)
  \/ (eps_pos c' = prop /\ eps_pos_accept c' = (eps_pos_accept c + 1)%Z /\
      llik_old c' = llik_new c').
Proof.
  intros (_ & _ & _ & _ & _ & _ & Hlo0 & Hln0). cbv zeta.
  destruct (update_eps_pos_cases iteration c)
    as [(_ & s & E) | (_ & s & ln & Hln & _ & [(lo & Hlo & Hsync & _ & E) | E])];
    rewrite E; clear E; chain_fields.
  - left. repeat split; reflexivity.
  - right. split; [reflexivity|]. split; [reflexivity|].
    eapply (cells_synced_all (d_of_int 0)); [exact Hsync | |].
    + eapply has_shape_same; [apply Hlo | exact Hlo0].
    + eapply has_shape_same; [apply Hln | exact Hln0].
  - left. repeat split; reflexivity.
Qed.

(** X9. [update_eps_neg] on a chain with vectors of the right sizes either
    leaves [eps_neg], its counter and [llik_old] as they were, or it sets
    [eps_neg] to the proposal, adds one to the counter and leaves in
    [llik_old] exactly what is in [llik_new]. *)
Theorem update_eps_neg_moves {D : Type} `{Double D} `{Sampler D}
    (iteration : Z) (c : Chain) :
  well_shaped c ->
  let c' := update_eps_neg iteration c in
  let prop := fst (sample_epsilon_neg (eps_neg c) (eps_neg_var c) (sampler c)) in
  (eps_neg c' = eps_neg c /\ eps_neg_accept c' = eps_neg_accept c /\
   llik_old c' = llik_old c)
  \/ (eps_neg c' = prop /\ eps_neg_accept c' = (eps_neg_accept c + 1)%Z /\
      llik_old c' = llik_new c').
Proof.
  intros (_ & _ & _ & _ & _ & _ & Hlo0 & Hln0). cbv zeta.
  destruct (update_eps_neg_cases iteration c)
    as [(_ & s & E) | (_ & s & ln & Hln & _ & [(lo & Hlo & Hsync & _ & E) | E])];
    rewrite E; clear E; chain_fields.
  - left. repeat split; reflexivity.
  - right. split; [reflexivity|]. split; [reflexivity|].
    eapply (cells_synced_all (d_of_int 0)); [exact Hsync | |].
    + eapply has_shape_same; [apply Hlo | exact Hlo0].
    + eapply has_shape_same; [apply Hln | exact Hln0].
  - left. repeat split; reflexivity.
Qed.

(** X10. After [update_p] on a chain with vectors of the right sizes, every
    locus [j] either has its row of [p], its counter and its row of
    [llik_old] as before, or its counter is one higher and its row of
    [llik_old] is its row of [llik_new]. *)
Theorem update_p_moves {D : Type} `{Double D} `{Sampler D}
    (iteration : Z) (c : Chain) (j : nat) :
  well_shaped c ->
  (j < num_loci (genotyping_data c))%nat ->
  let c' := update_p iteration c in
  (nth j (p c') [] = nth j (p c) [] /\
   nth j (p_accept c') 0%Z = nth j (p_accept c) 0%Z /\
   nth j (llik_old c') [] = nth j (llik_old c) [])
  \/ (nth j (p_accept c') 0%Z = (nth j (p_accept c) 0 + 1)%Z /\
      nth j (llik_old c') [] = nth j (llik_new c') []).
Proof.
  intros Hws Hj. cbv zeta. unfold update_p.
  set (L := num_loci (genotyping_data c)) in *.
  assert (Inv : let c' := for_loop L (update_p_locus iteration) c in
    well_shaped c' /\ genotyping_data c' = genotyping_data c /\
    ((L <= j)%nat ->
       nth j (p c') [] = nth j (p c) [] /\
       nth j (p_accept c') 0%Z = nth j (p_accept c) 0%Z /\
       nth j (llik_old c') [] = nth j (llik_old c) []) /\
    ((j < L)%nat ->
       (nth j (p c') [] = nth j (p c) [] /\
        nth j (p_accept c') 0%Z = nth j (p_accept c) 0%Z /\
        nth j (llik_old c') [] = nth j (llik_old c) [])
       \/ (nth j (p_accept c') 0%Z = (nth j (p_accept c) 0 + 1)%Z /\
           nth j (llik_old c') [] = nth j (llik_new c') []))).
  { apply (for_loop_inv (fun k c' =>
      well_shaped c' /\ genotyping_data c' = genotyping_data c /\
      ((k <= j)%nat ->
         nth j (p c') [] = nth j (p c) [] /\
         nth j (p_accept c') 0%Z = nth j (p_accept c) 0%Z /\
         nth j (llik_old c') [] = nth j (llik_old c) []) /\
      ((j < k)%nat ->
         (nth j (p c') [] = nth j (p c) [] /\
          nth j (p_accept c') 0%Z = nth j (p_accept c) 0%Z /\
          nth j (llik_old c') [] = nth j (llik_old c) [])
         \/ (nth j (p_accept c') 0%Z = (nth j (p_accept c) 0 + 1)%Z /\
             nth j (llik_old c') [] = nth j (llik_new c') [])))).
    - split; [exact Hws|]. split; [reflexivity|].
      split; [intros _; repeat split; reflexivity | lia].
    - intros k c' Hk (Hws' & Hgd & Hbefore & Hafter).
      pose proof (update_p_locus_shape iteration k c' Hws') as Hws''.
      destruct (update_p_locus_rows iteration k c' j Hws') as (Hgd' & Hother & Hthis).
      split; [exact Hws''|]. split; [congruence|].
      destruct (Nat.eq_dec j k) as [-> | Hne].
      + split; [lia|]. intros _.
        destruct (Hbefore ltac:(lia)) as (Ep & Ea & El).
        destruct (Hthis eq_refl) as [(Ep' & Ea' & El') | (Ea' & El')].
        * rewrite Hgd. exact Hk.
        * left. repeat split; congruence.
        * right. split; [congruence | exact El'].
      + destruct (Hother Hne) as (Ep' & Ea' & El' & En'). split.
        * intros Hle. destruct (Hbefore ltac:(lia)) as (Ep & Ea & El).
          repeat split; congruence.
        * intros Hlt. destruct (Hafter ltac:(lia)) as [(Ep & Ea & El) | (Ea & El)].
          -- left. repeat split; congruence.
          -- right. split; congruence. }
  cbv zeta in Inv. destruct Inv as (_ & _ & _ & Hafter). apply Hafter. exact Hj.
Qed.


(** ** The constructed chain *)

Section Construction.
Context {D : Type} `{Double D} `{Sampler D}.
Local Open Scope dbl_scope.

Lemma resize_nil {A} n (x : A) : resize n x [] = replicate n x.
Proof.
  unfold resize. rewrite take_nil. cbn [length app]. rewrite Nat.sub_0_r.
  reflexivity.
Qed.

(** [initialize_p] writes [p] and [p_accept] only. *)
Lemma initialize_p_writes (c : Chain) :
  exists pv,
    initialize_p c
    = set_p pv (set_p_accept
                  (resize (num_loci (genotyping_data c)) 0%Z (p_accept c)) c).
Proof.
  unfold initialize_p. cbv zeta.
  set (c1 := set_p_accept _ c).
  match goal with |- context [for_loop ?n ?b ?st] =>
    assert (Inv : exists pv, snd (for_loop n b st) = set_p pv c1);
    [ apply (for_loop_inv (fun _ r => exists pv, snd r = set_p pv c1))
    | destruct (for_loop n b st) as [[tla ta] c']; exact Inv ]
  end.
  - exists (p c1). destruct c; reflexivity.
  - intros i [[tla ta] c'] _ [pv Hc']. cbn [snd] in *. subst c'.
    match goal with |- context [for_loop ?n ?b (?x, ?y)] =>
      destruct (for_loop n b (x, y)) as [tla' ta'] end.
    cbn [snd].
    apply (for_loop_inv (fun _ c'' => exists pv', c'' = set_p pv' c1)).
    + eexists. reflexivity.
    + intros j c'' _ [pv' ->]. eexists. reflexivity.
Qed.

(** [initialize_likelihood] on empty caches: both caches get the same
    [num_loci] rows of [num_samples] cells, each an estimate at the state
    the chain is in. *)
Lemma initialize_likelihood_caches (c : Chain) :
  llik_old c = [] -> llik_new c = [] ->
  exists lo s,
    has_shape (num_loci (genotyping_data c)) (num_samples (genotyping_data c)) lo /\
    cells_estimated
      (all_cells (num_loci (genotyping_data c)) (num_samples (genotyping_data c)))
      c (fun i => nth i (m c) 0%Z) (fun j => nth j (p c) [])
      (eps_neg c) (eps_pos c) lo /\
    initialize_likelihood c = set_llik_new lo (set_llik_old lo (set_sampler s c)).
Proof.
  intros Hlo Hln. unfold initialize_likelihood. cbv zeta.
  set (L := num_loci (genotyping_data c)).
  set (N := num_samples (genotyping_data c)).
  set (coi := fun i => nth i (m c) 0%Z).
  set (freq := fun j => nth j (p c) []).
  apply (for_loop_inv (fun k c' =>
    exists lo s,
      has_shape k N lo /\
      cells_estimated (all_cells k N) c coi freq (eps_neg c) (eps_pos c) lo /\
      c' = set_llik_new lo (set_llik_old lo (set_sampler s c)))).
  - exists [], (sampler c). split; [split; [reflexivity | lia]|].
    split; [intros j i [Hj _]; lia|].
    destruct c; cbn in *; subst; reflexivity.
  - intros j c' _ (lo & s & [Hlen Hrows] & Hest & ->). chain_fields.
    set (lo1 := lo ++ [replicate N #0]).
    assert (Hshape1 : has_shape (S j) N lo1).
    { subst lo1. split; [rewrite length_app; cbn; lia|].
      intros j' Hj'. destruct (Nat.eq_dec j' j) as [-> | Hne].
      - rewrite app_nth2 by lia. rewrite Hlen, Nat.sub_diag. cbn [nth].
        apply length_replicate.
      - rewrite app_nth1 by lia. apply Hrows. lia. }
    assert (Hest1 : cells_estimated (all_cells j N) c coi freq
                      (eps_neg c) (eps_pos c) lo1).
    { intros j' i' [Hj' Hi'] _. subst lo1. unfold mget.
      rewrite app_nth1 by lia. apply Hest; [split; assumption|].
      split; [lia | rewrite Hrows by exact Hj'; exact Hi']. }
    match goal with |- exists lo0 s0, _ /\ _ /\ for_loop N ?b ?st = _ =>
      assert (G : exists lo' s',
        has_shape (S j) N lo' /\
        cells_estimated (fun j' i' => all_cells j N j' i' \/ locus_cells N j j' i')
          c coi freq (eps_neg c) (eps_pos c) lo' /\
        for_loop N b st = set_llik_new lo' (set_llik_old lo' (set_sampler s' c)));
      [|destruct G as (lo' & s' & Hs & He & ->); exists lo', s';
        split; [exact Hs|]; split; [|reflexivity];
        intros j' i' HS Hin; apply He; [|exact Hin];
        unfold all_cells, locus_cells in *; lia]
    end.
    apply (for_loop_inv (fun l c'' =>
      exists lo' s',
        has_shape (S j) N lo' /\
        cells_estimated (fun j' i' => all_cells j N j' i' \/ locus_cells l j j' i')
          c coi freq (eps_neg c) (eps_pos c) lo' /\
        c'' = set_llik_new lo' (set_llik_old lo' (set_sampler s' c)))).
    + exists lo1, s. split; [exact Hshape1|]. split; [|reflexivity].
      intros j' i' [HS | [_ HS]] Hin; [|lia]. apply Hest1; assumption.
    + intros i c'' _ (lo' & s' & Hshape' & Hest' & ->). chain_fields.
      destruct (calc_genotype_marginal_llik _ _ _ _ _ _ _ _) as [l s''] eqn:E.
      chain_fields. exists (mset lo' j i l), s''.
      split; [eapply has_shape_same; [apply same_shape_mset | exact Hshape']|].
      split; [|reflexivity].
      intros j' i' HS Hin.
      pose proof (in_range_same _ _ _ _ (same_shape_mset lo' j i l) Hin) as Hin'.
      destruct (Nat.eq_dec j' j) as [-> | Hj];
        [destruct (Nat.eq_dec i' i) as [-> | Hi]|].
      * rewrite mget_mset_eq by exact Hin'. exists s'. unfold observed_at.
        subst coi freq. cbv beta. rewrite E. reflexivity.
      * rewrite mget_mset_ne by (intros [_ G]; exact (Hi G)).
        apply Hest'; [|exact Hin'].
        unfold all_cells, locus_cells in *. lia.
      * rewrite mget_mset_ne by (intros [G _]; exact (Hj G)).
        apply Hest'; [|exact Hin'].
        unfold all_cells, locus_cells in *. lia.
Qed.

(** The members of the constructed chain. *)
Lemma Chain_new_members gd lk ps :
  exists pv lo s,
    length pv = num_loci gd /\
    has_shape (num_loci gd) (num_samples gd) lo /\
    (forall j i, (j < num_loci gd)%nat -> (i < num_samples gd)%nat ->
       exists s0,
         mget #0 lo j i
         = fst (calc_genotype_marginal_llik ps lk
                  (nth i (nth j (observed_alleles gd) []) [])
                  (nth i (observed_coi gd) 0%Z) (nth j pv [])
                  (eps_neg_0 ps) (eps_pos_0 ps) s0)) /\
    Chain_new gd lk ps = {|
      genotyping_data := gd; lookup := lk; params := ps; sampler := s;
      llik := #0; llik_old := lo; llik_new := lo;
      m := observed_coi gd; p := pv;
      eps_pos := eps_pos_0 ps; eps_neg := eps_neg_0 ps; prop_p := [];
      m_accept := replicate (num_samples gd) 0%Z;
      p_accept := replicate (num_loci gd) 0%Z;
      eps_pos_accept := 0; eps_neg_accept := 0;
      m_prop_mean := replicate (num_samples gd) #1;
      p_prop_var := replicate (num_loci gd) #1;
      eps_pos_var := lit_0_05; eps_neg_var := lit_0_05 |}.
Proof.
  unfold Chain_new. cbv zeta.
  match goal with |- context [initialize_p ?c0] =>
    destruct (initialize_p_writes c0) as [pv Epv];
    destruct (initialize_p_rows c0 eq_refl) as (Hlen & _ & _);
    rewrite Epv in *; clear Epv
  end.
  chain_fields.
  match goal with |- context [initialize_likelihood ?c1] =>
    destruct (initialize_likelihood_caches c1 eq_refl eq_refl)
      as (lo & s & Hshape & Hest & ->)
  end.
  unfold initialize_eps_pos, initialize_eps_neg, initialize_m in *.
  unfold cells_estimated, estimate_at, observed_at in Hest. chain_fields.
  exists pv, lo, s. split; [exact Hlen|]. split; [exact Hshape|]. split.
  - intros j i Hj Hi. apply Hest; [split; assumption|].
    destruct Hshape as [Hl Hr]. split; [lia | rewrite Hr by exact Hj; exact Hi].
  - rewrite !resize_nil. reflexivity.
Qed.

End Construction.

(** X12. The constructed chain: [m] is the observed COI, the error rates
    are their initial values, every counter is zero, the scales are 1 (COI,
    allele frequencies) and 0.05 (error rates), and the two caches hold the
    same values. *)
Theorem Chain_new_state {D : Type} `{Double D} `{Sampler D}
    (data : GenotypingData) (tables : Lookup D) (settings : Parameters D) :
  let c := Chain_new data tables settings in
  let one := d_of_int 1 in
  m c = observed_coi data /\
  eps_pos c = eps_pos_0 settings /\ eps_neg c = eps_neg_0 settings /\
  m_accept c = replicate (num_samples data) 0%Z /\
  p_accept c = replicate (num_loci data) 0%Z /\
  eps_pos_accept c = 0%Z /\ eps_neg_accept c = 0%Z /\
  m_prop_mean c = replicate (num_samples data) one /\
  p_prop_var c = replicate (num_loci data) one /\
  eps_pos_var c = lit_0_05 /\ eps_neg_var c = lit_0_05 /\
  llik_old c = llik_new c.
Proof.
  cbv zeta.
  destruct (Chain_new_members data tables settings)
    as (pv & lo & s & _ & _ & _ & ->).
  chain_fields. repeat split; reflexivity.
Qed.

(** X13. When the data has one observed COI per sample, the vectors of the
    constructed chain have the sizes of the data. *)
Theorem Chain_new_well_shaped {D : Type} `{Double D} `{Sampler D}
    (data : GenotypingData) (tables : Lookup D) (settings : Parameters D) :
  length (observed_coi data) = num_samples data ->
  well_shaped (Chain_new data tables settings).
Proof.
  intros Hcoi.
  destruct (Chain_new_members data tables settings)
    as (pv & lo & s & Hlen & Hshape & _ & ->).
  unfold well_shaped. chain_fields. cbv zeta. rewrite !length_replicate.
  do 7 (split; [first [assumption | reflexivity] |]). exact Hshape.
Qed.

(** ** The cache holds estimates at the current state *)

Section Coherence.
Context {D : Type} `{Double D} `{Sampler D}.
Local Open Scope dbl_scope.

Lemma has_shape_in_range {A} rows cells (v : list (list A)) j i :
  has_shape rows cells v -> (j < rows)%nat -> (i < cells)%nat -> in_range v j i.
Proof.
  intros [Hl Hr] Hj Hi. split; [lia | rewrite Hr by exact Hj; exact Hi].
Qed.

Lemma update_m_sample_coherent iteration k c :
  well_shaped c -> coherent c -> coherent (update_m_sample iteration k c).
Proof.
  intros (Hm & _ & _ & _ & _ & _ & Hlo0 & Hln0) Hc.
  destruct (update_m_sample_cases iteration k c)
    as [(_ & s & E) | [(_ & _ & s & E)
        | [(_ & _ & s & ln & lo & Hln & Hest & Hlo & Hsync & _ & E)
        | (_ & _ & s & ln & _ & _ & E)]]];
    rewrite E; clear E;
    unfold coherent, estimate_at, observed_at in *; chain_fields; cbv zeta in *;
    try exact Hc.
  intros j i Hj Hi.
  assert (Hin_lo : in_range lo j i).
  { eapply has_shape_in_range; [|exact Hj | exact Hi].
    eapply has_shape_same; [apply Hlo | exact Hlo0]. }
  assert (Hin_ln : in_range ln j i).
  { eapply has_shape_in_range; [|exact Hj | exact Hi].
    eapply has_shape_same; [apply Hln | exact Hln0]. }
  destruct (Nat.eq_dec i k) as [-> | Hne].
  - rewrite nth_insert_eq by lia.
    rewrite (Hsync j k (conj eq_refl Hj) Hin_lo).
    destruct (Hest j k (conj eq_refl Hj) Hin_ln) as [s0 E0].
    exists s0. exact E0.
  - rewrite nth_insert_ne by congruence.
    destruct Hlo as [_ Hlo]. rewrite Hlo by (intros [G _]; exact (Hne G)).
    apply Hc; assumption.
Qed.

Lemma update_p_locus_coherent iteration k c :
  well_shaped c -> coherent c -> coherent (update_p_locus iteration k c).
Proof.
  intros (_ & _ & _ & Hp & _ & _ & Hlo0 & Hln0) Hc.
  destruct (update_p_locus_cases iteration k c)
    as (s & ln & Hln & Hest & [(lo & Hlo & Hsync & _ & E) | E]);
    rewrite E; clear E;
    unfold coherent, estimate_at, observed_at in *; chain_fields; cbv zeta in *;
    try exact Hc.
  intros j i Hj Hi.
  assert (Hin_lo : in_range lo j i).
  { eapply has_shape_in_range; [|exact Hj | exact Hi].
    eapply has_shape_same; [apply Hlo | exact Hlo0]. }
  assert (Hin_ln : in_range ln j i).
  { eapply has_shape_in_range; [|exact Hj | exact Hi].
    eapply has_shape_same; [apply Hln | exact Hln0]. }
  destruct (Nat.eq_dec j k) as [-> | Hne].
  - rewrite nth_insert_eq by lia.
    rewrite (Hsync k i (conj eq_refl Hi) Hin_lo).
    destruct (Hest k i (conj eq_refl Hi) Hin_ln) as [s0 E0].
    exists s0. exact E0.
  - rewrite nth_insert_ne by congruence.
    destruct Hlo as [_ Hlo]. rewrite Hlo by (intros [G _]; exact (Hne G)).
    apply Hc; assumption.
Qed.

Lemma update_eps_pos_coherent iteration c :
  well_shaped c -> coherent c -> coherent (update_eps_pos iteration c).
Proof.
  intros (_ & _ & _ & _ & _ & _ & Hlo0 & Hln0) Hc.
  destruct (update_eps_pos_cases iteration c)
    as [(_ & s & E)
        | (_ & s & ln & Hln & Hest & [(lo & Hlo & Hsync & _ & E) | E])];
    rewrite E; clear E;
    unfold coherent, estimate_at, observed_at in *; chain_fields; cbv zeta in *;
    try exact Hc.
  intros j i Hj Hi.
  assert (Hin_lo : in_range lo j i).
  { eapply has_shape_in_range; [|exact Hj | exact Hi].
    eapply has_shape_same; [apply Hlo | exact Hlo0]. }
  assert (Hin_ln : in_range ln j i).
  { eapply has_shape_in_range; [|exact Hj | exact Hi].
    eapply has_shape_same; [apply Hln | exact Hln0]. }
  rewrite (Hsync j i (conj Hj Hi) Hin_lo).
  destruct (Hest j i (conj Hj Hi) Hin_ln) as [s0 E0].
  exists s0. exact E0.
Qed.

Lemma update_eps_neg_coherent iteration c :
  well_shaped c -> coherent c -> coherent (update_eps_neg iteration c).
Proof.
  intros (_ & _ & _ & _ & _ & _ & Hlo0 & Hln0) Hc.
  destruct (update_eps_neg_cases iteration c)
    as [(_ & s & E)
        | (_ & s & ln & Hln & Hest & [(lo & Hlo & Hsync & _ & E) | E])];
    rewrite E; clear E;
    unfold coherent, estimate_at, observed_at in *; chain_fields; cbv zeta in *;
    try exact Hc.
  intros j i Hj Hi.
  assert (Hin_lo : in_range lo j i).
  { eapply has_shape_in_range; [|exact Hj | exact Hi].
    eapply has_shape_same; [apply Hlo | exact Hlo0]. }
  assert (Hin_ln : in_range ln j i).
  { eapply has_shape_in_range; [|exact Hj | exact Hi].
    eapply has_shape_same; [apply Hln | exact Hln0]. }
  rewrite (Hsync j i (conj Hj Hi) Hin_lo).
  destruct (Hest j i (conj Hj Hi) Hin_ln) as [s0 E0].
  exists s0. exact E0.
Qed.

Lemma update_m_coherent iteration c :
  well_shaped c -> coherent c -> coherent (update_m iteration c).
Proof.
  intros Hws Hc. unfold update_m.
  apply (for_loop_inv (fun _ c' => well_shaped c' /\ coherent c')
           _ _ c (conj Hws Hc)).
  intros k c' _ [Hws' Hc']. split.
  - apply update_m_sample_shape. exact Hws'.
  - apply update_m_sample_coherent; assumption.
Qed.

Lemma update_p_coherent iteration c :
  well_shaped c -> coherent c -> coherent (update_p iteration c).
Proof.
  intros Hws Hc. unfold update_p.
  apply (for_loop_inv (fun _ c' => well_shaped c' /\ coherent c')
           _ _ c (conj Hws Hc)).
  intros k c' _ [Hws' Hc']. split.
  - apply update_p_locus_shape. exact Hws'.
  - apply update_p_locus_coherent; assumption.
Qed.

End Coherence.

(** X14. In the constructed chain every cell (j, i) of [llik_old] is a value
    returned by [calc_genotype_marginal_llik] for the observation of sample
    i at locus j, at the chain's m[i], p[j], eps_neg and eps_pos. *)
Theorem Chain_new_coherent {D : Type} `{Double D} `{Sampler D}
    (data : GenotypingData) (tables : Lookup D) (settings : Parameters D) :
  coherent (Chain_new data tables settings).
Proof.
  destruct (Chain_new_members data tables settings)
    as (pv & lo & s & _ & _ & Hest & ->).
  unfold coherent, estimate_at, observed_at. chain_fields. cbv zeta.
  exact Hest.
Qed.

(** X15. On a chain with vectors of the right sizes, each of the four
    blocks keeps the cache coherent with the state: if every cell (j, i) of
    [llik_old] is a value returned by the kernel at m[i], p[j], eps_neg and
    eps_pos before the block, it is one at the m[i], p[j], eps_neg and
    eps_pos the chain has after it, whether the proposals were accepted or
    not. *)
Theorem cache_stays_coherent {D : Type} `{Double D} `{Sampler D}
    (iteration : Z) (c : Chain) :
  well_shaped c -> coherent c ->
  coherent (update_m iteration c) /\
  coherent (update_p iteration c) /\
  coherent (update_eps_pos iteration c) /\
  coherent (update_eps_neg iteration c).
Proof.
  intros Hws Hc. split; [|split; [|split]].
  - apply update_m_coherent; assumption.
  - apply update_p_coherent; assumption.
  - apply update_eps_pos_coherent; assumption.
  - apply update_eps_neg_coherent; assumption.
Qed.

(** ** The rates and the COI scales in exact arithmetic *)

Section ExactBlocks.
Context `{Sampler R}.
Local Open Scope R_scope.

Lemma update_m_sample_scale iteration k c :
  (1 <= iteration)%Z ->
  coi_scales_nonneg c -> coi_scales_nonneg (update_m_sample iteration k c).
Proof.
  intros Hit Hc. unfold coi_scales_nonneg in *.
  pose proof (accept_step_nonneg iteration Hit) as Hstep.
  assert (Hk : 0 <= nth k (m_prop_mean c) 0).
  { destruct (Nat.lt_ge_cases k (length (m_prop_mean c))) as [Hlt | Hge].
    - apply (proj1 (List.Forall_nth _ _) Hc). exact Hlt.
    - rewrite nth_overflow by exact Hge. lra. }
  destruct (update_m_sample_cases iteration k c)
    as [(_ & s & E) | [(_ & _ & s & E)
        | [(_ & _ & s & ln & lo & _ & _ & _ & _ & _ & E)
        | (_ & _ & s & ln & _ & _ & E)]]];
    rewrite E; clear E; chain_fields; unfold step_up, step_down; exact_arith.
  - apply Forall_insert; [exact Hc | lra].
  - exact Hc.
  - apply Forall_insert; [exact Hc | lra].
  - rewrite list_insert_insert_eq. apply Forall_insert; [exact Hc|].
    match goal with |- context [Rltb ?x 0] =>
      destruct (Rltb x 0) eqn:E; [lra|];
      destruct (Rle_or_lt 0 x) as [Hle | Hlt]; [exact Hle|];
      apply Rltb_lt in Hlt; congruence end.
Qed.

Lemma rates_in_range_eps_pos iteration c :
  rates_in_range c -> rates_in_range (update_eps_pos iteration c).
Proof.
  intros Hr. unfold rates_in_range in *.
  destruct (update_eps_pos_cases iteration c)
    as [(_ & s & E) | (Hin & s & ln & _ & _ & [(lo & _ & _ & _ & E) | E])];
    rewrite E; clear E; chain_fields; try exact Hr.
  exact_arith. apply andb_prop in Hin. destruct Hin as [Hmax Hpos].
  apply Rltb_lt in Hmax, Hpos. split; [split; assumption | apply Hr].
Qed.

Lemma rates_in_range_eps_neg iteration c :
  rates_in_range c -> rates_in_range (update_eps_neg iteration c).
Proof.
  intros Hr. unfold rates_in_range in *.
  destruct (update_eps_neg_cases iteration c)
    as [(_ & s & E) | (Hin & s & ln & _ & _ & [(lo & _ & _ & _ & E) | E])];
    rewrite E; clear E; chain_fields; try exact Hr.
  exact_arith. apply andb_prop in Hin. destruct Hin as [Hmax Hpos].
  apply Rltb_lt in Hmax, Hpos. split; [apply Hr | split; assumption].
Qed.

End ExactBlocks.

(** X16. In exact arithmetic and from iteration 1 on, [update_m] keeps the
    entries of [m_prop_mean] at or above zero: an accepted proposal adds to
    the entry, a rejected one subtracts from it and then raises a negative
    result to zero. *)
Theorem update_m_scale_nonneg `{Sampler R} (iteration : Z) (c : Chain) :
  (1 <= iteration)%Z ->
  coi_scales_nonneg c -> coi_scales_nonneg (update_m iteration c).
Proof.
  intros Hit Hc. unfold update_m.
  apply (for_loop_inv (fun _ c' => coi_scales_nonneg c')); [exact Hc|].
  intros k c' _ Hc'. apply update_m_sample_scale; assumption.
Qed.

(** X17. In exact arithmetic, when both error rates lie strictly between 0
    and their maximum, they still do after each of the four blocks. *)
Theorem rates_stay_in_range `{Sampler R} (iteration : Z) (c : Chain) :
  rates_in_range c ->
  rates_in_range (update_m iteration c) /\
  rates_in_range (update_p iteration c) /\
  rates_in_range (update_eps_pos iteration c) /\
  rates_in_range (update_eps_neg iteration c).
Proof.
  intros Hr. split; [|split; [|split]].
  - destruct (update_m_coi_block iteration c) as (s & ln & lo & mv & mp & ma & ->).
    exact Hr.
  - destruct (update_p_frequency_block iteration c)
      as (s & pp & ln & lo & pv & pa & pvar & ->).
    exact Hr.
  - apply rates_in_range_eps_pos. exact Hr.
  - apply rates_in_range_eps_neg. exact Hr.
Qed.

(** ** The kernel, draw by draw *)

Section KernelDraws.
Context {D : Type} `{Double D}.
Local Open Scope dbl_scope.

Lemma nth_map_called (obs : list Z) j : nth j (map called obs) 0%Z = called (nth j obs 0%Z).
Proof. change 0%Z with (called 0) at 1. apply map_nth. Qed.

End KernelDraws.

(** X18. The log weight of draw [d] is computed from the [d]-th count
    vector alone: two buffers of at least [depth] vectors that agree at
    position [d] give the same weight there, whatever else they hold. *)
Theorem log_weight_local {D : Type} `{Double D}
    (lookup : Lookup D) (obs : list Z) (coi : Z) (freq q : list D)
    (en ep : D) (gs gs' : list (list Z)) (depth : Z) (d : nat) :
  (Z.to_nat depth <= length gs)%nat ->
  (Z.to_nat depth <= length gs')%nat ->
  (d < Z.to_nat depth)%nat ->
  nth d gs [] = nth d gs' [] ->
  log_weight lookup obs coi freq q en ep gs depth d
  = log_weight lookup obs coi freq q en ep gs' depth d.
Proof.
  intros Hgs Hgs' Hd Hrow. unfold log_weight.
  rewrite !calc_obs_genotype_lliks_cell by assumption.
  destruct (calc_genotype_log_pmf_shape lookup gs coi freq depth) as [_ E1].
  destruct (calc_genotype_log_pmf_shape lookup gs' coi freq depth) as [_ E1'].
  destruct (calc_genotype_log_pmf_shape lookup gs coi q depth) as [_ E2].
  destruct (calc_genotype_log_pmf_shape lookup gs' coi q depth) as [_ E2'].
  rewrite E1, E1', E2, E2' by exact Hd.
  unfold mget. rewrite Hrow. reflexivity.
Qed.

(** X19. [calc_obs_genotype_lliks] reads of a call only whether it is zero:
    every non-zero entry of the observed genotype counts as an observed
    allele. *)
Theorem calc_obs_genotype_lliks_called {D : Type} `{Double D}
    (obs : list Z) (true_genotypes : list (list Z)) (eps_neg eps_pos : D)
    (num_genotypes : Z) :
  calc_obs_genotype_lliks (map called obs) true_genotypes eps_neg eps_pos
                          num_genotypes
  = calc_obs_genotype_lliks obs true_genotypes eps_neg eps_pos num_genotypes.
Proof.
  unfold calc_obs_genotype_lliks. cbv zeta.
  apply for_loop_ext. intros i lliks _.
  apply for_loop_ext. intros j lliks' _.
  rewrite nth_map_called. unfold called.
  destruct (nth j obs 0%Z =? 0)%Z; reflexivity.
Qed.

Section ExactObservation.
Local Open Scope R_scope.

Lemma sum_over_nonpos n f :
  (forall a, (a < n)%nat -> f a <= 0) -> sum_over n f <= 0.
Proof.
  induction n as [|n IH]; intros Hf; [cbn; lra|].
  rewrite sum_over_S. specialize (Hf n ltac:(lia)) as Hn.
  specialize (IH ltac:(intros; apply Hf; lia)). lra.
Qed.

Lemma ln_below_one x : 0 < x < 1 -> ln x < 0.
Proof.
  intros Hx. rewrite <- ln_1. apply ln_increasing; lra.
Qed.

Lemma obs_term_nonpos en ep o g :
  0 < en < 1 -> 0 < ep < 1 -> (0 <= g)%Z -> obs_term en ep o g <= 0.
Proof.
  intros Hen Hep Hg. unfold obs_term. exact_arith.
  pose proof (ln_below_one en Hen). pose proof (ln_below_one ep Hep).
  pose proof (ln_below_one (1 - en) ltac:(lra)).
  pose proof (ln_below_one (1 - ep) ltac:(lra)).
  apply IZR_le in Hg.
  destruct (negb (o =? 0)%Z), (negb (g =? 0)%Z); nra.
Qed.

End ExactObservation.

(** X20. In exact arithmetic, with both error rates strictly between 0 and
    1 and non-negative latent counts, every cell of
    [calc_obs_genotype_lliks] is at most 0, whatever the calls are. *)
Theorem calc_obs_genotype_lliks_nonpos
    (obs : list Z) (true_genotypes : list (list Z)) (eps_neg eps_pos : R)
    (num_genotypes : Z) (i : nat) :
  (0 < eps_neg < 1)%R -> (0 < eps_pos < 1)%R ->
  (Z.to_nat num_genotypes <= length true_genotypes)%nat ->
  (i < Z.to_nat num_genotypes)%nat ->
  Forall (fun g => (0 <= g)%Z) (nth i true_genotypes []) ->
  (nth i (calc_obs_genotype_lliks obs true_genotypes eps_neg eps_pos
            num_genotypes) 0 <= 0)%R.
Proof.
  intros Hen Hep Hn Hi Hg.
  pose proof (calc_obs_genotype_lliks_cell obs true_genotypes eps_neg eps_pos
                num_genotypes i Hn Hi) as Hcell.
  exact_arith. rewrite Hcell, accumulate_sum, Rplus_0_l.
  apply sum_over_nonpos. intros a Ha. apply obs_term_nonpos; try assumption.
  unfold mget. apply (proj1 (List.Forall_nth _ _) Hg). exact Ha.
Qed.

(** ** The accessor at every instance of the arithmetic *)

Section Accessor.
Context {D : Type} `{Double D} `{Sampler D}.
Local Open Scope dbl_scope.

Lemma calculate_llik_total (c : Chain) :
  calculate_llik c
  = set_llik (cache_total (llik_old c) (num_loci (genotyping_data c))
                (num_samples (genotyping_data c))) c.
Proof.
  unfold calculate_llik, cache_total. cbv zeta.
  change (genotyping_data (set_llik _ c)) with (genotyping_data c).
  generalize (num_loci (genotyping_data c)) as L.
  generalize (num_samples (genotyping_data c)) as N. intros N L.
  assert (Inner : forall j n a,
    for_loop n (fun i c0 => set_llik (llik c0 + mget #0 (llik_old c0) j i) c0)
      (set_llik a c)
    = set_llik (for_loop n (fun i acc => acc + mget #0 (llik_old c) j i) a) c).
  { intros j n a. induction n as [|n IH].
    - rewrite !for_loop_0. reflexivity.
    - rewrite !for_loop_S, IH. reflexivity. }
  induction L as [|L IH].
  - rewrite !for_loop_0. reflexivity.
  - rewrite !for_loop_S, IH, Inner. reflexivity.
Qed.

End Accessor.

(** X21. [get_llik] starts its sum afresh: the value does not depend on
    what [llik] held before, asking twice gives the same value twice, and
    the only member written is [llik]. *)
Theorem get_llik_afresh {D : Type} `{Double D} `{Sampler D}
    (c : Chain) (x : D) :
  fst (get_llik (set_llik x c)) = fst (get_llik c) /\
  fst (get_llik (snd (get_llik c))) = fst (get_llik c) /\
  snd (get_llik (snd (get_llik c))) = snd (get_llik c) /\
  snd (get_llik c) = set_llik (fst (get_llik c)) c.
Proof.
  unfold get_llik. cbv zeta. cbn [fst snd].
  repeat (rewrite calculate_llik_total; chain_fields).
  repeat split; reflexivity.
Qed.

(** ** The rows of [p] come from the sampler *)

Section ProposedRows.
Context {D : Type} `{Double D} `{Sampler D}.
Local Open Scope dbl_scope.

Lemma update_p_locus_keeps_rows (P : list D -> Prop) iteration j c :
  (forall row v s, P row -> P (fst (sample_allele_frequencies row v s))) ->
  Forall P (p c) -> Forall P (p (update_p_locus iteration j c)).
Proof.
  intros Hsampler Hp.
  destruct (update_p_locus_cases iteration j c)
    as (s & ln & _ & _ & [(lo & _ & _ & _ & E) | E]);
    rewrite E; clear E; chain_fields; [|exact Hp].
  destruct (Nat.lt_ge_cases j (length (p c))) as [Hlt | Hge].
  - apply Forall_insert; [exact Hp|]. apply Hsampler.
    apply (proj1 (List.Forall_nth _ _) Hp). exact Hlt.
  - rewrite list_insert_ge by exact Hge. exact Hp.
Qed.

End ProposedRows.

(** X22. Whatever property of a frequency vector the sampler's proposals
    keep, [update_p] keeps for every row of [p]: a row is either left as it
    is or replaced by the proposal made from it. *)
Theorem update_p_keeps_rows {D : Type} `{Double D} `{Sampler D}
    (P : list D -> Prop) (iteration : Z) (c : Chain) :
  (forall row v s, P row -> P (fst (sample_allele_frequencies row v s))) ->
  Forall P (p c) -> Forall P (p (update_p iteration c)).
Proof.
  intros Hsampler Hp. unfold update_p.
  apply (for_loop_inv (fun _ c' => Forall P (p c'))); [exact Hp|].
  intros j c' _ Hc'. apply update_p_locus_keeps_rows; assumption.
Qed.

(** ** Binary64: a NaN in the cache is never replaced *)

Module Binary64Absorbing.
Import Floats Binary64 Binary64Inputs Binary64Stuck.
Local Open Scope float_scope.

Lemma add_nan_l y : nan + y = nan.
Proof.
  apply Prim2SF_inj. rewrite add_spec. change (Prim2SF nan) with S754_nan.
  destruct (Prim2SF y); reflexivity.
Qed.

Lemma add_nan_r x : x + nan = nan.
Proof.
  apply Prim2SF_inj. rewrite add_spec. change (Prim2SF nan) with S754_nan.
  destruct (Prim2SF x); reflexivity.
Qed.

Lemma sub_nan_r x : x - nan = nan.
Proof.
  apply Prim2SF_inj. rewrite sub_spec. change (Prim2SF nan) with S754_nan.
  destruct (Prim2SF x); reflexivity.
Qed.

Lemma leb_nan_r x : (x <=? nan) = false.
Proof.
  rewrite leb_spec. change (Prim2SF nan) with S754_nan.
  destruct (Prim2SF x); reflexivity.
Qed.

(** No draw passes the test against a sum that is NaN. *)
Lemma never_accepted_against_nan : ~ @accepted_against float F64_Double nan.
Proof.
  intros (u & sum_can & Hacc). cbn [d_leb d_sub F64_Double] in Hacc.
  rewrite sub_nan_r, leb_nan_r in Hacc. discriminate.
Qed.

(** A sum accumulated from the left is NaN once one term is. *)
Lemma nan_sum n (f : nat -> float) a k :
  (k < n)%nat -> f k = nan ->
  for_loop n (fun i acc => acc + f i) a = nan.
Proof.
  intros Hk Hf. induction n as [|n IH]; [lia|].
  rewrite for_loop_S. destruct (Nat.eq_dec k n) as [-> | Hne].
  - rewrite Hf. apply add_nan_r.
  - rewrite IH by lia. apply add_nan_l.
Qed.

Lemma nan_sum_from_nan n (f : nat -> float) :
  for_loop n (fun i acc => acc + f i) nan = nan.
Proof.
  induction n as [|n IH]; [reflexivity|].
  rewrite for_loop_S, IH. apply add_nan_l.
Qed.

Lemma column_total_nan (cache : list (list float)) loci i j0 :
  (j0 < loci)%nat -> mget 0 cache j0 i = nan ->
  @column_total float F64_Double cache loci i = nan.
Proof.
  intros Hj Hnan. unfold column_total.
  apply (nan_sum loci (fun j => mget 0 cache j i) _ j0 Hj Hnan).
Qed.

Lemma row_total_nan (cache : list (list float)) samples j i0 :
  (i0 < samples)%nat -> mget 0 cache j i0 = nan ->
  @row_total float F64_Double cache samples j = nan.
Proof.
  intros Hi Hnan. unfold row_total.
  apply (nan_sum samples (fun i => mget 0 cache j i) _ i0 Hi Hnan).
Qed.

Lemma cache_total_nan (cache : list (list float)) loci samples j0 i0 :
  (j0 < loci)%nat -> (i0 < samples)%nat -> mget 0 cache j0 i0 = nan ->
  @cache_total float F64_Double cache loci samples = nan.
Proof.
  intros Hj Hi Hnan. unfold cache_total.
  induction loci as [|loci IH]; [lia|].
  rewrite for_loop_S. destruct (Nat.eq_dec j0 loci) as [-> | Hne].
  - apply (nan_sum samples (fun i => mget 0 cache loci i) _ i0 Hi Hnan).
  - rewrite IH by lia.
    apply (nan_sum_from_nan samples (fun i => mget 0 cache loci i)).
Qed.

Section Blocks.
Context `{Sampler float}.

Lemma update_eps_pos_stuck iteration (c : Chain) j0 i0 :
  (j0 < num_loci (genotyping_data c))%nat ->
  (i0 < num_samples (genotyping_data c))%nat ->
  mget 0 (llik_old c) j0 i0 = nan ->
  let c' := update_eps_pos iteration c in
  eps_pos c' = eps_pos c /\ llik_old c' = llik_old c.
Proof.
  intros Hj Hi Hnan. cbv zeta.
  destruct (update_eps_pos_cases iteration c)
    as [(_ & s & E) | (_ & s & ln & _ & _ & [(lo & _ & _ & Hacc & _) | E])].
  - rewrite E. split; reflexivity.
  - rewrite (cache_total_nan _ _ _ j0 i0 Hj Hi Hnan) in Hacc.
    destruct (never_accepted_against_nan Hacc).
  - rewrite E. split; reflexivity.
Qed.

Lemma update_eps_neg_stuck iteration (c : Chain) j0 i0 :
  (j0 < num_loci (genotyping_data c))%nat ->
  (i0 < num_samples (genotyping_data c))%nat ->
  mget 0 (llik_old c) j0 i0 = nan ->
  let c' := update_eps_neg iteration c in
  eps_neg c' = eps_neg c /\ llik_old c' = llik_old c.
Proof.
  intros Hj Hi Hnan. cbv zeta.
  destruct (update_eps_neg_cases iteration c)
    as [(_ & s & E) | (_ & s & ln & _ & _ & [(lo & _ & _ & Hacc & _) | E])].
  - rewrite E. split; reflexivity.
  - rewrite (cache_total_nan _ _ _ j0 i0 Hj Hi Hnan) in Hacc.
    destruct (never_accepted_against_nan Hacc).
  - rewrite E. split; reflexivity.
Qed.

Lemma update_p_stuck iteration (c : Chain) j0 i0 :
  well_shaped c ->
  (i0 < num_samples (genotyping_data c))%nat ->
  mget 0 (llik_old c) j0 i0 = nan ->
  let c' := update_p iteration c in
  nth j0 (p c') [] = nth j0 (p c) [] /\
  nth j0 (llik_old c') [] = nth j0 (llik_old c) [].
Proof.
  intros Hws Hi Hnan. cbv zeta. unfold update_p.
  apply (for_loop_inv (fun _ c' =>
    well_shaped c' /\ genotyping_data c' = genotyping_data c /\
    nth j0 (p c') [] = nth j0 (p c) [] /\
    nth j0 (llik_old c') [] = nth j0 (llik_old c) [])
    _ _ c (conj Hws (conj eq_refl (conj eq_refl eq_refl)))).
  intros k c' _ (Hws' & Hgd & Ep & El).
  pose proof (update_p_locus_shape iteration k c' Hws') as Hws''.
  destruct (update_p_locus_rows iteration k c' j0 Hws') as (Hgd' & Hother & _).
  split; [exact Hws''|]. split; [congruence|].
  destruct (Nat.eq_dec j0 k) as [-> | Hne].
  - destruct (update_p_locus_cases iteration k c')
      as (s & ln & _ & _ & [(lo & _ & _ & Hacc & _) | E]).
    + rewrite (row_total_nan _ _ _ i0) in Hacc.
      * destruct (never_accepted_against_nan Hacc).
      * rewrite Hgd. exact Hi.
      * unfold mget in *. rewrite El. exact Hnan.
    + rewrite E. chain_fields. split; assumption.
  - destruct (Hother Hne) as (Ep' & _ & El' & _). split; congruence.
Qed.

Lemma update_m_stuck iteration (c : Chain) j0 i0 :
  well_shaped c ->
  (j0 < num_loci (genotyping_data c))%nat ->
  mget 0 (llik_old c) j0 i0 = nan ->
  let c' := update_m iteration c in
  nth i0 (m c') 0%Z = nth i0 (m c) 0%Z /\
  forall j, mget 0 (llik_old c') j i0 = mget 0 (llik_old c) j i0.
Proof.
  intros Hws Hj Hnan. cbv zeta. unfold update_m.
  apply (for_loop_inv (fun _ c' =>
    well_shaped c' /\ genotyping_data c' = genotyping_data c /\
    nth i0 (m c') 0%Z = nth i0 (m c) 0%Z /\
    forall j, mget 0 (llik_old c') j i0 = mget 0 (llik_old c) j i0)
    _ _ c (conj Hws (conj eq_refl (conj eq_refl (fun _ => eq_refl))))).
  intros k c' _ (Hws' & Hgd & Em & El).
  pose proof (update_m_sample_shape iteration k c' Hws') as Hws''.
  destruct (update_m_sample_columns iteration k c' i0 Hws') as (Hgd' & Hother & _).
  split; [exact Hws''|]. split; [congruence|].
  destruct (Nat.eq_dec i0 k) as [-> | Hne].
  - destruct (update_m_sample_cases iteration k c')
      as [(Heq & s & E) | [(_ & _ & s & E)
          | [(_ & _ & s & ln & lo & _ & _ & _ & _ & Hacc & _)
          | (_ & _ & s & ln & _ & _ & E)]]].
    + rewrite E. chain_fields. split; assumption.
    + rewrite E. chain_fields. split; assumption.
    + rewrite (column_total_nan _ _ _ j0) in Hacc.
      * destruct (never_accepted_against_nan Hacc).
      * rewrite Hgd. exact Hj.
      * rewrite El. exact Hnan.
    + rewrite E. chain_fields. split; assumption.
  - destruct (Hother Hne) as (Em' & _ & El' & _). split; [congruence|].
    intros j. rewrite El'. apply El.
Qed.

End Blocks.

(** X23. On binary64, a NaN in a cell (j0, i0) of [llik_old] is never
    replaced, and what that cell is the likelihood of never moves:
    [update_m] keeps the COI of sample i0, [update_p] keeps the frequencies
    of locus j0, the epsilon blocks keep both error rates; every
    Metropolis-Hastings test that reads the cell fails. *)
Theorem nan_cell_is_absorbing `{Sampler float}
    (iteration : Z) (c : Chain) (j0 i0 : nat) :
  well_shaped c ->
  (j0 < num_loci (genotyping_data c))%nat ->
  (i0 < num_samples (genotyping_data c))%nat ->
  mget 0 (llik_old c) j0 i0 = nan ->
  (nth i0 (m (update_m iteration c)) 0%Z = nth i0 (m c) 0%Z /\
   mget 0 (llik_old (update_m iteration c)) j0 i0 = nan) /\
  (nth j0 (p (update_p iteration c)) [] = nth j0 (p c) [] /\
   mget 0 (llik_old (update_p iteration c)) j0 i0 = nan) /\
  (eps_pos (update_eps_pos iteration c) = eps_pos c /\
   mget 0 (llik_old (update_eps_pos iteration c)) j0 i0 = nan) /\
  (eps_neg (update_eps_neg iteration c) = eps_neg c /\
   mget 0 (llik_old (update_eps_neg iteration c)) j0 i0 = nan).
Proof.
  intros Hws Hj Hi Hnan. split; [|split; [|split]].
  - destruct (update_m_stuck iteration c j0 i0 Hws Hj Hnan) as [Em El].
    split; [exact Em | rewrite El; exact Hnan].
  - destruct (update_p_stuck iteration c j0 i0 Hws Hi Hnan) as [Ep El].
    split; [exact Ep | unfold mget in *; rewrite El; exact Hnan].
  - destruct (update_eps_pos_stuck iteration c j0 i0 Hj Hi Hnan) as [Ee El].
    split; [exact Ee | rewrite El; exact Hnan].
  - destruct (update_eps_neg_stuck iteration c j0 i0 Hj Hi Hnan) as [Ee El].
    split; [exact Ee | rewrite El; exact Hnan].
Qed.

Lemma nan_cell_is_absorbing_witness :
  (nth 0 (m (update_m 1 stuck_chain)) 0%Z = nth 0 (m stuck_chain) 0%Z /\
   mget 0 (llik_old (update_m 1 stuck_chain)) 0 0 = nan) /\
  (nth 0 (p (update_p 1 stuck_chain)) [] = nth 0 (p stuck_chain) [] /\
   mget 0 (llik_old (update_p 1 stuck_chain)) 0 0 = nan) /\
  (eps_pos (update_eps_pos 1 stuck_chain) = eps_pos stuck_chain /\
   mget 0 (llik_old (update_eps_pos 1 stuck_chain)) 0 0 = nan) /\
  (eps_neg (update_eps_neg 1 stuck_chain) = eps_neg stuck_chain /\
   mget 0 (llik_old (update_eps_neg 1 stuck_chain)) 0 0 = nan).
Proof.
  apply (@nan_cell_is_absorbing replaying 1 stuck_chain 0%nat 0%nat).
  - unfold well_shaped. cbv zeta.
    repeat split; try reflexivity;
      intros [|j] Hj; [reflexivity | exfalso | reflexivity | exfalso];
      change (S j < 1)%nat in Hj; lia.
  - cbn. lia.
  - cbn. lia.
  - reflexivity.
Defined.

(** *** A locus without any observed allele: NaN in the cache from the start *)

Lemma mul_nan_r x : x * nan = nan.
Proof.
  apply Prim2SF_inj. rewrite mul_spec. change (Prim2SF nan) with S754_nan.
  destruct (Prim2SF x); reflexivity.
Qed.

Lemma sub_nan_l y : nan - y = nan.
Proof.
  apply Prim2SF_inj. rewrite sub_spec. change (Prim2SF nan) with S754_nan.
  destruct (Prim2SF y); reflexivity.
Qed.

Lemma div_nan_l y : nan / y = nan.
Proof.
  apply Prim2SF_inj. rewrite div_spec. change (Prim2SF nan) with S754_nan.
  destruct (Prim2SF y); reflexivity.
Qed.

(** The log-pmf of a genotype with a positive count at an allele whose
    frequency is NaN. *)
Lemma pmf_step_nan lk g freq : @pmf_step float F64_Double lk g freq nan = nan.
Proof.
  unfold pmf_step. destruct (g >? 0)%Z; [|reflexivity].
  cbn [d_add F64_Double]. apply add_nan_l.
Qed.

Lemma pmf_step_at_nan lk g acc :
  (0 < g)%Z -> @pmf_step float F64_Double lk g nan acc = nan.
Proof.
  intros Hg. unfold pmf_step.
  destruct (Z.gtb_spec g 0) as [_ | Hle]; [|lia].
  cbn [d_add d_sub d_mul d_log lit_1e_12 F64_Double].
  rewrite add_nan_l. change (log nan) with nan.
  rewrite mul_nan_r, sub_nan_l. apply add_nan_r.
Qed.

Lemma pmf_loop_nan lk (g : nat -> Z) (f : nat -> float) n a init :
  (a < n)%nat -> (0 < g a)%Z -> f a = nan ->
  for_loop n (fun i acc => @pmf_step float F64_Double lk (g i) (f i) acc) init
  = nan.
Proof.
  intros Ha Hg Hf. induction n as [|n IH]; [lia|].
  rewrite for_loop_S. destruct (Nat.eq_dec a n) as [-> | Hne].
  - rewrite Hf. apply pmf_step_at_nan. exact Hg.
  - rewrite IH by lia. apply pmf_step_nan.
Qed.

(** The kernel at frequencies that are all NaN. *)
Lemma calc_genotype_marginal_llik_nan `{Sampler float}
    ps lk obs coi (alleles : nat) en ep (s : rng) :
  let af := replicate alleles nan in
  let depth := depth_of ps lk coi af in
  let gs := fst (sample_genotype coi (reweight_allele_frequencies af obs en ep)
                   depth s) in
  (exists d a, (d < Z.to_nat depth)%nat /\ (a < alleles)%nat /\
               (0 < mget 0%Z gs d a)%Z) ->
  fst (calc_genotype_marginal_llik ps lk obs coi af en ep s) = nan.
Proof.
  intros af depth gs. subst gs depth.
  unfold calc_genotype_marginal_llik, depth_of. cbv zeta.
  destruct (sample_genotype _ _ _ _) as [gs s']. cbn [fst].
  intros (d & a & Hd & Ha & Hg).
  set (depth := Z.min _ _) in *.
  cbn [d_log d_div d_add d_sub d_exp F64_Double].
  match goal with |- log (for_loop ?n ?b ?init / _) = nan =>
    assert (E : for_loop n b init = nan) end.
  { apply (nan_sum _
             (fun i =>
                exp (nth i (calc_obs_genotype_lliks obs gs en ep depth) (d_of_int 0)
                     + nth i (calc_genotype_log_pmf lk gs coi af depth) (d_of_int 0)
                     - nth i (calc_genotype_log_pmf lk gs coi
                                (reweight_allele_frequencies af obs en ep) depth)
                         (d_of_int 0))) _ d Hd).
    destruct (calc_genotype_log_pmf_shape lk gs coi af depth) as [_ Hcell].
    rewrite (Hcell d Hd).
    rewrite (pmf_loop_nan lk (fun i => mget 0%Z gs d i) (fun i => nth i af _) _ a).
    - rewrite add_nan_r, sub_nan_l. reflexivity.
    - subst af. rewrite length_replicate. exact Ha.
    - exact Hg.
    - subst af. apply nth_replicate. exact Ha. }
  rewrite E, div_nan_l. reflexivity.
Qed.

Lemma reweight_allele_frequencies_length {D : Type} `{Double D}
    (af : list D) obs en ep :
  length (reweight_allele_frequencies af obs en ep) = length af.
Proof.
  rewrite reweight_allele_frequencies_shape. cbv zeta.
  rewrite !length_map, length_seq. reflexivity.
Qed.

(** X24. On binary64, when every sample's observation at locus j0 is all
    zeros (so that row j0 of [p] is NaN) and the sampler returns, for
    sample i0, at least one genotype with a positive count, the constructed
    chain has NaN in cell (j0, i0) of [llik_old]. *)
Theorem Chain_new_nan_cache `{Sampler float}
    (data : GenotypingData) (tables : Lookup float)
    (settings : Parameters float) (j0 i0 : nat) :
  let alleles := Z.to_nat (nth j0 (num_alleles data) 0%Z) in
  let coi := nth i0 (observed_coi data) 0%Z in
  (j0 < num_loci data)%nat -> (i0 < num_samples data)%nat ->
  Forall all_zero (nth j0 (observed_alleles data) []) ->
  (1 <= alleles)%nat -> (0 < coi)%Z ->
  (1 <= depth_of settings tables coi (replicate alleles nan))%Z ->
  draws_an_allele ->
  mget 0 (llik_old (Chain_new data tables settings)) j0 i0 = nan.
Proof.
  intros alleles coi Hj Hi Hzero Halleles Hcoi Hdepth Hdraws.
  assert (Hrow : nth j0 (p (Chain_new data tables settings)) []
                 = replicate alleles nan).
  { destruct (Chain_new_p data tables settings) as (c0 & Hp0 & Hgd & ->).
    subst alleles. rewrite <- Hgd in *.
    rewrite initialize_p_degenerate; [reflexivity | exact Hp0 | exact Hj|].
    exact Hzero. }
  destruct (Chain_new_members data tables settings)
    as (pv & lo & s & _ & _ & Hest & E).
  rewrite E in *. chain_fields.
  destruct (Hest j0 i0 Hj Hi) as [s0 E0].
  etransitivity; [exact E0|]. rewrite Hrow.
  apply calc_genotype_marginal_llik_nan.
  destruct (Hdraws coi
              (reweight_allele_frequencies (replicate alleles nan)
                 (nth i0 (nth j0 (observed_alleles data) []) [])
                 (eps_neg_0 settings) (eps_pos_0 settings))
              (depth_of settings tables coi (replicate alleles nan)) s0)
    as (d & a & Hd & Ha & Hg).
  - exact Hcoi.
  - exact Hdepth.
  - intros Hnil. apply (f_equal (@length float)) in Hnil.
    rewrite reweight_allele_frequencies_length, length_replicate in Hnil.
    cbn [length] in Hnil. lia.
  - exists d, a. split; [exact Hd|]. split; [|exact Hg].
    rewrite reweight_allele_frequencies_length, length_replicate in Ha.
    exact Ha.
Qed.

Lemma Chain_new_nan_cache_witness :
  mget 0 (llik_old (@Chain_new float F64_Double standing nothing_observed
                      one_cell_lookup one_cell_settings)) 0 0 = nan.
Proof.
  apply (@Chain_new_nan_cache standing nothing_observed one_cell_lookup
           one_cell_settings 0%nat 0%nat).
  - cbn. lia.
  - cbn. lia.
  - cbn. repeat constructor.
  - cbn. lia.
  - cbn. lia.
  - vm_compute. discriminate.
  - intros coi q depth s Hcoi Hdepth Hq. exists 0%nat, 0%nat.
    split; [lia|]. split; [destruct q; [congruence | cbn; lia]|].
    cbn [fst sample_genotype standing still]. unfold mget.
    destruct (Z.to_nat depth) eqn:En; [lia|]. cbn. exact Hcoi.
Defined.

End Binary64Absorbing.

(** ** Binary64: when every weight underflows *)

Module Binary64Underflow.
Import Floats Binary64 Binary64Inputs.
Local Open Scope float_scope.
Set Warnings "-inexact-float".

Lemma zero_sum n (f : nat -> float) :
  (forall i, (i < n)%nat -> f i = 0) ->
  for_loop n (fun i acc => acc + f i) 0 = 0.
Proof.
  induction n as [|n IH]; intros Hf; [reflexivity|].
  rewrite for_loop_S, IH, Hf by (intros; try apply Hf; lia). reflexivity.
Qed.

(** Zero divided by a positive number, finite or not, is zero. *)
Lemma zero_div_positive x : (0 <? x) = true -> 0 / x = 0.
Proof.
  intros Hx. apply Prim2SF_inj. rewrite div_spec. rewrite ltb_spec in Hx.
  change (Prim2SF 0) with (S754_zero false) in *.
  destruct (Prim2SF x) as [sx | sx | | sx mx ex]; try discriminate Hx;
    destruct sx; try discriminate Hx; reflexivity.
Qed.

(** X25. On binary64, when the depth D converted to [double] is positive
    and the exponential of every one of the D log weights is zero, the
    kernel returns minus infinity: the sum of the exponentials is 0, and so
    is its quotient by D. *)
Theorem calc_genotype_marginal_llik_underflow `{Sampler float}
    (params : Parameters float) (lookup : Lookup float) (obs : list Z)
    (coi : Z) (freq : list float) (eps_neg eps_pos : float) (s : rng) :
  let depth := depth_of params lookup coi freq in
  let q := reweight_allele_frequencies freq obs eps_neg eps_pos in
  let gs := fst (sample_genotype coi q depth s) in
  (0 <? of_int depth) = true ->
  (forall d, (d < Z.to_nat depth)%nat ->
     exp (log_weight lookup obs coi freq q eps_neg eps_pos gs depth d) = 0) ->
  fst (calc_genotype_marginal_llik params lookup obs coi freq eps_neg eps_pos s)
  = neg_infinity.
Proof.
  intros depth q gs. subst gs q depth.
  unfold calc_genotype_marginal_llik, depth_of, log_weight. cbv zeta.
  destruct (sample_genotype _ _ _ _) as [gs s']. cbn [fst].
  set (depth := Z.min _ _).
  cbn [d_log d_div d_add d_sub d_exp d_of_int F64_Double].
  intros Hdepth Hzero.
  match goal with |- log (for_loop ?n ?b ?init / _) = _ =>
    assert (E : for_loop n b init = 0) end.
  { apply (zero_sum _
             (fun i =>
                exp (nth i (calc_obs_genotype_lliks obs gs eps_neg eps_pos depth)
                           (of_int 0)
                     + nth i (calc_genotype_log_pmf lookup gs coi freq depth)
                             (of_int 0)
                     - nth i (calc_genotype_log_pmf lookup gs coi
                                (reweight_allele_frequencies freq obs eps_neg
                                   eps_pos) depth)
                         (of_int 0)))).
    exact Hzero. }
  rewrite E, zero_div_positive by exact Hdepth. reflexivity.
Qed.

Lemma calc_genotype_marginal_llik_underflow_witness :
  fst (@calc_genotype_marginal_llik float F64_Double replaying
         one_cell_settings one_cell_lookup [1%Z; 0%Z] 1 [0.5; 0.5] 1e-200 1e-200
         unobserved_allele_tape)
  = neg_infinity.
Proof.
  apply (@calc_genotype_marginal_llik_underflow replaying one_cell_settings
           one_cell_lookup [1%Z; 0%Z] 1 [0.5; 0.5] 1e-200 1e-200
           unobserved_allele_tape).
  - vm_compute. reflexivity.
  - intros d Hd.
    assert (d = 0%nat) as -> by (vm_compute in Hd; lia).
    vm_compute. reflexivity.
Defined.

End Binary64Underflow.

(** ** The further properties at a concrete input *)

Section FurtherWitnesses.
Local Open Scope R_scope.

Ltac evaluate_shape :=
  unfold well_shaped; cbv zeta;
  repeat split; try reflexivity;
  intros [|j] Hj; [reflexivity | exfalso | reflexivity | exfalso];
  change (S j < 1)%nat in Hj; lia.

Lemma Chain_new_empirical_frequencies_witness :
  nth 0 (p (@Chain_new R R_Double rejecting two_sample_data one_cell_lookup
              one_cell_params)) []
  = empirical_frequencies [[1%Z; 0%Z]; [1%Z; 1%Z]] 2.
Proof.
  apply (@Chain_new_empirical_frequencies R R_Double rejecting two_sample_data
           one_cell_lookup one_cell_params 0%nat).
  - cbn. lia.
  - cbn. lia.
  - cbn. discriminate.
  - cbn. repeat constructor.
  - split; [cbn; repeat constructor; lia | vm_compute; discriminate].
Defined.

Lemma Chain_new_frequencies_simplex_witness :
  let row := nth 0 (p (@Chain_new R R_Double rejecting two_sample_data
                         one_cell_lookup one_cell_params)) [] in
  Forall (fun x => 0 <= x) row /\ Rsum row = 1.
Proof.
  apply (@Chain_new_frequencies_simplex rejecting two_sample_data
           one_cell_lookup one_cell_params 0%nat).
  - cbn. lia.
  - cbn. repeat constructor.
  - split; [cbn; repeat constructor; lia | vm_compute; discriminate].
  - cbn. lia.
Defined.

Lemma blocks_keep_shape_witness :
  well_shaped (update_m 1 chain_at_floor) /\
  well_shaped (update_p 1 chain_at_floor) /\
  well_shaped (update_eps_pos 1 chain_at_floor) /\
  well_shaped (update_eps_neg 1 chain_at_floor).
Proof.
  apply (@blocks_keep_shape R R_Double rejecting 1 chain_at_floor).
  evaluate_shape.
Defined.

Lemma update_eps_pos_moves_witness :
  let c' := update_eps_pos 1 chain_at_floor in
  let prop := fst (sample_epsilon_pos (eps_pos chain_at_floor)
                     (eps_pos_var chain_at_floor) (sampler chain_at_floor)) in
  (eps_pos c' = eps_pos chain_at_floor /\
   eps_pos_accept c' = eps_pos_accept chain_at_floor /\
   llik_old c' = llik_old chain_at_floor)
  \/ (eps_pos c' = prop /\
      eps_pos_accept c' = (eps_pos_accept chain_at_floor + 1)%Z /\
      llik_old c' = llik_new c').
Proof.
  apply (@update_eps_pos_moves R R_Double rejecting 1 chain_at_floor).
  evaluate_shape.
Defined.

Lemma update_eps_neg_moves_witness :
  let c' := update_eps_neg 1 chain_at_floor in
  let prop := fst (sample_epsilon_neg (eps_neg chain_at_floor)
                     (eps_neg_var chain_at_floor) (sampler chain_at_floor)) in
  (eps_neg c' = eps_neg chain_at_floor /\
   eps_neg_accept c' = eps_neg_accept chain_at_floor /\
   llik_old c' = llik_old chain_at_floor)
  \/ (eps_neg c' = prop /\
      eps_neg_accept c' = (eps_neg_accept chain_at_floor + 1)%Z /\
      llik_old c' = llik_new c').
Proof.
  apply (@update_eps_neg_moves R R_Double rejecting 1 chain_at_floor).
  evaluate_shape.
Defined.

Lemma update_p_moves_witness :
  let c' := update_p 1 chain_at_floor in
  (nth 0 (p c') [] = nth 0 (p chain_at_floor) [] /\
   nth 0 (p_accept c') 0%Z = nth 0 (p_accept chain_at_floor) 0%Z /\
   nth 0 (llik_old c') [] = nth 0 (llik_old chain_at_floor) [])
  \/ (nth 0 (p_accept c') 0%Z = (nth 0 (p_accept chain_at_floor) 0 + 1)%Z /\
      nth 0 (llik_old c') [] = nth 0 (llik_new c') []).
Proof.
  apply (@update_p_moves R R_Double rejecting 1 chain_at_floor 0%nat).
  - evaluate_shape.
  - cbn. lia.
Defined.


Lemma Chain_new_well_shaped_witness :
  well_shaped (@Chain_new R R_Double rejecting one_cell_data one_cell_lookup
                 one_cell_params).
Proof.
  apply (@Chain_new_well_shaped R R_Double rejecting one_cell_data
           one_cell_lookup one_cell_params).
  reflexivity.
Defined.

Lemma cache_stays_coherent_witness :
  coherent (update_m 1 estimated_chain) /\
  coherent (update_p 1 estimated_chain) /\
  coherent (update_eps_pos 1 estimated_chain) /\
  coherent (update_eps_neg 1 estimated_chain).
Proof.
  apply (@cache_stays_coherent R R_Double rejecting 1 estimated_chain).
  - evaluate_shape.
  - intros [|j] [|i] Hj Hi;
      try (exfalso; change (S j < 1)%nat in Hj; lia);
      try (exfalso; change (S i < 1)%nat in Hi; lia).
    exists (state_of tape_proposed). reflexivity.
Defined.

Lemma update_m_scale_nonneg_witness :
  coi_scales_nonneg (update_m 1 chain_at_floor).
Proof.
  apply (@update_m_scale_nonneg rejecting 1 chain_at_floor).
  - lia.
  - unfold coi_scales_nonneg. cbn [m_prop_mean chain_at_floor].
    apply List.Forall_cons; [lra | apply List.Forall_nil].
Defined.

Lemma rates_stay_in_range_witness :
  rates_in_range (update_m 1 chain_at_floor) /\
  rates_in_range (update_p 1 chain_at_floor) /\
  rates_in_range (update_eps_pos 1 chain_at_floor) /\
  rates_in_range (update_eps_neg 1 chain_at_floor).
Proof.
  apply (@rates_stay_in_range rejecting 1 chain_at_floor).
  unfold rates_in_range.
  cbn [eps_pos eps_neg params chain_at_floor max_eps_pos max_eps_neg
       one_cell_params].
  lra.
Defined.

Lemma log_weight_local_witness :
  log_weight one_cell_lookup [1%Z; 0%Z] 1 [0.5; 0.5] [0.5; 0.5] 0.01 0.01
    [[1%Z; 0%Z]] 1 0
  = log_weight one_cell_lookup [1%Z; 0%Z] 1 [0.5; 0.5] [0.5; 0.5] 0.01 0.01
      [[1%Z; 0%Z]; [0%Z; 1%Z]] 1 0.
Proof.
  apply (@log_weight_local R R_Double one_cell_lookup [1%Z; 0%Z] 1 [0.5; 0.5]
           [0.5; 0.5] 0.01 0.01 [[1%Z; 0%Z]] [[1%Z; 0%Z]; [0%Z; 1%Z]] 1 0%nat).
  - cbn. lia.
  - cbn. lia.
  - cbn. lia.
  - reflexivity.
Defined.

Lemma calc_obs_genotype_lliks_nonpos_witness :
  nth 0 (calc_obs_genotype_lliks [1%Z; 0%Z] [[1%Z; 0%Z]] 0.01 0.01 1) 0 <= 0.
Proof.
  apply (calc_obs_genotype_lliks_nonpos [1%Z; 0%Z] [[1%Z; 0%Z]] 0.01 0.01 1 0).
  - lra.
  - lra.
  - cbn. lia.
  - cbn. lia.
  - cbn. repeat constructor; lia.
Defined.

Lemma update_p_keeps_rows_witness :
  Forall (fun row => Rsum row = 1) (p (update_p 1 still_chain)).
Proof.
  apply (@update_p_keeps_rows R R_Double (still 0) (fun row => Rsum row = 1)
           1 still_chain).
  - intros row v s Hrow. exact Hrow.
  - cbn [p still_chain]. apply List.Forall_cons; [|apply List.Forall_nil].
    unfold Rsum. cbn [fold_right]. lra.
Defined.

End FurtherWitnesses.
